(** * Smart Language Builder (src/smarttalkwith-voice/src/App.tsx)

    A shallow embedding of the application core of [App.tsx]: the two
    collections (words, sentences), the handlers that change them, the
    search filter, and the effects that mirror the collections to
    [localStorage] as JSON text.

    JavaScript strings are sequences of UTF-16 code units; they are modelled
    as lists of code units.  The built-ins the component calls ([trim],
    [split], [includes], [join], [JSON.stringify], [JSON.parse], property
    access, spreading) are defined on that representation following
    ECMA-262; [toLowerCase], the arithmetic of Number values and the wording
    of engine-raised errors depend on Unicode tables and on the engine and
    are an interface ([Engine]).

    TypeScript's interfaces are erased when the component runs: the state
    cells hold whatever value was put there, so the collections are modelled
    as values ([json]) and every operation says what it does on each of
    them, a thrown TypeError included. *)

From Stdlib Require Import List NArith ZArith Lia Bool String Ascii.
From Stdlib Require Import DecimalString DecimalPos DecimalZ.
From stdpp Require Import gmap.
Import ListNotations.

Set Default Proof Using "Type".
#[local] Set Warnings "-register-all".

(** ** JavaScript strings *)

Module JS.

(** A string value: its UTF-16 code units, each in [0, 65535]. *)
Definition jsstring : Type := list N.

(** An ASCII literal of the source as a string value. *)
Definition js (s : string) : jsstring :=
  List.map N_of_ascii (list_ascii_of_string s).

(** ECMA-262 WhiteSpace and LineTerminator code points, the ones
    [String.prototype.trim] strips. *)
Definition isWhiteSpace (c : N) : bool :=
  ((9 <=? c) && (c <=? 13)            (* TAB LF VT FF CR *)
   || (c =? 32) || (c =? 160)         (* SP, NBSP *)
   || (c =? 5760)                     (* U+1680 *)
   || ((8192 <=? c) && (c <=? 8202))  (* U+2000 .. U+200A *)
   || (c =? 8232) || (c =? 8233)      (* LS, PS *)
   || (c =? 8239) || (c =? 8287)      (* U+202F, U+205F *)
   || (c =? 12288) || (c =? 65279))%N (* U+3000, U+FEFF *).

Fixpoint trimStart (s : jsstring) : jsstring :=
  match s with
  | [] => []
  | c :: r => if isWhiteSpace c then trimStart r else s
  end.

Definition trimEnd (s : jsstring) : jsstring := rev (trimStart (rev s)).

(** [s.trim()] *)
Definition trim (s : jsstring) : jsstring := trimEnd (trimStart s).

(** Truthiness of a string: [""] is falsy, every other string truthy. *)
Definition truthy (s : jsstring) : bool :=
  match s with [] => false | _ :: _ => true end.

(** [s.split(sep)] for a separator of one code unit, as in [split('\n')]:
    the pieces between the occurrences of the separator; never empty. *)
Fixpoint split (sep : N) (s : jsstring) : list jsstring :=
  match s with
  | [] => [[]]
  | c :: r =>
      if (c =? sep)%N then [] :: split sep r
      else match split sep r with
           | piece :: pieces => (c :: piece) :: pieces
           | [] => [[c]]
           end
  end.

(** Does [p] occur in [s] at position 0? *)
Fixpoint startsWith (s p : jsstring) : bool :=
  match p, s with
  | [], _ => true
  | _ :: _, [] => false
  | a :: p', b :: s' => (a =? b)%N && startsWith s' p'
  end.

(** [s.includes(search)]: StringIndexOf from position 0, trying each
    position in turn; the empty string is found at position 0. *)
Fixpoint includes (s search : jsstring) : bool :=
  startsWith s search
  || match s with
     | [] => false
     | _ :: r => includes r search
     end.

(** [pieces.join(sep)] *)
Fixpoint join (sep : jsstring) (pieces : list jsstring) : jsstring :=
  match pieces with
  | [] => []
  | [p] => p
  | p :: rest => p ++ sep ++ join sep rest
  end.

(** [n.toString()] for an integral Number below 10^21 in magnitude, such as
    a time value: the decimal digits, with a minus sign when negative. *)
Definition Number_toString (n : Z) : jsstring :=
  js (NilZero.string_of_int (Z.to_int n)).

(** [a || ""] for a destructured array element [a], [None] being
    [undefined]: a missing or empty element gives [""]. *)
Definition or_empty (a : option jsstring) : jsstring :=
  match a with
  | Some s => if truthy s then s else []
  | None => []
  end.

End JS.
Export JS.

(** ** JSON text *)

Module JSON.

(** A JavaScript value that holds no function: [undefined], or a value
    produced by [JSON.parse].  A number is kept as the text of a literal
    that denotes it.  An object is kept as the sequence of its property
    definitions: a key defined more than once keeps the place of its first
    definition and the value of its last one. *)
Inductive json : Type :=
  | JUndefined
  | JNull
  | JBool (b : bool)
  | JNum (literal : jsstring)
  | JStr (s : jsstring)
  | JArr (items : list json)
  | JObj (members : list (jsstring * json)).

(** *** Writing: QuoteJSONString, SerializeJSONObject, SerializeJSONArray *)

Definition hex_digit (d : N) : N :=
  (if d <? 10 then 48 + d else 87 + d)%N.

(** [\uXXXX] with four lowercase hexadecimal digits. *)
Definition unicode_escape (c : N) : jsstring :=
  [92; 117; hex_digit ((c / 4096) mod 16); hex_digit ((c / 256) mod 16);
   hex_digit ((c / 16) mod 16); hex_digit (c mod 16)]%N.

Definition is_high_surrogate (c : N) : bool := ((55296 <=? c) && (c <=? 56319))%N.
Definition is_low_surrogate (c : N) : bool := ((56320 <=? c) && (c <=? 57343))%N.

(** One code unit that is not the first half of a surrogate pair: the
    two-character escapes of ECMA-262 table 75, [\uXXXX] for the other
    control characters and for a lone surrogate, the unit itself otherwise. *)
Definition quote_unit (c : N) : jsstring :=
  (if c =? 8 then [92; 98]
   else if c =? 9 then [92; 116]
   else if c =? 10 then [92; 110]
   else if c =? 12 then [92; 102]
   else if c =? 13 then [92; 114]
   else if c =? 34 then [92; 34]
   else if c =? 92 then [92; 92]
   else if (c <? 32) || is_high_surrogate c || is_low_surrogate c
        then unicode_escape c
   else [c])%N.

(** The string is read by code points: a high surrogate followed by a low
    one is a pair and is copied; any other surrogate is escaped. *)
Fixpoint quote_units (s : jsstring) : jsstring :=
  match s with
  | [] => []
  | c :: r =>
      if is_high_surrogate c then
        match r with
        | d :: r' =>
            if is_low_surrogate d then c :: d :: quote_units r'
            else unicode_escape c ++ quote_units r
        | [] => unicode_escape c
        end
      else quote_unit c ++ quote_units r
  end.

Definition QuoteJSONString (s : jsstring) : jsstring :=
  [34%N] ++ quote_units s ++ [34%N].

(** A property that holds a string: the quoted key, a colon, the quoted
    value. *)
Definition member_text (m : jsstring * jsstring) : jsstring :=
  QuoteJSONString (fst m) ++ [58%N] ++ QuoteJSONString (snd m).

(** An object all of whose properties hold strings, in property order. *)
Definition SerializeJSONObject (members : list (jsstring * jsstring)) : jsstring :=
  [123%N] ++ join [44%N] (List.map member_text members) ++ [125%N].

(** The value such an object text denotes. *)
Definition object_value (members : list (jsstring * jsstring)) : json :=
  JObj (List.map (fun m => (fst m, JStr (snd m))) members).

(** An array, given the serialization of each element. *)
Definition SerializeJSONArray (items : list jsstring) : jsstring :=
  [91%N] ++ join [44%N] items ++ [93%N].

(** *** Reading: the JSON grammar of ECMA-404 *)

Definition is_json_ws (c : N) : bool :=
  ((c =? 9) || (c =? 10) || (c =? 13) || (c =? 32))%N.

Fixpoint skip_ws (s : jsstring) : jsstring :=
  match s with
  | [] => []
  | c :: r => if is_json_ws c then skip_ws r else s
  end.

Definition is_digit (c : N) : bool := ((48 <=? c) && (c <=? 57))%N.

Definition hex_value (c : N) : option N :=
  (if (48 <=? c) && (c <=? 57) then Some (c - 48)
   else if (97 <=? c) && (c <=? 102) then Some (c - 87)
   else if (65 <=? c) && (c <=? 70) then Some (c - 55)
   else None)%N.

Definition hex4 (a b c d : N) : option N :=
  match hex_value a, hex_value b, hex_value c, hex_value d with
  | Some x, Some y, Some z, Some w => Some (((x * 16 + y) * 16 + z) * 16 + w)%N
  | _, _, _, _ => None
  end.

(** The character a two-character escape stands for. *)
Definition unescape (e : N) : option N :=
  (if e =? 34 then Some 34
   else if e =? 92 then Some 92
   else if e =? 47 then Some 47
   else if e =? 98 then Some 8
   else if e =? 102 then Some 12
   else if e =? 110 then Some 10
   else if e =? 114 then Some 13
   else if e =? 116 then Some 9
   else None)%N.

(** One more character in front of the string read from the rest. *)
Definition more (c : N) (tail : option (jsstring * jsstring))
  : option (jsstring * jsstring) :=
  match tail with
  | Some (str, rest) => Some (c :: str, rest)
  | None => None
  end.

(** The characters of a string literal after its opening quote, up to and
    including the closing quote: the string denoted and the text left. *)
Fixpoint parse_chars (s : jsstring) : option (jsstring * jsstring) :=
  match s with
  | [] => None
  | c :: r =>
      if (c =? 34)%N then Some ([], r)
      else if (c =? 92)%N then
        match r with
        | [] => None
        | e :: r1 =>
            if (e =? 117)%N then
              match r1 with
              | h1 :: h2 :: h3 :: h4 :: r2 =>
                  match hex4 h1 h2 h3 h4 with
                  | Some u => more u (parse_chars r2)
                  | None => None
                  end
              | _ => None
              end
            else
              match unescape e with
              | Some u => more u (parse_chars r1)
              | None => None
              end
        end
      else if (c <? 32)%N then None
      else more c (parse_chars r)
  end.

(** The longest run of digits at the head of the text. *)
Fixpoint span_digits (s : jsstring) : jsstring * jsstring :=
  match s with
  | c :: r =>
      if is_digit c then let '(ds, rest) := span_digits r in (c :: ds, rest)
      else ([], s)
  | [] => ([], [])
  end.

(** One or more digits. *)
Definition digits1 (s : jsstring) : option (jsstring * jsstring) :=
  match span_digits s with
  | ([], _) => None
  | (ds, rest) => Some (ds, rest)
  end.

(** The integer part: [0], or a nonzero digit followed by digits. *)
Definition lex_int (s : jsstring) : option (jsstring * jsstring) :=
  match s with
  | c :: r =>
      if (c =? 48)%N then Some ([c], r)
      else if is_digit c then let '(ds, rest) := span_digits r in Some (c :: ds, rest)
      else None
  | [] => None
  end.

(** An optional fraction: [.] and one or more digits. *)
Definition lex_frac (s : jsstring) : option (jsstring * jsstring) :=
  match s with
  | c :: r =>
      if (c =? 46)%N then
        match digits1 r with
        | Some (ds, rest) => Some (c :: ds, rest)
        | None => None
        end
      else Some ([], s)
  | [] => Some ([], [])
  end.

(** An optional exponent: [e] or [E], an optional sign, one or more digits. *)
Definition lex_exp (s : jsstring) : option (jsstring * jsstring) :=
  match s with
  | c :: r =>
      if (c =? 101)%N || (c =? 69)%N then
        match r with
        | sg :: r1 =>
            if (sg =? 43)%N || (sg =? 45)%N then
              match digits1 r1 with
              | Some (ds, rest) => Some (c :: sg :: ds, rest)
              | None => None
              end
            else
              match digits1 r with
              | Some (ds, rest) => Some (c :: ds, rest)
              | None => None
              end
        | [] => None
        end
      else Some ([], s)
  | [] => Some ([], [])
  end.

Definition lex_unsigned (s : jsstring) : option (jsstring * jsstring) :=
  match lex_int s with
  | Some (i, r1) =>
      match lex_frac r1 with
      | Some (f, r2) =>
          match lex_exp r2 with
          | Some (e, r3) => Some (i ++ f ++ e, r3)
          | None => None
          end
      | None => None
      end
  | None => None
  end.

(** A number literal: an optional minus sign and an unsigned number. *)
Definition lex_number (s : jsstring) : option (jsstring * jsstring) :=
  match s with
  | c :: r =>
      if (c =? 45)%N then
        match lex_unsigned r with
        | Some (l, rest) => Some (c :: l, rest)
        | None => None
        end
      else lex_unsigned s
  | [] => None
  end.

(** The literal names [true], [false] and [null]. *)
Definition parse_name (s : jsstring) : option (json * jsstring) :=
  if startsWith s (js "true") then Some (JBool true, skipn 4 s)
  else if startsWith s (js "false") then Some (JBool false, skipn 5 s)
  else if startsWith s (js "null") then Some (JNull, skipn 4 s)
  else None.

(** A value, preceded by optional white space; the elements of an array
    after its opening bracket; the members of an object after its opening
    brace.  [fuel] bounds the nesting of the calls. *)
Fixpoint parse_value (fuel : nat) (s : jsstring) : option (json * jsstring) :=
  match fuel with
  | O => None
  | S fuel =>
      match skip_ws s with
      | [] => None
      | c :: r =>
          if (c =? 34)%N then
            match parse_chars r with
            | Some (str, rest) => Some (JStr str, rest)
            | None => None
            end
          else if (c =? 91)%N then
            match skip_ws r with
            | d :: r1 =>
                if (d =? 93)%N then Some (JArr [], r1)
                else
                  match parse_elements fuel r with
                  | Some (items, rest) => Some (JArr items, rest)
                  | None => None
                  end
            | [] => None
            end
          else if (c =? 123)%N then
            match skip_ws r with
            | d :: r1 =>
                if (d =? 125)%N then Some (JObj [], r1)
                else
                  match parse_members fuel r with
                  | Some (members, rest) => Some (JObj members, rest)
                  | None => None
                  end
            | [] => None
            end
          else if (c =? 45)%N || is_digit c then
            match lex_number (c :: r) with
            | Some (l, rest) => Some (JNum l, rest)
            | None => None
            end
          else parse_name (c :: r)
      end
  end

with parse_elements (fuel : nat) (s : jsstring) : option (list json * jsstring) :=
  match fuel with
  | O => None
  | S fuel =>
      match parse_value fuel s with
      | Some (v, r) =>
          match skip_ws r with
          | c :: r1 =>
              if (c =? 44)%N then
                match parse_elements fuel r1 with
                | Some (vs, rest) => Some (v :: vs, rest)
                | None => None
                end
              else if (c =? 93)%N then Some ([v], r1)
              else None
          | [] => None
          end
      | None => None
      end
  end

with parse_members (fuel : nat) (s : jsstring)
  : option (list (jsstring * json) * jsstring) :=
  match fuel with
  | O => None
  | S fuel =>
      match skip_ws s with
      | q :: r =>
          if (q =? 34)%N then
            match parse_chars r with
            | Some (key, r1) =>
                match skip_ws r1 with
                | col :: r2 =>
                    if (col =? 58)%N then
                      match parse_value fuel r2 with
                      | Some (v, r3) =>
                          match skip_ws r3 with
                          | c :: r4 =>
                              if (c =? 44)%N then
                                match parse_members fuel r4 with
                                | Some (ms, rest) => Some ((key, v) :: ms, rest)
                                | None => None
                                end
                              else if (c =? 125)%N then Some ([(key, v)], r4)
                              else None
                          | [] => None
                          end
                      | None => None
                      end
                    else None
                | [] => None
                end
            | None => None
            end
          else None
      | [] => None
      end
  end.

(** [JSON.parse(text)]: one value, white space allowed around it and nothing
    else; [None] is the SyntaxError.  The fuel given is enough for every
    text (see [parse_value_fuel]). *)
Definition JSON_parse (text : jsstring) : option json :=
  match parse_value (2 * length text + 1) text with
  | Some (v, rest) =>
      match skip_ws rest with
      | [] => Some v
      | _ :: _ => None
      end
  | None => None
  end.

End JSON.
Export JSON.

(** ** What the engine provides *)

(** [String.prototype.toLowerCase] follows the Unicode case mappings; the
    message of an engine-raised error is the engine's own wording; and a
    Number is a double, the one its literal denotes (ECMA-262 6.1.6.1), whose
    text and order the engine computes.  Numbers are given by a literal that
    denotes them. *)
Class Engine : Type := {
  toLowerCase : jsstring -> jsstring;
  toLowerCase_empty : toLowerCase [] = [];
  (** message of the SyntaxError that [JSON.parse] raises on a text *)
  SyntaxError_message : jsstring -> jsstring;
  (** message of the TypeError raised by destructuring [null] or
      [undefined] *)
  TypeError_message : jsstring;
  (** message of the TypeError raised by spreading a value that is not
      iterable *)
  NotIterable_message : jsstring;
  (** [Number::toString] of the value of a literal *)
  Number_text : jsstring -> jsstring;
  (** is the value of the literal finite? *)
  Number_isFinite : jsstring -> bool;
  (** [===] and [<] on the values of two literals *)
  Number_equal : jsstring -> jsstring -> bool;
  Number_lessThan : jsstring -> jsstring -> bool;
  (** [<] between [StringToNumber] of a string and the value of a literal *)
  StringToNumber_lessThan : jsstring -> jsstring -> bool
}.

(** ** Operations on values *)

Module Values.

(** [a === b] on strings. *)
Fixpoint strict_equal (a b : jsstring) : bool :=
  match a, b with
  | [], [] => true
  | x :: a', y :: b' => (x =? y)%N && strict_equal a' b'
  | _, _ => false
  end.

(** What a sequence of property definitions holds under a key, if
    anything: of definitions with the same key the last one counts. *)
Fixpoint property {A : Type} (members : list (jsstring * A)) (key : jsstring)
  : option A :=
  match members with
  | [] => None
  | (k, v) :: rest =>
      match property rest key with
      | Some v' => Some v'
      | None => if strict_equal k key then Some v else None
      end
  end.

Definition has_property {A : Type} (members : list (jsstring * A)) (key : jsstring)
  : bool :=
  match property members key with Some _ => true | None => false end.

(** [v.name], for a name that is not an array index and that no built-in
    prototype defines (such are [id], [myanmar], [indonesian], [type],
    [indonesianTranslation], [wordType]): the own property of an object,
    [undefined] on every other value that has properties, and a TypeError,
    [None], on [undefined] and [null]. *)
Definition field (v : json) (name : jsstring) : option json :=
  match v with
  | JUndefined | JNull => None
  | JObj members =>
      Some (match property members name with Some x => x | None => JUndefined end)
  | _ => Some JUndefined
  end.

(** The elements of an array, none for any other value. *)
Definition elements (v : json) : list json :=
  match v with
  | JArr items => items
  | _ => []
  end.

(** [ToString(v)], as a template literal and [join] apply it; [None] is a
    TypeError.  An array gives the texts of its elements joined by commas,
    [undefined] and [null] elements giving nothing.  An object gives
    ["[object Object]"] through [Object.prototype.toString], unless it has
    an own property [toString]: that one holds no function, and
    [Object.prototype.valueOf] returns the object, so no primitive is
    reached. *)
Fixpoint ToString `{Engine} (v : json) : option jsstring :=
  match v with
  | JUndefined => Some (js "undefined")
  | JNull => Some (js "null")
  | JBool b => Some (if b then js "true" else js "false")
  | JNum literal => Some (Number_text literal)
  | JStr s => Some s
  | JArr items =>
      match
        (fix texts (l : list json) : option (list jsstring) :=
           match l with
           | [] => Some []
           | x :: rest =>
               match
                 match x with
                 | JUndefined | JNull => Some []
                 | _ => ToString x
                 end, texts rest
               with
               | Some t, Some ts => Some (t :: ts)
               | _, _ => None
               end
           end) items
      with
      | Some ts => Some (join [44%N] ts)
      | None => None
      end
  | JObj members =>
      if has_property members (js "toString") then None
      else Some (js "[object Object]")
  end.

(** [values.join(sep)]: [undefined] and [null] give the empty string. *)
Definition join_element `{Engine} (v : json) : option jsstring :=
  match v with
  | JUndefined | JNull => Some []
  | _ => ToString v
  end.

Definition join_values `{Engine} (sep : jsstring) (values : list json)
  : option jsstring :=
  match mapM join_element values with
  | Some texts => Some (join sep texts)
  | None => None
  end.

(** The strings of the code points of a string, as its iterator yields
    them: a surrogate pair is one code point. *)
Fixpoint code_points (s : jsstring) : list jsstring :=
  match s with
  | [] => []
  | c :: r =>
      if is_high_surrogate c then
        match r with
        | d :: r' =>
            if is_low_surrogate d then [c; d] :: code_points r'
            else [c] :: code_points r
        | [] => [[c]]
        end
      else [c] :: code_points r
  end.

(** [...v]: the elements of an array, the code points of a string; a
    TypeError, [None], on every other value, none of which is iterable. *)
Definition spread (v : json) : option (list json) :=
  match v with
  | JArr items => Some items
  | JStr s => Some (List.map JStr (code_points s))
  | _ => None
  end.

(** [a === b] when one of the two at least is not an object. *)
Definition primitive_equal `{Engine} (a b : json) : bool :=
  match a, b with
  | JUndefined, JUndefined => true
  | JNull, JNull => true
  | JBool x, JBool y => Bool.eqb x y
  | JNum x, JNum y => Number_equal x y
  | JStr x, JStr y => strict_equal x y
  | _, _ => false
  end.

(** [a !== b] for values read from the records of one collection.  Two
    objects are compared by identity.  The objects of a collection are all
    distinct (each comes from its own node of a parsed text or from its own
    object literal), so two of them are the same object exactly when they
    are read from the same place, which [same_place] tells. *)
Definition strict_unequal `{Engine} (a b : json) (same_place : bool) : bool :=
  match a, b with
  | (JArr _ | JObj _), (JArr _ | JObj _) => negb same_place
  | _, _ => negb (primitive_equal a b)
  end.

(** [l.filter(keep)] for a test that may throw, the elements numbered
    from [i]. *)
Fixpoint filter_from {A : Type} (i : nat) (keep : nat -> A -> option bool)
    (l : list A) : option (list A) :=
  match l with
  | [] => Some []
  | x :: rest =>
      match keep i x with
      | Some b =>
          match filter_from (S i) keep rest with
          | Some kept => Some (if b then x :: kept else kept)
          | None => None
          end
      | None => None
      end
  end.

(** [v < 2] for a value [v] (IsLessThan): [undefined] gives NaN, [null] and
    the booleans 0 or 1; a string is read as a number, and so is the text of
    an array or object. *)
Definition less_than_two `{Engine} (v : json) : option bool :=
  match v with
  | JUndefined => Some false
  | JNull | JBool _ => Some true
  | JNum literal => Some (Number_lessThan literal (js "2"))
  | JStr s => Some (StringToNumber_lessThan s (js "2"))
  | JArr _ | JObj _ =>
      match ToString v with
      | Some s => Some (StringToNumber_lessThan s (js "2"))
      | None => None
      end
  end.

(** [v.length < 2]: a TypeError on [undefined] and [null]; an array and a
    string have their length, an object its own property [length] if any,
    the other values none. *)
Definition length_below_two `{Engine} (v : json) : option bool :=
  match v with
  | JUndefined | JNull => None
  | JArr items => Some (length items <? 2)%nat
  | JStr s => Some (length s <? 2)%nat
  | JObj members =>
      match property members (js "length") with
      | Some x => less_than_two x
      | None => Some false
      end
  | JBool _ | JNum _ => Some false
  end.

(** [v.length === 0] *)
Definition length_is_zero `{Engine} (v : json) : option bool :=
  match v with
  | JUndefined | JNull => None
  | JArr items => Some (length items =? 0)%nat
  | JStr s => Some (length s =? 0)%nat
  | JObj members =>
      Some (match property members (js "length") with
            | Some (JNum literal) => Number_equal literal (js "0")
            | _ => false
            end)
  | JBool _ | JNum _ => Some false
  end.

(** *** JSON.stringify *)

(** The number a key stands for when it is an array index: a canonical
    numeric string below 2^32 - 1. *)
Definition array_index (key : jsstring) : option N :=
  match key with
  | [] => None
  | c :: rest =>
      let n := fold_left (fun acc d => acc * 10 + (d - 48))%N key 0%N in
      if forallb is_digit key
         && (negb (c =? 48)%N || match rest with [] => true | _ :: _ => false end)
         && (n <? 4294967295)%N
      then Some n
      else None
  end.

Fixpoint first_occurrences (keys : list jsstring) : list jsstring :=
  match keys with
  | [] => []
  | k :: rest =>
      k :: List.filter (fun k' => negb (strict_equal k' k)) (first_occurrences rest)
  end.

Fixpoint insert_index (n : N) (l : list N) : list N :=
  match l with
  | [] => [n]
  | m :: rest => if (n <=? m)%N then n :: l else m :: insert_index n rest
  end.

(** OrdinaryOwnPropertyKeys: the array indices in ascending order, then the
    other keys in the order of their first definition. *)
Definition OwnPropertyKeys (keys : list jsstring) : list jsstring :=
  let distinct := first_occurrences keys in
  List.map (fun n => Number_toString (Z.of_N n))
    (fold_right insert_index [] (omap array_index distinct))
  ++ List.filter
       (fun k => match array_index k with Some _ => false | None => true end)
       distinct.

(** SerializeJSONProperty: the text of a value, [None] when the value is
    [undefined].  No value here has a [toJSON] method.  An element of an
    array that is [undefined] is written [null]; a property of an object
    that holds [undefined] is left out; a number that is not finite is
    written [null]. *)
Fixpoint SerializeJSONProperty `{Engine} (v : json) : option jsstring :=
  match v with
  | JUndefined => None
  | JNull => Some (js "null")
  | JBool b => Some (if b then js "true" else js "false")
  | JNum literal =>
      Some (if Number_isFinite literal then Number_text literal else js "null")
  | JStr s => Some (QuoteJSONString s)
  | JArr items =>
      Some (SerializeJSONArray
              ((fix texts (l : list json) : list jsstring :=
                  match l with
                  | [] => []
                  | x :: rest =>
                      match SerializeJSONProperty x with
                      | Some t => t
                      | None => js "null"
                      end :: texts rest
                  end) items))
  | JObj members =>
      let written :=
        (fix texts (l : list (jsstring * json))
           : list (jsstring * option jsstring) :=
           match l with
           | [] => []
           | (k, x) :: rest => (k, SerializeJSONProperty x) :: texts rest
           end) members in
      Some ([123%N]
            ++ join [44%N]
                 (omap (fun k =>
                          match property written k with
                          | Some (Some t) => Some (QuoteJSONString k ++ [58%N] ++ t)
                          | _ => None
                          end)
                    (OwnPropertyKeys (List.map fst members)))
            ++ [125%N])
  end.

(** [String(text)], as [JSON.parse] and [localStorage.setItem] convert
    their argument. *)
Definition text_argument (text : option jsstring) : jsstring :=
  match text with
  | Some t => t
  | None => js "undefined"
  end.

(** [JSON.stringify(v)], converted to a string. *)
Definition JSON_stringify `{Engine} (v : json) : jsstring :=
  text_argument (SerializeJSONProperty v).

End Values.
Export Values.

(** An engine for the examples: the case mapping covers Basic Latin only,
    and a number is written as its literal is, which is its text when the
    literal is a decimal integer without sign, fraction or exponent; only
    such literals are compared. *)
Module BasicLatin.

Definition lower_unit (c : N) : N :=
  (if (65 <=? c) && (c <=? 90) then c + 32 else c)%N.

Definition lower (s : jsstring) : jsstring := List.map lower_unit s.

Definition natural (literal : jsstring) : N :=
  fold_left (fun acc d => acc * 10 + (d - 48))%N literal 0%N.

#[export] Instance engine : Engine := {|
  toLowerCase := lower;
  toLowerCase_empty := eq_refl;
  SyntaxError_message := fun text => js "Unexpected token in JSON: " ++ text;
  TypeError_message := js "Cannot destructure property of null";
  NotIterable_message := js "object is not iterable";
  Number_text := fun literal => literal;
  Number_isFinite := fun _ => true;
  Number_equal := fun a b => (natural a =? natural b)%N;
  Number_lessThan := fun a b => (natural a <? natural b)%N;
  StringToNumber_lessThan := fun s b => forallb is_digit s && (natural s <? natural b)%N
|}.

End BasicLatin.

(** ** The component *)

Module Word.

(** [interface Word]: what TypeScript takes a record of the word collection
    to be. *)
Record t : Type := {
  id : jsstring;
  myanmar : jsstring;
  indonesian : jsstring;
  type : jsstring
}.

(** The object literal of lines 94-99, its properties in the order
    written. *)
Definition literal (id myanmar : jsstring) (indonesian type : json) : json :=
  JObj [(js "id", JStr id); (js "myanmar", JStr myanmar);
        (js "indonesian", indonesian); (js "type", type)].

(** A record that is as the interface says, as a value. *)
Definition value (w : t) : json :=
  literal (id w) (myanmar w) (JStr (indonesian w)) (JStr (type w)).

(** Its properties and the strings they hold. *)
Definition members (w : t) : list (jsstring * jsstring) :=
  [(js "id", id w); (js "myanmar", myanmar w);
   (js "indonesian", indonesian w); (js "type", type w)].

Definition array (ws : list t) : json := JArr (List.map value ws).

End Word.

Module Sentence.

(** [interface Sentence] *)
Record t : Type := {
  id : jsstring;
  myanmar : jsstring;
  indonesian : jsstring
}.

(** The object literal of lines 157-161. *)
Definition literal (id myanmar indonesian : jsstring) : json :=
  JObj [(js "id", JStr id); (js "myanmar", JStr myanmar);
        (js "indonesian", JStr indonesian)].

Definition value (s : t) : json := literal (id s) (myanmar s) (indonesian s).

Definition members (s : t) : list (jsstring * jsstring) :=
  [(js "id", id s); (js "myanmar", myanmar s); (js "indonesian", indonesian s)].

Definition array (ss : list t) : json := JArr (List.map value ss).

End Sentence.

Module View.

(** What a render shows, as far as it depends on the state: the error
    banner, which controls are disabled, the rows of the two lists (the
    records they show) and the placeholders shown in their place. *)
Record t : Type := {
  banner : option jsstring;
  word_input_disabled : bool;
  save_disabled : bool;
  processing : bool;
  word_rows : list json;
  no_words : bool;
  create_disabled : bool;
  sentence_rows : list json;
  no_sentences : bool
}.

End View.

Module App.

(** The six [useState] cells of [App].  The two collections hold whatever
    value the setter was called with. *)
Record AppState : Type := {
  newMyanmarWord : jsstring;
  words : json;
  searchTerm : jsstring;
  generatedSentences : json;
  loading : bool;
  error : option jsstring
}.

(** The state of the first render. *)
Definition initialState : AppState := {|
  newMyanmarWord := [];
  words := JArr [];
  searchTerm := [];
  generatedSentences := JArr [];
  loading := false;
  error := None
|}.

(** A call of one of the state setters. *)
Inductive setter : Type :=
  | setNewMyanmarWord (v : jsstring)
  | setWords (v : json)
  | setSearchTerm (v : jsstring)
  | setGeneratedSentences (v : json)
  | setLoading (v : bool)
  | setError (v : option jsstring).

Definition apply_setter (s : AppState) (call : setter) : AppState :=
  match call with
  | setNewMyanmarWord v =>
      {| newMyanmarWord := v; words := words s; searchTerm := searchTerm s;
         generatedSentences := generatedSentences s; loading := loading s;
         error := error s |}
  | setWords v =>
      {| newMyanmarWord := newMyanmarWord s; words := v; searchTerm := searchTerm s;
         generatedSentences := generatedSentences s; loading := loading s;
         error := error s |}
  | setSearchTerm v =>
      {| newMyanmarWord := newMyanmarWord s; words := words s; searchTerm := v;
         generatedSentences := generatedSentences s; loading := loading s;
         error := error s |}
  | setGeneratedSentences v =>
      {| newMyanmarWord := newMyanmarWord s; words := words s; searchTerm := searchTerm s;
         generatedSentences := v; loading := loading s; error := error s |}
  | setLoading v =>
      {| newMyanmarWord := newMyanmarWord s; words := words s; searchTerm := searchTerm s;
         generatedSentences := generatedSentences s; loading := v; error := error s |}
  | setError v =>
      {| newMyanmarWord := newMyanmarWord s; words := words s; searchTerm := searchTerm s;
         generatedSentences := generatedSentences s; loading := loading s;
         error := v |}
  end.

(** The state after the setter calls of a handler, in call order. *)
Definition apply_setters (calls : list setter) (s : AppState) : AppState :=
  fold_left apply_setter calls s.

(** [ai]: the client exists exactly when [GEMINI_API_KEY] is truthy
    (lines 19-26). *)
Definition ai_configured (GEMINI_API_KEY : option jsstring) : bool :=
  match GEMINI_API_KEY with
  | Some key => truthy key
  | None => false
  end.

(** A value thrown by [ai.models.generateContent], as the [catch] block of
    [handleSaveWord] tells them apart. *)
Inductive thrown : Type :=
  | Thrown_Error (message : jsstring)
      (** [err instanceof Error] *)
  | Thrown_response (message : jsstring)
      (** another object, with [err.response.data.error.message] *)
  | Thrown_other.

(** How the awaited call ends: rejected, or resolved with a response whose
    [text] may be [undefined]. *)
Inductive ai_result : Type :=
  | Rejected (err : thrown)
  | Resolved (text : option jsstring).

(** A request sent to the AI: the prompt, and whether the structured (JSON)
    response shape is asked for. *)
Record request : Type := {
  prompt : jsstring;
  json_schema : bool
}.

(** What a handler has done when it first gives control back: the setter
    calls made so far, and the request it awaits, if any. *)
Record started : Type := {
  calls : list setter;
  awaits : option request
}.

Definition quote_mark : jsstring := [34%N].

Definition missing_key_message : jsstring :=
  js "API Key is missing. Please configure GEMINI_API_KEY.".

Definition two_words_message : jsstring :=
  js "Please add at least two words to generate a sentence.".

Definition save_failed_message : jsstring :=
  js "Failed to save word. Please try again.".

Definition generate_failed_message : jsstring :=
  js "Failed to generate sentence. Please try again.".

(** *** handleSaveWord (lines 57-114) *)

Definition translate_prompt (word : jsstring) : jsstring :=
  js "Translate the Myanmar word/phrase " ++ quote_mark ++ word ++ quote_mark
  ++ js " to Indonesian and detect its word type (Noun, Verb, Adjective, or Slang). Provide the output in JSON format with 'indonesianTranslation' and 'wordType' fields.".

(** Up to the [await] (lines 58-89), in the render whose state is [r]. *)
Definition handleSaveWord_begin (ai : bool) (r : AppState) : started :=
  if negb (truthy (trim (newMyanmarWord r))) then
    {| calls := []; awaits := None |}
  else if negb ai then
    {| calls := [setLoading true; setError None;
                 setError (Some missing_key_message); setLoading false];
       awaits := None |}
  else
    {| calls := [setLoading true; setError None];
       awaits := Some {| prompt := translate_prompt (newMyanmarWord r);
                         json_schema := true |} |}.

(** [const { indonesianTranslation, wordType } = jsonResponse] (line 92):
    the two values as they are, [undefined] for a property that is not
    there; [None] is the TypeError on [null]. *)
Definition destructure (jsonResponse : json) : option (json * json) :=
  match field jsonResponse (js "indonesianTranslation"),
        field jsonResponse (js "wordType") with
  | Some indonesianTranslation, Some wordType =>
      Some (indonesianTranslation, wordType)
  | _, _ => None
  end.

(** The [catch] block (lines 102-110). *)
Definition saveWord_errorMessage (err : thrown) : jsstring :=
  match err with
  | Thrown_Error message => message
  | Thrown_response message => message
  | Thrown_other => save_failed_message
  end.

Definition saveWord_catch (err : thrown) : list setter :=
  [setError (Some (saveWord_errorMessage err)); setLoading false].

(** After the [await] (lines 91-113): [r] is still the state of the render
    the handler was started in, [now] the reading of [Date.now()].  Nothing
    checks what the response holds: the record is built from the two
    destructured values as they are. *)
Definition handleSaveWord_resume `{Engine} (r : AppState) (now : Z)
    (result : ai_result) : list setter :=
  match result with
  | Rejected err => saveWord_catch err
  | Resolved text =>
      match JSON_parse (text_argument text) with
      | None =>
          saveWord_catch (Thrown_Error (SyntaxError_message (text_argument text)))
      | Some jsonResponse =>
          match destructure jsonResponse with
          | None => saveWord_catch (Thrown_Error TypeError_message)
          | Some (indonesianTranslation, wordType) =>
              let newWord :=
                Word.literal (Number_toString now) (newMyanmarWord r)
                  indonesianTranslation wordType in
              match spread (words r) with
              | Some ws =>
                  [setWords (JArr (newWord :: ws)); setNewMyanmarWord [];
                   setLoading false]
              | None => saveWord_catch (Thrown_Error NotIterable_message)
              end
          end
      end
  end.

(** One whole invocation, from the click to the [finally] block. *)
Definition handleSaveWord `{Engine} (ai : bool) (r : AppState) (now : Z)
    (result : ai_result) : list setter :=
  let b := handleSaveWord_begin ai r in
  match awaits b with
  | None => calls b
  | Some _ => calls b ++ handleSaveWord_resume r now result
  end.

(** *** handleDeleteWord (lines 116-118) *)

(** [collection.filter((record) => record.id !== id)]: the array of the
    records kept, or [None] when it throws (the collection has no [filter]
    method, or an element has no properties).  [from] is the place in the
    collection of the record the argument was read from; it matters only
    when the argument is an object (see [strict_unequal]). *)
Definition without_id `{Engine} (collection : json) (id : json) (from : nat)
  : option json :=
  match collection with
  | JArr records =>
      match
        filter_from 0
          (fun i record =>
             match field record (js "id") with
             | Some record_id => Some (strict_unequal record_id id (i =? from)%nat)
             | None => None
             end)
          records
      with
      | Some kept => Some (JArr kept)
      | None => None
      end
  | _ => None
  end.

(** TypeScript types the parameter as a string; the buttons pass the [id]
    of their record, whatever it holds (line 266).  An exception leaves the
    handler without a setter call. *)
Definition handleDeleteWord `{Engine} (r : AppState) (id : json) (from : nat)
  : list setter :=
  match without_id (words r) id from with
  | Some kept => [setWords kept]
  | None => []
  end.

(** *** filteredWords (lines 120-124) *)

(** [text.toLowerCase().includes(searchTerm.toLowerCase())]: a TypeError
    unless [text] is a string, no other value having a [toLowerCase]
    method. *)
Definition lower_includes `{Engine} (text : json) (searchTerm : jsstring)
  : option bool :=
  match text with
  | JStr s => Some (includes (toLowerCase s) (toLowerCase searchTerm))
  | _ => None
  end.

(** The test of the filter, for the search term of the render; the right
    operand of [||] is evaluated only when the left one is false. *)
Definition matches_search `{Engine} (searchTerm : jsstring) (word : json)
  : option bool :=
  match field word (js "myanmar") with
  | Some myanmar =>
      match lower_includes myanmar searchTerm with
      | Some true => Some true
      | Some false =>
          match field word (js "indonesian") with
          | Some indonesian => lower_includes indonesian searchTerm
          | None => None
          end
      | None => None
      end
  | None => None
  end.

(** Computed in every render from the [words] and [searchTerm] of its
    state; [None] when it throws. *)
Definition filteredWords `{Engine} (r : AppState) : option (list json) :=
  match words r with
  | JArr ws => filter_from 0 (fun _ word => matches_search (searchTerm r) word) ws
  | _ => None
  end.

(** *** handleGenerateSentence (lines 126-169) *)

Definition sentence_prompt (indonesianSelectedWords : jsstring) : jsstring :=
  js "Strictly adhering only to the following words: " ++ quote_mark
  ++ indonesianSelectedWords ++ quote_mark
  ++ js ", construct a grammatically correct sentence or question or phrase or clause or slang of Indonesian language, without adding any other words. Output: Line 1: Myanmar Translation of the sentence. Line 2: Indonesian Sentence.".

Definition generateSentence_catch : list setter :=
  [setError (Some generate_failed_message); setLoading false].

(** [shuffled.slice(0, Math.min(shuffled.length, 4))] (line 142) *)
Definition selectedWords (shuffled : list json) : list json :=
  firstn (Nat.min (length shuffled) 4) shuffled.

(** [selectedWords.map((w) => w.name).join(", ")] (lines 144-145); [None]
    when it throws. *)
Definition joined `{Engine} (name : jsstring) (selected : list json)
  : option jsstring :=
  match mapM (fun w => field w name) selected with
  | Some values => join_values (js ", ") values
  | None => None
  end.

(** Up to the [await] (lines 127-152).  [shuffled] is the order in which
    [[...words].sort(() => 0.5 - Math.random())] leaves the words.  The
    length test is outside the [try] block: when it throws, no setter has
    been called.  From line 137 on an exception is caught. *)
Definition handleGenerateSentence_begin `{Engine} (ai : bool) (shuffled : list json)
    (r : AppState) : started :=
  if negb ai then
    {| calls := [setError (Some missing_key_message); setLoading false];
       awaits := None |}
  else
    match length_below_two (words r) with
    | None => {| calls := []; awaits := None |}
    | Some true =>
        {| calls := [setError (Some two_words_message)]; awaits := None |}
    | Some false =>
        match spread (words r),
              joined (js "myanmar") (selectedWords shuffled),
              joined (js "indonesian") (selectedWords shuffled) with
        | Some _, Some _, Some indonesianSelectedWords =>
            {| calls := [setLoading true; setError None];
               awaits := Some {| prompt := sentence_prompt indonesianSelectedWords;
                                 json_schema := false |} |}
        | _, _, _ =>
            {| calls := [setLoading true; setError None] ++ generateSentence_catch;
               awaits := None |}
        end
    end.

(** After the [await] (lines 154-168). *)
Definition handleGenerateSentence_resume (r : AppState) (now : Z)
    (result : ai_result) : list setter :=
  match result with
  | Rejected _ => generateSentence_catch
  | Resolved None => generateSentence_catch  (* TypeError: [undefined.split] *)
  | Resolved (Some generatedText) =>
      let lines := List.map trim (split 10 generatedText) in
      let newSentence :=
        Sentence.literal (Number_toString now)
          (or_empty (lines !! 0%nat)) (or_empty (lines !! 1%nat)) in
      match spread (generatedSentences r) with
      | Some ss => [setGeneratedSentences (JArr (newSentence :: ss)); setLoading false]
      | None => generateSentence_catch  (* TypeError: not iterable *)
      end
  end.

Definition handleGenerateSentence `{Engine} (ai : bool) (shuffled : list json)
    (r : AppState) (now : Z) (result : ai_result) : list setter :=
  let b := handleGenerateSentence_begin ai shuffled r in
  match awaits b with
  | None => calls b
  | Some _ => calls b ++ handleGenerateSentence_resume r now result
  end.

(** *** handleDeleteSentence (lines 171-173) *)

Definition handleDeleteSentence `{Engine} (r : AppState) (id : json) (from : nat)
  : list setter :=
  match without_id (generatedSentences r) id from with
  | Some kept => [setGeneratedSentences kept]
  | None => []
  end.

(** *** The returned element (lines 185-335) *)

(** [{error && (<div>{error}</div>)}] (lines 193-197): nothing for [null]
    and nothing for the empty string. *)
Definition error_banner (error : option jsstring) : option jsstring :=
  match error with
  | Some message => if truthy message then Some message else None
  | None => None
  end.

(** What React accepts as a child: it throws on an object that is not an
    array, and takes the elements of an array as children. *)
Fixpoint valid_child (v : json) : bool :=
  match v with
  | JObj _ => false
  | JArr items =>
      (fix all (l : list json) : bool :=
         match l with
         | [] => true
         | x :: rest => valid_child x && all rest
         end) items
  | _ => true
  end.

Definition has_text `{Engine} (v : json) : bool :=
  match ToString v with Some _ => true | None => false end.

(** The row of a word (lines 244-271): [word.id] is put into two template
    literals and is the key; [word.myanmar], [word.indonesian] and
    [word.type] are children. *)
Definition word_row_renders `{Engine} (word : json) : bool :=
  match field word (js "id"), field word (js "myanmar"),
        field word (js "indonesian"), field word (js "type") with
  | Some id, Some myanmar, Some indonesian, Some type =>
      has_text id && valid_child myanmar && valid_child indonesian
      && valid_child type
  | _, _, _, _ => false
  end.

(** The row of a sentence (lines 295-324): [sentence.id] and
    [sentence.indonesian] are put into template literals, [sentence.myanmar]
    is a child. *)
Definition sentence_row_renders `{Engine} (sentence : json) : bool :=
  match field sentence (js "id"), field sentence (js "myanmar"),
        field sentence (js "indonesian") with
  | Some id, Some myanmar, Some indonesian =>
      has_text id && valid_child myanmar && has_text indonesian
  | _, _, _ => false
  end.

(** [generatedSentences.length === 0 ? ... : generatedSentences.map(...)]
    (lines 291-326): the records shown, [None] when it throws; only an array
    has a [map] method. *)
Definition sentence_rows `{Engine} (generatedSentences : json) : option (list json) :=
  match length_is_zero generatedSentences with
  | Some true => Some []
  | Some false =>
      match generatedSentences with
      | JArr ss => if forallb sentence_row_renders ss then Some ss else None
      | _ => None
      end
  | None => None
  end.

(** One render: what is shown, or [None] when the render throws, in the
    component or in React. *)
Definition render `{Engine} (s : AppState) : option View.t :=
  match filteredWords s, words s, sentence_rows (generatedSentences s) with
  | Some rows, JArr ws, Some sentences =>
      if forallb word_row_renders rows then
        Some {| View.banner := error_banner (error s);
                View.word_input_disabled := loading s;
                View.save_disabled := loading s;
                View.processing := loading s;
                View.word_rows := rows;
                View.no_words := (length rows =? 0)%nat;
                View.create_disabled := loading s || (length ws <? 2)%nat;
                View.sentence_rows := sentences;
                View.no_sentences := (length sentences =? 0)%nat |}
      else None
  | _, _, _ => None
  end.

Definition renders `{Engine} (s : AppState) : bool :=
  match render s with Some _ => true | None => false end.

(** *** Persistence (lines 36-55) *)

Definition words_key : jsstring := js "words".
Definition sentences_key : jsstring := js "sentences".

(** What reading one entry at startup comes to. *)
Inductive stored : Type :=
  | Absent               (** no entry, or an empty one: the state is left alone *)
  | Stored (v : json)    (** parsed; the setter is called with the value *)
  | Malformed.           (** [JSON.parse] throws *)

Definition read_entry (item : option jsstring) : stored :=
  match item with
  | None => Absent
  | Some text =>
      if truthy text then
        match JSON_parse text with
        | None => Malformed
        | Some v => Stored v
        end
      else Absent
  end.

(** Browser and component together: the state of the latest render and the
    contents of [localStorage]. *)
Record World : Type := {
  state : AppState;
  localStorage : gmap jsstring jsstring
}.

(** The load effect (lines 37-46): the setter calls it makes, each with
    the value [JSON.parse] returned; [None] when [JSON.parse] throws. *)
Definition loadEffect (storage : gmap jsstring jsstring) : option (list setter) :=
  match read_entry (storage !! words_key) with
  | Malformed => None
  | storedWords =>
      match read_entry (storage !! sentences_key) with
      | Malformed => None
      | storedSentences =>
          Some (match storedWords with Stored v => [setWords v] | _ => [] end
                ++ match storedSentences with
                   | Stored v => [setGeneratedSentences v]
                   | _ => []
                   end)
      end
  end.

(** The save effects (lines 49-55), each run after a render in which its
    collection is a new value. *)
Definition saveWordsEffect `{Engine} (s : AppState) (storage : gmap jsstring jsstring)
  : gmap jsstring jsstring :=
  <[words_key := JSON_stringify (words s)]> storage.

Definition saveSentencesEffect `{Engine} (s : AppState)
    (storage : gmap jsstring jsstring) : gmap jsstring jsstring :=
  <[sentences_key := JSON_stringify (generatedSentences s)]> storage.

(** Every call of [setWords] in the component passes a newly built value,
    so the dependency [[words]] differs after a batch exactly when the batch
    calls [setWords]; likewise for the sentences. *)
Definition mutates_words (calls : list setter) : bool :=
  existsb (fun c => match c with setWords _ => true | _ => false end) calls.

Definition mutates_sentences (calls : list setter) : bool :=
  existsb (fun c => match c with setGeneratedSentences _ => true | _ => false end) calls.

(** A batch of setter calls, the render that follows, and its effects.
    When that render throws, React unmounts the component: its effects do
    not run, and from then on setter calls are ignored.  A component is
    unmounted exactly when the state it was left in does not render. *)
Definition commit `{Engine} (calls : list setter) (w : World) : World :=
  if renders (state w) then
    let s := apply_setters calls (state w) in
    if renders s then
      let storage1 :=
        if mutates_words calls then saveWordsEffect s (localStorage w)
        else localStorage w in
      let storage2 :=
        if mutates_sentences calls then saveSentencesEffect s storage1
        else storage1 in
      {| state := s; localStorage := storage2 |}
    else {| state := s; localStorage := localStorage w |}
  else w.

(** Mounting the component on a given [localStorage]: the first render has
    the initial state; its effects run in order (load, save words, save
    sentences), the save effects seeing the empty collections of that
    render; the setter calls of the load effect are then committed.
    [None]: the load effect threw. *)
Definition mount `{Engine} (storage : gmap jsstring jsstring) : option World :=
  match loadEffect storage with
  | Some calls =>
      Some (commit calls
              {| state := initialState;
                 localStorage :=
                   saveSentencesEffect initialState
                     (saveWordsEffect initialState storage) |})
  | None => None
  end.

(** The worlds that have come about since the component was mounted: every
    later render follows a batch of setter calls. *)
Inductive reachable `{Engine} : World -> Prop :=
  | reach_mount storage w : mount storage = Some w -> reachable w
  | reach_commit calls w : reachable w -> reachable (commit calls w).

End App.
Export App.

(** ** Vocabulary of the specification *)

Module Spec.

(** Two strings are equal when case is ignored. *)
Definition ci_equal `{Engine} (a b : jsstring) : Prop :=
  toLowerCase a = toLowerCase b.

(** [term] is a case-insensitive substring of [text]: some part of [text]
    equals [term] when case is ignored. *)
Definition ci_substring `{Engine} (term text : jsstring) : Prop :=
  exists pre part suf, text = pre ++ part ++ suf /\ ci_equal part term.

(** The lower-cased [term] occurs in the lower-cased [text]. *)
Definition lowered_substring `{Engine} (term text : jsstring) : Prop :=
  exists pre suf, toLowerCase text = pre ++ toLowerCase term ++ suf.

(** The case mapping of the engine works code unit by code unit. *)
Definition unit_by_unit `{Engine} : Prop :=
  exists f : N -> N, forall s, toLowerCase s = List.map f s.

(** The property [name] of [record] holds a string, and that string
    satisfies [P]. *)
Definition text_field (record : json) (name : jsstring) (P : jsstring -> Prop)
  : Prop :=
  exists text, field record name = Some (JStr text) /\ P text.

(** A record that [filteredWords] can test for every search term: its
    [myanmar] and its [indonesian] hold strings. *)
Definition searchable (word : json) : Prop :=
  text_field word (js "myanmar") (fun _ => True)
  /\ text_field word (js "indonesian") (fun _ => True).

(** [out] consists of exactly those elements of [l] that satisfy [P], each
    as often as it occurs in [l] and in the order of [l]. *)
Inductive exactly_those {A : Type} (P : A -> Prop) : list A -> list A -> Prop :=
  | those_nil : exactly_those P [] []
  | those_keep x l out :
      P x -> exactly_those P l out -> exactly_those P (x :: l) (x :: out)
  | those_drop x l out :
      ~ P x -> exactly_those P l out -> exactly_those P (x :: l) out.

(** Deleting [id] takes exactly one record away when a record with that id
    is present and none when it is absent; the rest stays in order. *)
Definition removes_exactly_one {A K : Type} (key : A -> K) (id : K)
    (before after : list A) : Prop :=
  (In id (List.map key before) ->
     exists l1 x l2, before = l1 ++ x :: l2 /\ key x = id /\ after = l1 ++ l2)
  /\ (~ In id (List.map key before) -> after = before).

(** The string that the property [name] of [record] holds; empty when it
    holds none. *)
Definition text_of (name : jsstring) (record : json) : jsstring :=
  match field record name with
  | Some (JStr text) => text
  | _ => []
  end.

(** The [id] of a record; [None] when the value has no properties. *)
Definition id_of (record : json) : option json := field record (js "id").

(** The value has properties: it is neither [undefined] nor [null]. *)
Definition has_properties (v : json) : bool :=
  match v with
  | JUndefined | JNull => false
  | _ => true
  end.

(** The [id] of the record is not the string [id]. *)
Definition differs_from (id : jsstring) (record : json) : bool :=
  match field record (js "id") with
  | Some (JStr x) => negb (strict_equal x id)
  | _ => true
  end.

(** The filter of [filteredWords] keeps the word. *)
Definition finds `{Engine} (term : jsstring) (word : json) : bool :=
  match matches_search term word with
  | Some true => true
  | _ => false
  end.

(** [localStorage] holds the serialized form of both collections of the
    latest render. *)
Definition in_sync `{Engine} (w : World) : Prop :=
  localStorage w !! words_key = Some (JSON_stringify (words (state w)))
  /\ localStorage w !! sentences_key
     = Some (JSON_stringify (generatedSentences (state w))).

(** The text consists of white space only (possibly of nothing). *)
Definition blank (s : jsstring) : Prop := Forall (fun c => isWhiteSpace c = true) s.

(** The text is the decimal text of a clock reading other than [now]. *)
Definition made_at_another_time (now : Z) (id : option json) : Prop :=
  exists reading, reading <> now /\ id = Some (JStr (Number_toString reading)).

End Spec.
Export Spec.

(** ** An engine with the final sigma *)

(** [toLowerCase] maps GREEK CAPITAL LETTER SIGMA to the final form when it
    ends a word (Unicode SpecialCasing, Final_Sigma: a cased letter before
    it and none after it) and to the plain small letter otherwise.  Here
    the Basic Latin letters and the sigmas are the cased letters. *)
Module FinalSigma.

Definition cased (c : N) : bool :=
  ((65 <=? c) && (c <=? 90) || (97 <=? c) && (c <=? 122)
   || (c =? 931) || (c =? 962) || (c =? 963))%N.

Fixpoint lower_after (before : bool) (s : jsstring) : jsstring :=
  match s with
  | [] => []
  | c :: rest =>
      (if (c =? 931)%N then
         if before && negb (match rest with d :: _ => cased d | [] => false end)
         then 962%N else 963%N
       else BasicLatin.lower_unit c)
      :: lower_after (cased c) rest
  end.

Definition lower (s : jsstring) : jsstring := lower_after false s.

#[export] Instance engine : Engine := {|
  toLowerCase := lower;
  toLowerCase_empty := eq_refl;
  SyntaxError_message := SyntaxError_message (Engine := BasicLatin.engine);
  TypeError_message := TypeError_message (Engine := BasicLatin.engine);
  NotIterable_message := NotIterable_message (Engine := BasicLatin.engine);
  Number_text := Number_text (Engine := BasicLatin.engine);
  Number_isFinite := Number_isFinite (Engine := BasicLatin.engine);
  Number_equal := Number_equal (Engine := BasicLatin.engine);
  Number_lessThan := Number_lessThan (Engine := BasicLatin.engine);
  StringToNumber_lessThan := StringToNumber_lessThan (Engine := BasicLatin.engine)
|}.

End FinalSigma.

(** ** Sample data *)

Module Sample.

(** The Myanmar texts of the examples, as code units. *)
Definition sa : jsstring := [4101; 4140; 4152]%N.
Definition thauk : jsstring := [4126; 4145; 4140; 4096; 4154]%N.
Definition mingalaba : jsstring :=
  [4121; 4100; 4154; 4153; 4098; 4124; 4140; 4117; 4139]%N.

Definition makan : Word.t := {|
  Word.id := js "1700000000000";
  Word.myanmar := sa;
  Word.indonesian := js "makan";
  Word.type := js "Verb"
|}.

Definition minum : Word.t := {|
  Word.id := js "1700000000555";
  Word.myanmar := thauk;
  Word.indonesian := js "minum";
  Word.type := js "Verb"
|}.

(** A second record that carries the id of [makan]. *)
Definition minum_same_id : Word.t := {|
  Word.id := js "1700000000000";
  Word.myanmar := thauk;
  Word.indonesian := js "minum";
  Word.type := js "Verb"
|}.

Definition greeting : Sentence.t := {|
  Sentence.id := js "1700000000999";
  Sentence.myanmar := mingalaba;
  Sentence.indonesian := js "Selamat pagi"
|}.

(** The user has typed a word; nothing is stored yet. *)
Definition typed : AppState := apply_setter initialState (setNewMyanmarWord sa).

(** Two words and one sentence are stored. *)
Definition stocked : AppState :=
  apply_setters
    [setWords (Word.array [minum; makan]);
     setGeneratedSentences (Sentence.array [greeting]);
     setNewMyanmarWord sa]
    initialState.

(** The translate response of the specification's example. *)
Definition translate_response : jsstring :=
  SerializeJSONObject
    [(js "indonesianTranslation", js "makan"); (js "wordType", js "Verb")].

(** A translate response for [thauk]. *)
Definition minum_response : jsstring :=
  SerializeJSONObject
    [(js "indonesianTranslation", js "minum"); (js "wordType", js "Verb")].

(** A translate response that lacks the word type. *)
Definition untyped_response : jsstring :=
  SerializeJSONObject [(js "indonesianTranslation", js "makan")].

(** The record that comes of it. *)
Definition makan_untyped : json :=
  Word.literal (js "1700000000000") sa (JStr (js "makan")) JUndefined.



(** The sentence response of the specification's example. *)
Definition sentence_response : jsstring := mingalaba ++ [10%N] ++ js "Selamat pagi".

(** A sentence response whose first line starts with a space. *)
Definition padded_response : jsstring := js " a" ++ [10%N] ++ js "b".

(** The browser after a first visit: nothing was stored, the component has
    mounted. *)
Definition first_visit : World := {|
  state := initialState;
  localStorage := <[sentences_key := js "[]"]> (<[words_key := js "[]"]> ∅)
|}.

(** One word is stored and the next one is typed. *)
Definition second_word_typed `{Engine} : World :=
  commit [setWords (Word.array [makan]); setNewMyanmarWord thauk] first_visit.



End Sample.

(** ** The controls (lines 175-183 and the event handlers of the element) *)

Module Controls.

(** What [speakText] does: an utterance handed to the speech engine, or an
    alert. *)
Inductive speech : Type :=
  | Utterance (text lang : jsstring)
  | Alert (message : jsstring).

(** The text of [new SpeechSynthesisUtterance(text)]: the argument is
    optional, so [undefined] stands for no argument and gives the empty
    text; any other value is converted to a string. *)
Definition utterance_text `{Engine} (text : json) : option jsstring :=
  match text with
  | JUndefined => Some []
  | _ => ToString text
  end.

(** [speakText] (lines 175-183); [speechSynthesis] tells whether
    ['speechSynthesis' in window].  [None]: the conversion of the argument
    throws. *)
Definition speakText `{Engine} (speechSynthesis : bool) (text : json)
  : option speech :=
  if speechSynthesis then
    match utterance_text text with
    | Some t => Some (Utterance t (js "id-ID"))
    | None => None
    end
  else Some (Alert (js "Text-to-speech not supported in your browser.")).

(** The two handlers that await the AI. *)
Inductive handler : Type := SaveWord | GenerateSentence.

(** A visit of the page: browser and component, the requests sent and not
    yet answered (each with the state of the render its handler runs in),
    and what [speakText] has done so far, latest first. *)
Record Session : Type := {
  world : World;
  inflight : list (handler * AppState);
  heard : list speech
}.

(** What the user and the AI can do.  Rows are counted from 0 as rendered.
    [shuffled] is the order in which the sort of line 141 leaves the
    words. *)
Inductive action : Type :=
  | TypeWord (value : jsstring)
  | TypeSearch (value : jsstring)
  | ClickSave
  | ClickCreateSentence (shuffled : list json)
  | ClickDeleteWord (row : nat)
  | ClickSpeakWord (row : nat)
  | ClickDeleteSentence (row : nat)
  | ClickSpeakSentence (row : nat)
  | Respond (request : nat) (now : Z) (result : ai_result).

(** The session after a batch of setter calls. *)
Definition committed `{Engine} (batch : list setter) (x : Session) : Session :=
  {| world := commit batch (world x); inflight := inflight x; heard := heard x |}.

(** The session after a handler has run up to its [await]. *)
Definition begun `{Engine} (h : handler) (b : started) (x : Session) : Session :=
  {| world := commit (calls b) (world x);
     inflight :=
       match awaits b with
       | Some _ => inflight x ++ [(h, state (world x))]
       | None => inflight x
       end;
     heard := heard x |}.

(** The session after [speakText] has been called with a value. *)
Definition spoken `{Engine} (speechSynthesis : bool) (text : json) (x : Session)
  : Session :=
  match speakText speechSynthesis text with
  | Some said => {| world := world x; inflight := inflight x; heard := said :: heard x |}
  | None => x
  end.

(** The places in [words] of the records that [filteredWords] keeps, in
    order: the place of the record of each row. *)
Fixpoint kept_places {A : Type} (i : nat) (keep : A -> option bool) (l : list A)
  : list nat :=
  match l with
  | [] => []
  | x :: rest =>
      match keep x with
      | Some true => i :: kept_places (S i) keep rest
      | _ => kept_places (S i) keep rest
      end
  end.

Definition word_places `{Engine} (s : AppState) : list nat :=
  match words s with
  | JArr ws => kept_places 0 (matches_search (searchTerm s)) ws
  | _ => []
  end.

(** What the continuation of a handler does when the response arrives. *)
Definition resume `{Engine} (h : handler) (r : AppState) (now : Z)
    (result : ai_result) : list setter :=
  match h with
  | SaveWord => handleSaveWord_resume r now result
  | GenerateSentence => handleGenerateSentence_resume r now result
  end.

(** One action.  [None]: the action cannot take place: there is no such
    request, or the control is not there (the component is unmounted, there
    is no such row) or is disabled and raises no event (lines 210, 216,
    284).  The delete and speak buttons of a row call the handler with the
    [id], respectively the [indonesian], of the record of that row (lines
    256, 266, 306, 315).  A response is delivered to the continuation of
    its handler whatever has happened to the component since. *)
Definition act `{Engine} (ai speechSynthesis : bool) (a : action) (x : Session)
  : option Session :=
  let s := state (world x) in
  match a with
  | Respond request now result =>
      match inflight x !! request with
      | Some (h, r) =>
          Some {| world := commit (resume h r now result) (world x);
                  inflight := delete request (inflight x);
                  heard := heard x |}
      | None => None
      end
  | _ =>
      match render s with
      | None => None
      | Some view =>
          match a with
          | TypeWord value =>
              if View.word_input_disabled view then None
              else Some (committed [setNewMyanmarWord value] x)
          | TypeSearch value => Some (committed [setSearchTerm value] x)
          | ClickSave =>
              if View.save_disabled view then None
              else Some (begun SaveWord (handleSaveWord_begin ai s) x)
          | ClickCreateSentence shuffled =>
              if View.create_disabled view then None
              else Some (begun GenerateSentence
                           (handleGenerateSentence_begin ai shuffled s) x)
          | ClickDeleteWord row =>
              match View.word_rows view !! row, word_places s !! row with
              | Some word, Some place =>
                  match field word (js "id") with
                  | Some id => Some (committed (handleDeleteWord s id place) x)
                  | None => Some x
                  end
              | _, _ => None
              end
          | ClickSpeakWord row =>
              match View.word_rows view !! row with
              | Some word =>
                  match field word (js "indonesian") with
                  | Some text => Some (spoken speechSynthesis text x)
                  | None => Some x
                  end
              | None => None
              end
          | ClickDeleteSentence row =>
              match View.sentence_rows view !! row with
              | Some sentence =>
                  match field sentence (js "id") with
                  | Some id => Some (committed (handleDeleteSentence s id row) x)
                  | None => Some x
                  end
              | None => None
              end
          | ClickSpeakSentence row =>
              match View.sentence_rows view !! row with
              | Some sentence =>
                  match field sentence (js "indonesian") with
                  | Some text => Some (spoken speechSynthesis text x)
                  | None => Some x
                  end
              | None => None
              end
          | Respond _ _ _ => None
          end
      end
  end.

(** The session right after the component has mounted. *)
Definition opened (w : World) : Session :=
  {| world := w; inflight := []; heard := [] |}.

(** The sessions a visit can be in. *)
Inductive visited `{Engine} (ai speechSynthesis : bool) : Session -> Prop :=
  | visited_mount storage w :
      mount storage = Some w -> visited ai speechSynthesis (opened w)
  | visited_act a x x' :
      visited ai speechSynthesis x ->
      act ai speechSynthesis a x = Some x' ->
      visited ai speechSynthesis x'.


(** What holds of a session at every moment of a visit (see
    [visited_invariant]): at most one request is in flight, and while the
    component is mounted the busy flag is on exactly then; while a
    translation is awaited by a mounted component the input field still
    holds the text that was sent, which is not blank; a sentence request
    comes from a render whose words are an array of two or more; every
    utterance is marked [id-ID], and an alert is raised only without speech
    support; and the world has come about by batches since a mount. *)
Record session_invariant `{Engine} (speechSynthesis : bool) (x : Session) : Prop := {
  inv_one : (length (inflight x) <= 1)%nat;
  inv_busy :
    renders (state (world x)) = true ->
    (loading (state (world x)) = true <-> inflight x <> []);
  inv_input :
    forall r, In (SaveWord, r) (inflight x) ->
      truthy (trim (newMyanmarWord r)) = true
      /\ (renders (state (world x)) = true ->
          newMyanmarWord (state (world x)) = newMyanmarWord r);
  inv_two_words :
    forall r, In (GenerateSentence, r) (inflight x) ->
      exists ws, words r = JArr ws /\ (2 <= length ws)%nat;
  inv_heard :
    Forall (fun said =>
              match said with
              | Utterance _ lang => lang = js "id-ID" /\ speechSynthesis = true
              | Alert _ => speechSynthesis = false
              end) (heard x);
  inv_reachable : reachable (world x)
}.

End Controls.
Export Controls.

(** ** A sample visit *)

Module Scenario.

(** The sample visit takes place in an engine whose case mapping covers
    Basic Latin. *)
#[local] Existing Instance BasicLatin.engine.

(** A first visit; a word is typed; Save is clicked and the translation is
    awaited. *)
Definition start : Session := opened Sample.first_visit.

Definition typed_in : Session :=
  committed [setNewMyanmarWord Sample.sa] start.

Definition waiting : Session :=
  begun SaveWord (handleSaveWord_begin true (state (world typed_in))) typed_in.

(** A later visit: two words were stored. *)
Definition stored : gmap jsstring jsstring :=
  <[words_key := JSON_stringify (Word.array [Sample.minum; Sample.makan])]> ∅.

Definition returned : Session :=
  opened
    (commit [setWords (Word.array [Sample.minum; Sample.makan])]
       {| state := initialState;
          localStorage :=
            saveSentencesEffect initialState (saveWordsEffect initialState stored) |}).

(** On that visit a word is typed and Save is clicked. *)
Definition retyped : Session :=
  committed [setNewMyanmarWord Sample.sa] returned.

Definition asking : Session :=
  begun SaveWord (handleSaveWord_begin true (state (world retyped))) retyped.

(** The speak button of the first row has been clicked. *)
Definition spoke : Session :=
  {| world := world returned; inflight := [];
     heard := [Utterance (js "minum") (js "id-ID")] |}.

End Scenario.
(** * Properties *)

(** ** Strings *)

Section StringFacts.

Implicit Types s p search : jsstring.

Lemma strict_equal_spec (a b : jsstring) : strict_equal a b = true <-> a = b.
Proof.
  revert b; induction a as [|x a IH]; intros [|y b]; simpl; try (split; congruence).
  rewrite andb_true_iff, N.eqb_eq, IH. split.
  - intros [-> ->]; reflexivity.
  - intros [= -> ->]; auto.
Qed.

Lemma strict_equal_refl (a : jsstring) : strict_equal a a = true.
Proof. apply strict_equal_spec; reflexivity. Qed.

Lemma strict_equal_false (a b : jsstring) : strict_equal a b = false <-> a <> b.
Proof.
  rewrite <- strict_equal_spec. destruct (strict_equal a b); split; congruence.
Qed.

Lemma startsWith_spec s p : startsWith s p = true <-> exists suf, s = p ++ suf.
Proof.
  revert s; induction p as [|a p IH]; intros s.
  - split; [intros _; exists s; reflexivity | intros _; destruct s; reflexivity].
  - destruct s as [|b s]; simpl.
    + split; [discriminate | intros [suf Hs]; discriminate].
    + rewrite andb_true_iff, N.eqb_eq, IH. split.
      * intros [-> [suf ->]]. eauto.
      * intros [suf [= -> ->]]. eauto.
Qed.

Lemma startsWith_empty s : startsWith s [] = true.
Proof. destruct s; reflexivity. Qed.

(** [includes] finds exactly the substrings. *)
Lemma includes_spec s search :
  includes s search = true <-> exists pre suf, s = pre ++ search ++ suf.
Proof.
  induction s as [|c s IH]; cbn [includes].
  - rewrite orb_false_r, startsWith_spec. split.
    + intros [suf Hs]. exists [], suf. exact Hs.
    + intros [pre [suf Hs]]. symmetry in Hs.
      apply app_eq_nil in Hs as [-> Hs]. exists suf. symmetry; exact Hs.
  - rewrite orb_true_iff, startsWith_spec, IH. split.
    + intros [[suf Hs] | [pre [suf Hs]]].
      * exists [], suf. exact Hs.
      * exists (c :: pre), suf. simpl. rewrite Hs. reflexivity.
    + intros [[|c' pre] [suf Hs]].
      * left. exists suf. exact Hs.
      * right. injection Hs as -> Hs. eauto.
Qed.

Lemma includes_empty s : includes s [] = true.
Proof. destruct s; simpl; reflexivity. Qed.

Lemma trimStart_all_white s : forallb isWhiteSpace s = true -> trimStart s = [].
Proof.
  induction s as [|c s IH]; simpl; [reflexivity|].
  rewrite andb_true_iff. intros [-> Hs]. auto.
Qed.

Lemma trim_all_white s : forallb isWhiteSpace s = true -> trim s = [].
Proof. intros Hs. unfold trim. rewrite trimStart_all_white by exact Hs. reflexivity. Qed.

(** A piece without the separator is one line. *)
Lemma split_one (sep : N) s : ~ In sep s -> split sep s = [s].
Proof.
  induction s as [|c s IH]; simpl; [reflexivity|].
  intros Hn. destruct (N.eqb_spec c sep) as [->|Hne]; [tauto|].
  rewrite IH by tauto. reflexivity.
Qed.

(** The text up to the first separator is the first piece. *)
Lemma split_first (sep : N) s rest :
  ~ In sep s -> split sep (s ++ sep :: rest) = s :: split sep rest.
Proof.
  induction s as [|c s IH]; simpl.
  - rewrite N.eqb_refl. reflexivity.
  - intros Hn. destruct (N.eqb_spec c sep) as [->|Hne]; [tauto|].
    rewrite IH by tauto. reflexivity.
Qed.

Lemma or_empty_Some s : or_empty (Some s) = s.
Proof. destruct s; reflexivity. Qed.

End StringFacts.

(** ** Selecting from a list *)

Section Selecting.

Context {A : Type}.
Implicit Types (P : A -> Prop) (l out : list A).

Lemma filter_exactly_those (f : A -> bool) P l :
  (forall x, f x = true <-> P x) -> exactly_those P l (List.filter f l).
Proof.
  intros HfP. induction l as [|x l IH]; simpl; [constructor|].
  destruct (f x) eqn:Hfx.
  - apply those_keep; [apply HfP; exact Hfx | exact IH].
  - apply those_drop; [|exact IH]. rewrite <- HfP. congruence.
Qed.

Lemma exactly_those_In P l out :
  exactly_those P l out -> forall x, In x out <-> In x l /\ P x.
Proof.
  induction 1 as [|x l out Hx _ IH|x l out Hx _ IH]; intros y; simpl.
  - tauto.
  - rewrite IH. split; [intros [->|[]]; auto | intros [[->|] ?]; auto].
  - rewrite IH. split; [tauto | intros [[->|] ?]; tauto].
Qed.

(** The elements kept stay in the order they had. *)
Lemma exactly_those_sublist P l out : exactly_those P l out -> sublist out l.
Proof.
  induction 1; [constructor | apply sublist_skip | apply sublist_cons]; assumption.
Qed.

(** The selection is determined by the list and the property. *)
Lemma exactly_those_unique P l out1 out2 :
  exactly_those P l out1 -> exactly_those P l out2 -> out1 = out2.
Proof.
  intros H1; revert out2.
  induction H1 as [|x l out Hx _ IH|x l out Hx _ IH]; intros out2 H2;
    inversion H2; subst; try tauto; auto.
  f_equal. auto.
Qed.

Lemma exactly_those_none P l :
  (forall x, In x l -> P x) -> forall out, exactly_those P l out -> out = l.
Proof.
  intros Hall out Hout. apply (exactly_those_unique P l); [exact Hout|].
  clear out Hout. induction l as [|x l IH]; [constructor|].
  apply those_keep; [apply Hall; left; reflexivity|].
  apply IH. intros y Hy. apply Hall. right; exact Hy.
Qed.

(** With pairwise distinct keys, dropping the elements with one key that
    occurs drops exactly one element. *)
Lemma exactly_those_one {K : Type} (key : A -> K) (k : K) l out :
  (forall x, key x = k \/ key x <> k) ->
  NoDup (List.map key l) -> In k (List.map key l) ->
  exactly_those (fun x => key x <> k) l out ->
  exists l1 x l2, l = l1 ++ x :: l2 /\ key x = k /\ out = l1 ++ l2.
Proof.
  intros Hdec Hnd Hin Hout.
  induction Hout as [|x l out Hx Hout IH|x l out Hx Hout IH].
  - destruct Hin.
  - simpl in Hnd, Hin. apply NoDup_cons in Hnd as [_ Hnd].
    destruct Hin as [Hk|Hin]; [congruence|].
    destruct (IH Hnd Hin) as (l1 & y & l2 & -> & Hy & ->).
    exists (x :: l1), y, l2. auto.
  - simpl in Hnd. apply NoDup_cons in Hnd as [Hnotin Hnd].
    assert (Hk : key x = k) by (destruct (Hdec x); tauto).
    exists [], x, l. split; [reflexivity|]. split; [exact Hk|]. simpl.
    apply (exactly_those_none (fun y => key y <> k) l); [|exact Hout].
    intros y Hy Hyk. apply Hnotin. rewrite Hk, <- Hyk.
    apply list_elem_of_In, in_map, Hy.
Qed.

End Selecting.

(** ** JSON text: reading back what was written *)

Section StringRoundTrip.

Lemma hex_value_digit (d : N) : (d < 16)%N -> hex_value (hex_digit d) = Some d.
Proof.
  intros Hd. unfold hex_value, hex_digit.
  destruct (N.ltb_spec d 10).
  - replace ((48 <=? 48 + d) && (48 + d <=? 57))%N with true.
    + f_equal. lia.
    + symmetry. apply andb_true_iff. split; apply N.leb_le; lia.
  - replace ((48 <=? 87 + d) && (87 + d <=? 57))%N with false.
    + replace ((97 <=? 87 + d) && (87 + d <=? 102))%N with true.
      * f_equal. lia.
      * symmetry. apply andb_true_iff. split; apply N.leb_le; lia.
    + symmetry. apply andb_false_iff. right. apply N.leb_gt. lia.
Qed.

Lemma hex4_escape (c : N) :
  (c < 65536)%N ->
  hex4 (hex_digit ((c / 4096) mod 16)) (hex_digit ((c / 256) mod 16))
       (hex_digit ((c / 16) mod 16)) (hex_digit (c mod 16)) = Some c.
Proof.
  intros Hc. unfold hex4.
  rewrite !hex_value_digit by (apply N.mod_lt; discriminate).
  f_equal.
  pose proof (N.div_mod c 16 ltac:(discriminate)).
  pose proof (N.div_mod (c / 16) 16 ltac:(discriminate)).
  pose proof (N.div_mod (c / 16 / 16) 16 ltac:(discriminate)).
  rewrite !N.Div0.div_div in *.
  change (16 * 16)%N with 256%N in *. change (256 * 16)%N with 4096%N in *.
  assert (c / 4096 < 16)%N by (apply N.Div0.div_lt_upper_bound; lia).
  rewrite (N.mod_small (c / 4096) 16) by assumption.
  lia.
Qed.

Lemma parse_chars_plain (c : N) (t : jsstring) :
  (c =? 34)%N = false -> (c =? 92)%N = false -> (c <? 32)%N = false ->
  parse_chars (c :: t) = more c (parse_chars t).
Proof. intros H1 H2 H3. simpl. rewrite H1, H2, H3. reflexivity. Qed.

Lemma parse_chars_unicode_escape (c : N) (t : jsstring) :
  (c < 65536)%N -> parse_chars (unicode_escape c ++ t) = more c (parse_chars t).
Proof.
  intros Hc. unfold unicode_escape. cbn [app parse_chars N.eqb Pos.eqb].
  rewrite (hex4_escape c Hc). reflexivity.
Qed.

Lemma surrogate_bound (c : N) :
  is_high_surrogate c || is_low_surrogate c = true -> (c < 65536)%N.
Proof.
  unfold is_high_surrogate, is_low_surrogate.
  rewrite orb_true_iff, !andb_true_iff, !N.leb_le. lia.
Qed.

Lemma parse_chars_quote_unit (c : N) (t : jsstring) :
  parse_chars (quote_unit c ++ t) = more c (parse_chars t).
Proof.
  unfold quote_unit.
  repeat (match goal with
          | |- context [(c =? ?k)%N] =>
              destruct (N.eqb_spec c k) as [->|?]; [reflexivity|]
          end).
  destruct ((c <? 32)%N || is_high_surrogate c || is_low_surrogate c) eqn:Hesc.
  - apply parse_chars_unicode_escape.
    rewrite <- orb_assoc in Hesc. apply orb_true_iff in Hesc as [Hlt|Hsur].
    + apply N.ltb_lt in Hlt. lia.
    + apply surrogate_bound, Hsur.
  - apply orb_false_iff in Hesc as [Hesc _]. apply orb_false_iff in Hesc as [Hlt _].
    apply parse_chars_plain; [apply N.eqb_neq; assumption .. | exact Hlt].
Qed.

Lemma surrogate_is_plain (c : N) :
  is_high_surrogate c || is_low_surrogate c = true ->
  (c =? 34)%N = false /\ (c =? 92)%N = false /\ (c <? 32)%N = false.
Proof.
  unfold is_high_surrogate, is_low_surrogate.
  rewrite orb_true_iff, !andb_true_iff, !N.leb_le, !N.eqb_neq, N.ltb_ge. lia.
Qed.

Lemma parse_chars_quote_units_bounded (n : nat) (s rest : jsstring) :
  (length s <= n)%nat ->
  parse_chars (quote_units s ++ 34%N :: rest) = Some (s, rest).
Proof.
  revert s. induction n as [|n IH]; intros s Hn.
  - destruct s; [reflexivity | simpl in Hn; lia].
  - destruct s as [|c r]; [reflexivity|]. simpl in Hn. cbn [quote_units].
    destruct (is_high_surrogate c) eqn:Hhigh.
    + destruct r as [|d r'].
      * rewrite parse_chars_unicode_escape
          by (apply surrogate_bound; rewrite Hhigh; reflexivity).
        reflexivity.
      * destruct (is_low_surrogate d) eqn:Hlow.
        -- destruct (surrogate_is_plain c) as (Hc1 & Hc2 & Hc3);
             [rewrite Hhigh; reflexivity|].
           destruct (surrogate_is_plain d) as (Hd1 & Hd2 & Hd3);
             [rewrite Hlow; apply orb_true_r|].
           cbn [app]. rewrite (parse_chars_plain c _ Hc1 Hc2 Hc3).
           rewrite (parse_chars_plain d _ Hd1 Hd2 Hd3).
           rewrite IH by (simpl in Hn; lia). reflexivity.
        -- rewrite <- app_assoc.
           rewrite parse_chars_unicode_escape
             by (apply surrogate_bound; rewrite Hhigh; reflexivity).
           rewrite IH by lia. reflexivity.
    + rewrite <- app_assoc, parse_chars_quote_unit.
      rewrite IH by lia. reflexivity.
Qed.

(** A string literal written by [QuoteJSONString] reads back as the
    string. *)
Lemma parse_chars_quote (s rest : jsstring) :
  parse_chars (quote_units s ++ 34%N :: rest) = Some (s, rest).
Proof. apply (parse_chars_quote_units_bounded (length s)). lia. Qed.

End StringRoundTrip.

(** ** JSON text: the fuel of the parser *)

Section Fuel.

Ltac head_case H :=
  match type of H with
  | match ?x with _ => _ end = _ => destruct x eqn:?; try discriminate H
  end.

Lemma skip_ws_length (s : jsstring) : (length (skip_ws s) <= length s)%nat.
Proof. induction s as [|c s IH]; simpl; [lia|]. destruct (is_json_ws c); simpl; lia. Qed.

Lemma skip_ws_cons (s : jsstring) (c : N) (r : jsstring) :
  skip_ws s = c :: r -> (S (length r) <= length s)%nat.
Proof. intros E. pose proof (skip_ws_length s) as Hl. rewrite E in Hl. exact Hl. Qed.

Lemma more_shorter (c : N) (tail : option (jsstring * jsstring)) (n : nat)
    (str rest : jsstring) :
  (forall str' rest', tail = Some (str', rest') -> (length rest' < n)%nat) ->
  more c tail = Some (str, rest) -> (length rest < n)%nat.
Proof.
  intros Ht. destruct tail as [[str' rest']|]; simpl; [|discriminate].
  intros [= _ <-]. eapply Ht. reflexivity.
Qed.

Lemma parse_chars_shorter (s str rest : jsstring) :
  parse_chars s = Some (str, rest) -> (length rest < length s)%nat.
Proof.
  remember (length s) as n eqn:Hn. revert s str rest Hn.
  induction n as [n IH] using lt_wf_ind. intros s str rest -> Hp.
  destruct s as [|c r]; [discriminate|]. simpl in Hp.
  destruct (c =? 34)%N; [injection Hp as _ <-; simpl; lia|].
  destruct (c =? 92)%N.
  - destruct r as [|e r1]; [discriminate|].
    destruct (e =? 117)%N.
    + destruct r1 as [|h1 [|h2 [|h3 [|h4 r2]]]]; try discriminate.
      destruct (hex4 h1 h2 h3 h4); [|discriminate].
      eapply more_shorter; [|exact Hp].
      intros str' rest' Hr. simpl.
      pose proof (IH (length r2) ltac:(simpl; lia) r2 str' rest' eq_refl Hr). lia.
    + destruct (unescape e); [|discriminate].
      eapply more_shorter; [|exact Hp].
      intros str' rest' Hr. simpl.
      pose proof (IH (length r1) ltac:(simpl; lia) r1 str' rest' eq_refl Hr). lia.
  - destruct (c <? 32)%N; [discriminate|].
    eapply more_shorter; [|exact Hp].
    intros str' rest' Hr. simpl.
    pose proof (IH (length r) ltac:(simpl; lia) r str' rest' eq_refl Hr). lia.
Qed.

Lemma span_digits_length (s ds rest : jsstring) :
  span_digits s = (ds, rest) -> (length rest <= length s)%nat.
Proof.
  revert ds rest; induction s as [|c s IH]; simpl; intros ds rest.
  - intros [= _ <-]. simpl; lia.
  - destruct (is_digit c).
    + destruct (span_digits s) as [ds' rest'] eqn:E. intros [= _ <-].
      pose proof (IH _ _ eq_refl). lia.
    + intros [= _ <-]. simpl; lia.
Qed.

Lemma digits1_shorter (s ds rest : jsstring) :
  digits1 s = Some (ds, rest) -> (length rest <= length s)%nat.
Proof.
  unfold digits1. destruct (span_digits s) as [[|d ds'] rest'] eqn:E; [discriminate|].
  intros [= _ <-]. exact (span_digits_length _ _ _ E).
Qed.

Lemma lex_int_shorter (s l rest : jsstring) :
  lex_int s = Some (l, rest) -> (length rest < length s)%nat.
Proof.
  destruct s as [|c r]; simpl; [discriminate|].
  destruct (c =? 48)%N; [intros [= _ <-]; lia|].
  destruct (is_digit c); [|discriminate].
  destruct (span_digits r) as [ds rest'] eqn:E. intros [= _ <-].
  pose proof (span_digits_length _ _ _ E). lia.
Qed.

Lemma lex_frac_shorter (s l rest : jsstring) :
  lex_frac s = Some (l, rest) -> (length rest <= length s)%nat.
Proof.
  destruct s as [|c r]; simpl; [intros [= _ <-]; simpl; lia|].
  destruct (c =? 46)%N; [|intros [= _ <-]; simpl; lia].
  destruct (digits1 r) as [[ds rest']|] eqn:E; [|discriminate].
  intros [= _ <-]. pose proof (digits1_shorter _ _ _ E). lia.
Qed.

Lemma lex_exp_shorter (s l rest : jsstring) :
  lex_exp s = Some (l, rest) -> (length rest <= length s)%nat.
Proof.
  destruct s as [|c r]; simpl; [intros [= _ <-]; simpl; lia|].
  destruct ((c =? 101)%N || (c =? 69)%N); [|intros [= _ <-]; simpl; lia].
  destruct r as [|sg r1]; [discriminate|].
  destruct ((sg =? 43)%N || (sg =? 45)%N).
  - destruct (digits1 r1) as [[ds rest']|] eqn:E; [|discriminate].
    intros [= _ <-]. pose proof (digits1_shorter _ _ _ E). simpl. lia.
  - destruct (digits1 (sg :: r1)) as [[ds rest']|] eqn:E; [|discriminate].
    intros [= _ <-]. pose proof (digits1_shorter _ _ _ E). simpl in *. lia.
Qed.

Lemma lex_unsigned_shorter (s l rest : jsstring) :
  lex_unsigned s = Some (l, rest) -> (length rest < length s)%nat.
Proof.
  unfold lex_unsigned.
  destruct (lex_int s) as [[i r1]|] eqn:E1; [|discriminate].
  destruct (lex_frac r1) as [[fr r2]|] eqn:E2; [|discriminate].
  destruct (lex_exp r2) as [[e r3]|] eqn:E3; [|discriminate].
  intros [= _ <-].
  pose proof (lex_int_shorter _ _ _ E1). pose proof (lex_frac_shorter _ _ _ E2).
  pose proof (lex_exp_shorter _ _ _ E3). lia.
Qed.

Lemma lex_number_shorter (s l rest : jsstring) :
  lex_number s = Some (l, rest) -> (length rest < length s)%nat.
Proof.
  destruct s as [|c r]; simpl; [discriminate|].
  destruct (c =? 45)%N.
  - destruct (lex_unsigned r) as [[l' rest']|] eqn:E; [|discriminate].
    intros [= _ <-]. pose proof (lex_unsigned_shorter _ _ _ E). lia.
  - intros E. pose proof (lex_unsigned_shorter _ _ _ E) as Hl. simpl in Hl. lia.
Qed.

Lemma parse_name_shorter (s : jsstring) (v : json) (rest : jsstring) :
  s <> [] -> parse_name s = Some (v, rest) -> (length rest < length s)%nat.
Proof.
  intros Hs. unfold parse_name.
  destruct s as [|c r]; [congruence|].
  repeat match goal with
         | |- context [if ?b then _ else _] => destruct b
         end; try discriminate; intros [= _ <-]; simpl;
    pose proof (length_skipn 3 r); pose proof (length_skipn 4 r); lia.
Qed.

#[local] Arguments lex_number : simpl never.
#[local] Arguments parse_name : simpl never.
#[local] Arguments parse_chars : simpl never.

Lemma parse_fuel_mono (f : nat) :
  (forall s x, parse_value f s = Some x ->
     forall f', (f <= f')%nat -> parse_value f' s = Some x)
  /\ (forall s x, parse_elements f s = Some x ->
        forall f', (f <= f')%nat -> parse_elements f' s = Some x)
  /\ (forall s x, parse_members f s = Some x ->
        forall f', (f <= f')%nat -> parse_members f' s = Some x).
Proof.
  induction f as [|f (IHv & IHe & IHm)]; [repeat split; discriminate|].
  repeat split; intros s x Hx [|f'] Hle; try lia; simpl in Hx |- *;
    repeat head_case Hx;
    repeat match goal with
      | E : parse_value f ?t = Some ?y |- _ =>
          rewrite (IHv t y E f') by lia; clear E
      | E : parse_elements f ?t = Some ?y |- _ =>
          rewrite (IHe t y E f') by lia; clear E
      | E : parse_members f ?t = Some ?y |- _ =>
          rewrite (IHm t y E f') by lia; clear E
      | E : skip_ws ?t = _ |- _ => rewrite E; clear E
      | E : N.eqb _ _ = _ |- _ => rewrite E; clear E
      end;
    try exact Hx.
Qed.

Lemma parse_fuel_enough (f : nat) :
  (forall s v rest, parse_value f s = Some (v, rest) ->
     (length rest < length s)%nat
     /\ parse_value (2 * length s + 1) s = Some (v, rest))
  /\ (forall s vs rest, parse_elements f s = Some (vs, rest) ->
        (length rest < length s)%nat
        /\ parse_elements (2 * length s + 2) s = Some (vs, rest))
  /\ (forall s ms rest, parse_members f s = Some (ms, rest) ->
        (length rest < length s)%nat
        /\ parse_members (2 * length s + 2) s = Some (ms, rest)).
Proof.
  induction f as [|f (IHv & IHe & IHm)]; [repeat split; discriminate|].
  split; [|split]; intros s v rest Hx.
  all: simpl in Hx; repeat head_case Hx.
  all: repeat match goal with
         | E : parse_value _ ?t = Some (_, _) |- _ =>
             apply IHv in E; destruct E as [? ?]
         | E : parse_elements _ ?t = Some (_, _) |- _ =>
             apply IHe in E; destruct E as [? ?]
         | E : parse_members _ ?t = Some (_, _) |- _ =>
             apply IHm in E; destruct E as [? ?]
         | E : skip_ws ?t = _ :: _ |- _ => 
             pose proof (skip_ws_cons _ _ _ E); revert E
         | E : parse_chars _ = Some (_, _) |- _ =>
             pose proof (parse_chars_shorter _ _ _ E); revert E
         | E : lex_number _ = Some (_, _) |- _ =>
             pose proof (lex_number_shorter _ _ _ E); revert E
         | E : parse_name (?c :: ?r) = Some (_, _) |- _ =>
             pose proof (parse_name_shorter (c :: r) _ _ ltac:(discriminate) E);
             revert E
         end; intros.
  all: try (injection Hx as <- <-).
  all: split; [simpl in *; lia|].
  all: lazymatch goal with
       | |- parse_value _ _ = _ =>
           replace (2 * length s + 1)%nat with (S (2 * length s)) by lia
       | |- _ =>
           replace (2 * length s + 2)%nat with (S (2 * length s + 1)) by lia
       end.
  all: simpl.
  all: repeat match goal with
         | E : parse_value ?k ?t = Some ?y |- context [parse_value ?k' ?t] =>
             rewrite (proj1 (parse_fuel_mono k) t y E k') by (simpl in *; lia)
         | E : parse_elements ?k ?t = Some ?y |- context [parse_elements ?k' ?t] =>
             rewrite (proj1 (proj2 (parse_fuel_mono k)) t y E k') by (simpl in *; lia)
         | E : parse_members ?k ?t = Some ?y |- context [parse_members ?k' ?t] =>
             rewrite (proj2 (proj2 (parse_fuel_mono k)) t y E k') by (simpl in *; lia)
         | E : ?x = _ |- context [?x] => rewrite E
         end.
  all: reflexivity.
Qed.

(** The fuel [JSON_parse] gives is enough: a text that parses with some
    fuel parses with that fuel, to the same value. *)
Lemma parse_value_fuel (f : nat) (s : jsstring) (v : json) (rest : jsstring) :
  parse_value f s = Some (v, rest) ->
  parse_value (2 * length s + 1) s = Some (v, rest).
Proof. intros Hp. apply (proj1 (parse_fuel_enough f) s v rest Hp). Qed.

(** So [None] from [JSON_parse] is a syntax error, whatever the fuel. *)
Lemma JSON_parse_None (text : jsstring) :
  JSON_parse text = None ->
  forall f, match parse_value f text with
            | Some (v, rest) => skip_ws rest <> []
            | None => True
            end.
Proof.
  unfold JSON_parse. intros Hnone f.
  destruct (parse_value f text) as [[v rest]|] eqn:Hf; [|exact I].
  rewrite (parse_value_fuel f text v rest Hf) in Hnone.
  destruct (skip_ws rest); [discriminate | discriminate].
Qed.

Lemma JSON_parse_Some (f : nat) (text : jsstring) (v : json) (rest : jsstring) :
  parse_value f text = Some (v, rest) -> skip_ws rest = [] ->
  JSON_parse text = Some v.
Proof.
  intros Hp Hrest. unfold JSON_parse.
  rewrite (parse_value_fuel f text v rest Hp), Hrest. reflexivity.
Qed.
End Fuel.

(** ** JSON text: objects and arrays of the component *)

Section ObjectRoundTrip.

#[local] Arguments parse_chars : simpl never.
#[local] Arguments quote_units : simpl never.

Lemma parse_value_quoted (f : nat) (s rest : jsstring) :
  parse_value (S f) (QuoteJSONString s ++ rest) = Some (JStr s, rest).
Proof.
  unfold QuoteJSONString. rewrite <- !app_assoc. simpl.
  rewrite parse_chars_quote. reflexivity.
Qed.

(** One member, and what follows it decides how the object goes on. *)
Lemma parse_members_step (f : nat) (k v tail : jsstring) :
  parse_members (S (S f)) (member_text (k, v) ++ tail)
  = match skip_ws tail with
    | c :: r =>
        if (c =? 44)%N then
          match parse_members (S f) r with
          | Some (ms, rest) => Some ((k, JStr v) :: ms, rest)
          | None => None
          end
        else if (c =? 125)%N then Some ([(k, JStr v)], r)
        else None
    | [] => None
    end.
Proof.
  unfold member_text, QuoteJSONString. cbn [fst snd]. rewrite <- !app_assoc. simpl.
  rewrite parse_chars_quote. simpl. rewrite parse_chars_quote. reflexivity.
Qed.

Lemma parse_members_strings (members : list (jsstring * jsstring)) :
  members <> [] ->
  forall (f : nat) (rest : jsstring),
    (length members <= f)%nat ->
    parse_members (S f) (join [44%N] (List.map member_text members) ++ 125%N :: rest)
    = Some (List.map (fun m => (fst m, JStr (snd m))) members, rest).
Proof.
  induction members as [|[k v] members IH]; [congruence|]. intros _ f rest Hf.
  destruct f as [|f]; [simpl in Hf; lia|].
  destruct members as [|m members].
  - cbn [List.map join]. rewrite parse_members_step. reflexivity.
  - change (join [44%N] (List.map member_text ((k, v) :: m :: members)))
      with (member_text (k, v) ++ [44%N] ++ join [44%N] (List.map member_text (m :: members))).
    rewrite <- !app_assoc. rewrite parse_members_step. cbn [app skip_ws is_json_ws N.eqb Pos.eqb orb].
    rewrite IH; [reflexivity | discriminate | simpl in Hf |- *; lia].
Qed.

Lemma join_member_head (m : jsstring * jsstring) (members : list (jsstring * jsstring)) :
  exists t, join [44%N] (List.map member_text (m :: members)) = 34%N :: t.
Proof.
  destruct members; cbn [List.map join]; unfold member_text, QuoteJSONString;
    rewrite <- ?app_assoc; simpl; eauto.
Qed.

(** An object of string properties reads back as written. *)
Lemma parse_value_object (f : nat) (members : list (jsstring * jsstring))
    (rest : jsstring) :
  (length members <= f)%nat ->
  parse_value (S (S f)) (SerializeJSONObject members ++ rest)
  = Some (object_value members, rest).
Proof.
  intros Hf. unfold SerializeJSONObject, object_value.
  rewrite <- !app_assoc.
  destruct members as [|m members]; [reflexivity|].
  destruct (join_member_head m members) as [t Ht].
  cbn [app]. 
  change (parse_value (S (S f)) (123%N :: ?x))
    with (match skip_ws x with
          | d :: r1 =>
              if (d =? 125)%N then Some (JObj [], r1)
              else match parse_members (S f) x with
                   | Some (members, rest) => Some (JObj members, rest)
                   | None => None
                   end
          | [] => None
          end).
  rewrite (parse_members_strings (m :: members) ltac:(discriminate) f rest Hf).
  rewrite Ht. reflexivity.
Qed.

Lemma join_object_head (o : list (jsstring * jsstring))
    (objs : list (list (jsstring * jsstring))) :
  exists t, join [44%N] (List.map SerializeJSONObject (o :: objs)) = 123%N :: t.
Proof. destruct objs; cbn [List.map join]; unfold SerializeJSONObject; simpl; eauto. Qed.

Lemma parse_elements_objects (m : nat) (objs : list (list (jsstring * jsstring))) :
  objs <> [] ->
  Forall (fun o => (length o <= m)%nat) objs ->
  forall (f : nat) (rest : jsstring),
    (m + 1 + length objs <= f)%nat ->
    parse_elements (S f) (join [44%N] (List.map SerializeJSONObject objs) ++ 93%N :: rest)
    = Some (List.map object_value objs, rest).
Proof.
  induction objs as [|o objs IH]; [congruence|]. intros _ Hall f rest Hf.
  apply Forall_cons in Hall as [Ho Hall]. simpl in Hf.
  destruct f as [|[|f]]; try lia.
  destruct objs as [|o' objs].
  - cbn [List.map join].
    change (parse_elements (S (S (S f))) ?x)
      with (match parse_value (S (S f)) x with
            | Some (v, r) =>
                match skip_ws r with
                | c :: r1 =>
                    if (c =? 44)%N then
                      match parse_elements (S (S f)) r1 with
                      | Some (vs, rest) => Some (v :: vs, rest)
                      | None => None
                      end
                    else if (c =? 93)%N then Some ([v], r1)
                    else None
                | [] => None
                end
            | None => None
            end).
    rewrite parse_value_object by lia. reflexivity.
  - change (join [44%N] (List.map SerializeJSONObject (o :: o' :: objs)))
      with (SerializeJSONObject o ++ [44%N]
            ++ join [44%N] (List.map SerializeJSONObject (o' :: objs))).
    rewrite <- !app_assoc.
    change (parse_elements (S (S (S f))) ?x)
      with (match parse_value (S (S f)) x with
            | Some (v, r) =>
                match skip_ws r with
                | c :: r1 =>
                    if (c =? 44)%N then
                      match parse_elements (S (S f)) r1 with
                      | Some (vs, rest) => Some (v :: vs, rest)
                      | None => None
                      end
                    else if (c =? 93)%N then Some ([v], r1)
                    else None
                | [] => None
                end
            | None => None
            end).
    rewrite parse_value_object by lia.
    cbn [app skip_ws is_json_ws N.eqb Pos.eqb orb].
    rewrite IH; [reflexivity | discriminate | exact Hall | simpl in Hf |- *; lia].
Qed.

(** An array of such objects reads back as written. *)
Lemma parse_value_array (m : nat) (objs : list (list (jsstring * jsstring)))
    (f : nat) (rest : jsstring) :
  Forall (fun o => (length o <= m)%nat) objs ->
  (m + 1 + length objs <= f)%nat ->
  parse_value (S (S f))
    (SerializeJSONArray (List.map SerializeJSONObject objs) ++ rest)
  = Some (JArr (List.map object_value objs), rest).
Proof.
  intros Hall Hf. unfold SerializeJSONArray. rewrite <- !app_assoc.
  destruct objs as [|o objs]; [reflexivity|].
  destruct (join_object_head o objs) as [t Ht].
  cbn [app].
  change (parse_value (S (S f)) (91%N :: ?x))
    with (match skip_ws x with
          | d :: r1 =>
              if (d =? 93)%N then Some (JArr [], r1)
              else match parse_elements (S f) x with
                   | Some (items, rest) => Some (JArr items, rest)
                   | None => None
                   end
          | [] => None
          end).
  rewrite (parse_elements_objects m (o :: objs) ltac:(discriminate) Hall f rest Hf).
  rewrite Ht. reflexivity.
Qed.

(** [JSON.parse] of the text of an array of objects of string
    properties. *)
Lemma JSON_parse_array (objs : list (list (jsstring * jsstring))) (m : nat) :
  Forall (fun o => (length o <= m)%nat) objs ->
  JSON_parse (SerializeJSONArray (List.map SerializeJSONObject objs))
  = Some (JArr (List.map object_value objs)).
Proof.
  intros Hall.
  apply (JSON_parse_Some (S (S (m + 1 + length objs))) _ _ []); [|reflexivity].
  rewrite <- (app_nil_r (SerializeJSONArray _)).
  apply (parse_value_array m); [exact Hall | lia].
Qed.

End ObjectRoundTrip.

(** ** Fresh ids *)

Section Ids.

Lemma js_inj (a b : string) : js a = js b -> a = b.
Proof.
  unfold js. intros Hab.
  rewrite <- (string_of_list_ascii_of_string a), <- (string_of_list_ascii_of_string b).
  f_equal. revert Hab. generalize (list_ascii_of_string b).
  induction (list_ascii_of_string a) as [|x l IH]; intros [|y l']; simpl;
    try discriminate; [reflexivity|].
  intros [= Hxy Hl]. f_equal; [|apply IH, Hl].
  rewrite <- (ascii_N_embedding x), <- (ascii_N_embedding y), Hxy. reflexivity.
Qed.

Lemma to_int_not_nil (n : Z) :
  Z.to_int n <> Decimal.Pos Decimal.Nil /\ Z.to_int n <> Decimal.Neg Decimal.Nil.
Proof.
  destruct n as [|p|p]; simpl; split; try discriminate;
    intros [= E]; exact (DecimalPos.Unsigned.to_uint_nonnil p E).
Qed.

(** Different clock readings give different ids. *)
Lemma Number_toString_inj (m n : Z) : Number_toString m = Number_toString n -> m = n.
Proof.
  unfold Number_toString. intros E. apply js_inj in E.
  apply DecimalZ.to_int_inj.
  destruct (to_int_not_nil m) as [Hm1 Hm2]. destruct (to_int_not_nil n) as [Hn1 Hn2].
  pose proof (NilZero.isi _ Hm1 Hm2) as Im. pose proof (NilZero.isi _ Hn1 Hn2) as In'.
  rewrite E in Im. rewrite Im in In'. injection In' as ->. reflexivity.
Qed.

(** The id of a new record is not in use when every id in use was made
    from another clock reading. *)
Lemma new_id_unused (ids : list jsstring) (now : Z) :
  (forall i, In i ids -> exists t, i = Number_toString t /\ t <> now) ->
  ~ In (Number_toString now) ids.
Proof.
  intros Hids Hin. destruct (Hids _ Hin) as (t & Ht & Hne).
  apply Hne. symmetry. apply Number_toString_inj, Ht.
Qed.

End Ids.


(** ** Values *)

Section ValueFacts.

Context `{Engine}.

Lemma Word_literal_fields (id myanmar : jsstring) (indonesian type : json) :
  field (Word.literal id myanmar indonesian type) (js "id") = Some (JStr id)
  /\ field (Word.literal id myanmar indonesian type) (js "myanmar") = Some (JStr myanmar)
  /\ field (Word.literal id myanmar indonesian type) (js "indonesian") = Some indonesian
  /\ field (Word.literal id myanmar indonesian type) (js "type") = Some type.
Proof. repeat split. Qed.

Lemma Sentence_literal_fields (id myanmar indonesian : jsstring) :
  field (Sentence.literal id myanmar indonesian) (js "id") = Some (JStr id)
  /\ field (Sentence.literal id myanmar indonesian) (js "myanmar") = Some (JStr myanmar)
  /\ field (Sentence.literal id myanmar indonesian) (js "indonesian")
     = Some (JStr indonesian).
Proof. repeat split. Qed.

Lemma Word_value_searchable (w : Word.t) : searchable (Word.value w).
Proof. split; eexists; (split; [reflexivity | exact I]). Qed.

Lemma Word_array_searchable (ws : list Word.t) :
  Forall searchable (List.map Word.value ws).
Proof. apply Forall_forall. intros x Hx. apply list_elem_of_In, in_map_iff in Hx as (w & <- & _). apply Word_value_searchable. Qed.

(** A test that does not throw on the elements of the list. *)
Lemma filter_from_total {A : Type} (keep : nat -> A -> option bool) (f : A -> bool)
    (l : list A) (i : nat) :
  (forall j x, In x l -> keep j x = Some (f x)) ->
  filter_from i keep l = Some (List.filter f l).
Proof.
  revert i. induction l as [|x l IH]; intros i Hk; simpl; [reflexivity|].
  rewrite (Hk i x (or_introl eq_refl)), IH by (intros j y Hy; apply Hk; right; exact Hy).
  reflexivity.
Qed.

(** What a filter that did not throw has kept. *)
Lemma filter_from_exactly {A : Type} (keep : nat -> A -> option bool) (P : A -> Prop)
    (l out : list A) (i : nat) :
  (forall j x b, In x l -> keep j x = Some b -> (b = true <-> P x)) ->
  filter_from i keep l = Some out ->
  exactly_those P l out.
Proof.
  revert i out. induction l as [|x l IH]; intros i out Hk; simpl.
  - intros [= <-]. constructor.
  - destruct (keep i x) as [b|] eqn:Hb; [|discriminate].
    destruct (filter_from (S i) keep l) as [kept|] eqn:Hrest; [|discriminate].
    intros [= <-].
    assert (IH' : exactly_those P l kept).
    { apply (IH (S i)); [|exact Hrest]. intros j y b' Hy. apply Hk. right; exact Hy. }
    pose proof (Hk i x b (or_introl eq_refl) Hb) as Hspec.
    destruct b.
    + apply those_keep; [apply Hspec; reflexivity | exact IH'].
    + apply those_drop; [|exact IH']. intros HP. apply Hspec in HP. discriminate.
Qed.

Lemma filter_from_In {A : Type} (keep : nat -> A -> option bool) (l out : list A) (i : nat) :
  filter_from i keep l = Some out -> forall x, In x out -> In x l.
Proof.
  revert i out. induction l as [|y l IH]; intros i out; simpl.
  - intros [= <-] x [].
  - destruct (keep i y) as [b|]; [|discriminate].
    destruct (filter_from (S i) keep l) as [kept|] eqn:Hrest; [|discriminate].
    intros [= <-] x Hx. destruct b.
    + destruct Hx as [->|Hx]; [left; reflexivity | right; exact (IH _ _ Hrest x Hx)].
    + right. exact (IH _ _ Hrest x Hx).
Qed.

Lemma filter_from_length {A : Type} (keep : nat -> A -> option bool) (l out : list A)
    (i : nat) :
  filter_from i keep l = Some out -> (length out <= length l)%nat.
Proof.
  revert i out. induction l as [|y l IH]; intros i out; simpl.
  - intros [= <-]. reflexivity.
  - destruct (keep i y) as [b|]; [|discriminate].
    destruct (filter_from (S i) keep l) as [kept|] eqn:Hrest; [|discriminate].
    intros [= <-]. specialize (IH _ _ Hrest). destruct b; simpl; lia.
Qed.

End ValueFacts.

(** ** Renders and batches *)

Section Rendering.

Context `{Engine}.

(** Whether a render throws depends on the two collections and on the
    search term only. *)
Lemma renders_cells (s s' : AppState) :
  words s = words s' -> searchTerm s = searchTerm s' ->
  generatedSentences s = generatedSentences s' ->
  renders s = renders s'.
Proof.
  intros Hw Ht Hg. unfold renders, render, filteredWords. rewrite Hw, Ht, Hg.
  destruct (words s'); try reflexivity.
  destruct (filter_from 0 _ items); try reflexivity.
  destruct (sentence_rows (generatedSentences s')); try reflexivity.
  destruct (forallb word_row_renders l); reflexivity.
Qed.

Lemma renders_initialState : renders initialState = true.
Proof. reflexivity. Qed.

Lemma commit_nothing (w : World) : commit [] w = w.
Proof.
  unfold commit. destruct (renders (state w)) eqn:E; [|reflexivity].
  cbn [apply_setters fold_left mutates_words mutates_sentences existsb].
  rewrite E. destruct w; reflexivity.
Qed.

(** A batch that sets neither collection leaves [localStorage] alone. *)
Lemma commit_storage_unchanged (calls : list setter) (w : World) :
  mutates_words calls = false -> mutates_sentences calls = false ->
  localStorage (commit calls w) = localStorage w.
Proof.
  intros Hw Hs. unfold commit. rewrite Hw, Hs.
  destruct (renders (state w)); [|reflexivity].
  destruct (renders (apply_setters calls (state w))); reflexivity.
Qed.

(** While the component is mounted, the state after a batch is the state
    the setter calls lead to. *)
Lemma commit_state (calls : list setter) (w : World) :
  renders (state w) = true ->
  state (commit calls w) = apply_setters calls (state w).
Proof.
  intros Hr. unfold commit. rewrite Hr.
  destruct (renders (apply_setters calls (state w))); reflexivity.
Qed.

Lemma commit_unmounted (calls : list setter) (w : World) :
  renders (state w) = false -> commit calls w = w.
Proof. intros Hr. unfold commit. rewrite Hr. reflexivity. Qed.

End Rendering.

(** ** The handlers *)

Section Handlers.

Context `{Engine}.

Lemma trim_blank (s : jsstring) : blank s -> trim s = [].
Proof.
  intros Hs. apply trim_all_white. apply forallb_forall.
  intros c Hc. unfold blank in Hs. rewrite Forall_forall in Hs.
  apply Hs, list_elem_of_In, Hc.
Qed.

Lemma filter_all {A : Type} (f : A -> bool) (l : list A) :
  (forall x, f x = true) -> List.filter f l = l.
Proof.
  intros Hf. induction l as [|x l IH]; simpl; [reflexivity|].
  rewrite Hf, IH. reflexivity.
Qed.

(** With a key and an input that is not blank, the request is sent. *)
Lemma begin_sends_request (r : AppState) :
  truthy (trim (newMyanmarWord r)) = true ->
  handleSaveWord_begin true r
  = {| calls := [setLoading true; setError None];
       awaits := Some {| prompt := translate_prompt (newMyanmarWord r);
                         json_schema := true |} |}.
Proof. intros Hin. unfold handleSaveWord_begin. rewrite Hin. reflexivity. Qed.

Lemma handleSaveWord_sent (r : AppState) (now : Z) (result : ai_result) :
  truthy (trim (newMyanmarWord r)) = true ->
  handleSaveWord true r now result
  = [setLoading true; setError None] ++ handleSaveWord_resume r now result.
Proof.
  intros Hin. unfold handleSaveWord. rewrite (begin_sends_request r Hin). reflexivity.
Qed.

(** [JSON.parse] returns no [undefined]. *)
Lemma parse_value_defined (f : nat) (s : jsstring) (v : json) (rest : jsstring) :
  parse_value f s = Some (v, rest) -> v <> JUndefined.
Proof.
  destruct f as [|f]; [discriminate|]. simpl.
  destruct (skip_ws s) as [|c r]; [discriminate|].
  repeat match goal with
         | |- context [if ?b then _ else _] => destruct b
         | |- context [match ?x with _ => _ end] => destruct x
         end;
    try discriminate; try (intros [= <- _]; discriminate).
  unfold parse_name.
  repeat match goal with
         | |- context [if ?b then _ else _] => destruct b
         end;
    try discriminate; intros [= <- _]; discriminate.
Qed.

Lemma JSON_parse_defined (text : jsstring) (v : json) :
  JSON_parse text = Some v -> v <> JUndefined.
Proof.
  unfold JSON_parse.
  destruct (parse_value (2 * length text + 1) text) as [[v' rest]|] eqn:Hp;
    [|discriminate].
  destruct (skip_ws rest); [|discriminate]. intros [= <-].
  exact (parse_value_defined _ _ _ _ Hp).
Qed.

(** Destructuring fails on [null] and [undefined] only. *)
Lemma destructure_defined (jsonResponse : json) :
  jsonResponse <> JNull -> jsonResponse <> JUndefined ->
  exists indonesianTranslation wordType,
    destructure jsonResponse = Some (indonesianTranslation, wordType).
Proof.
  intros Hn Hu. destruct jsonResponse; try congruence; eexists _, _; reflexivity.
Qed.

(** The successful path of [handleSaveWord_resume]. *)
Lemma resume_translated (r : AppState) (now : Z) (text : jsstring)
    (jsonResponse indonesianTranslation wordType : json) (ws : list json) :
  JSON_parse text = Some jsonResponse ->
  destructure jsonResponse = Some (indonesianTranslation, wordType) ->
  spread (words r) = Some ws ->
  handleSaveWord_resume r now (Resolved (Some text))
  = [setWords (JArr (Word.literal (Number_toString now) (newMyanmarWord r)
                       indonesianTranslation wordType :: ws));
     setNewMyanmarWord []; setLoading false].
Proof.
  intros Hparse Hd Hs. unfold handleSaveWord_resume. simpl text_argument.
  rewrite Hparse, Hd, Hs. reflexivity.
Qed.

Lemma destructure_object (members : list (jsstring * json)) (t c : json) :
  property members (js "indonesianTranslation") = Some t ->
  property members (js "wordType") = Some c ->
  destructure (JObj members) = Some (t, c).
Proof. intros Ht Hc. unfold destructure, field. rewrite Ht, Hc. reflexivity. Qed.

(** Whatever [handleSaveWord_resume] does, it either reports a message and
    sets no collection, or sets the words to the old ones with one record in
    front. *)
Lemma resume_sets_words (r : AppState) (now : Z) (result : ai_result) :
  (exists m, handleSaveWord_resume r now result = [setError (Some m); setLoading false])
  \/ (exists text jsonResponse indonesianTranslation wordType ws,
        result = Resolved text
        /\ JSON_parse (text_argument text) = Some jsonResponse
        /\ destructure jsonResponse = Some (indonesianTranslation, wordType)
        /\ spread (words r) = Some ws
        /\ handleSaveWord_resume r now result
           = [setWords (JArr (Word.literal (Number_toString now) (newMyanmarWord r)
                                indonesianTranslation wordType :: ws));
              setNewMyanmarWord []; setLoading false]).
Proof.
  unfold handleSaveWord_resume, saveWord_catch.
  destruct result as [err|text]; [left; eauto|].
  destruct (JSON_parse (text_argument text)) as [j|] eqn:Hp; [|left; eauto].
  destruct (destructure j) as [[a b]|] eqn:Hd; [|left; eauto].
  destruct (spread (words r)) as [ws|] eqn:Hs; [|left; eauto].
  right. exists text, j, a, b, ws. repeat split; first [assumption | reflexivity].
Qed.

End Handlers.

(** ** Saving a word *)

(** C1, as the code has it.  In every invocation of [handleSaveWord] that
    reaches the AI (a key is configured and the input is not blank), on a
    word collection that is an array, and whose response text parses to a
    JSON object with the string [t] under [indonesianTranslation] and the
    string [c] under [wordType], the word collection afterwards is the old
    one with one record in front of it: its [myanmar] is the input, its
    [indonesian] is [t], its [type] is [c], and its [id] is the decimal text
    of the reading of [Date.now()] at that moment.  The records already
    there follow unchanged, and the sentences are not touched.  The id
    differs from the id of every record made at another clock reading, so
    the ids stay pairwise distinct when all the others were; the collection
    itself is not consulted. *)
Theorem translate_success_prepends `{Engine} (r s : AppState) (now : Z)
    (text : jsstring) (members : list (jsstring * json)) (t c : jsstring)
    (ws : list json) :
  truthy (trim (newMyanmarWord r)) = true ->
  words r = JArr ws ->
  JSON_parse text = Some (JObj members) ->
  property members (js "indonesianTranslation") = Some (JStr t) ->
  property members (js "wordType") = Some (JStr c) ->
  let newWord :=
    Word.literal (Number_toString now) (newMyanmarWord r) (JStr t) (JStr c) in
  let calls := handleSaveWord true r now (Resolved (Some text)) in
  words (apply_setters calls s) = JArr (newWord :: ws)
  /\ generatedSentences (apply_setters calls s) = generatedSentences s
  /\ id_of newWord = Some (JStr (Number_toString now))
  /\ (forall old, In old ws -> made_at_another_time now (id_of old) ->
      id_of old <> id_of newWord)
  /\ (Forall (fun old => made_at_another_time now (id_of old)) ws ->
      NoDup (List.map id_of ws) -> NoDup (List.map id_of (newWord :: ws))).
Proof.
  intros Hinput Hwords Hparse Ht Hc newWord calls. subst calls.
  rewrite (handleSaveWord_sent r now _ Hinput).
  rewrite (resume_translated r now text (JObj members) (JStr t) (JStr c) ws Hparse
             (destructure_object members _ _ Ht Hc))
    by (rewrite Hwords; reflexivity).
  split; [reflexivity|]. split; [reflexivity|]. split; [reflexivity|].
  assert (Hfresh : forall old, In old ws -> made_at_another_time now (id_of old) ->
                     id_of old <> id_of newWord).
  { intros old _ (reading & Hne & Hid) Hsame. rewrite Hid in Hsame.
    injection Hsame as Hsame. apply Hne. exact (Number_toString_inj _ _ Hsame). }
  split; [exact Hfresh|].
  intros Hall Hnd. cbn [List.map]. constructor; [|exact Hnd].
  intros Hin. apply list_elem_of_In, in_map_iff in Hin as (old & Hid & Hold).
  rewrite Forall_forall in Hall.
  exact (Hfresh old Hold (Hall old (proj2 (list_elem_of_In _ _) Hold)) Hid).
Qed.

Lemma translate_success_prepends_witness :
  let r := Sample.stocked in
  let old := List.map Word.value [Sample.minum; Sample.makan] in
  let newWord :=
    Word.literal (js "1700000000123") Sample.sa (JStr (js "makan")) (JStr (js "Verb")) in
  truthy (trim (newMyanmarWord r)) = true
  /\ words r = JArr old
  /\ JSON_parse Sample.translate_response
     = Some (JObj [(js "indonesianTranslation", JStr (js "makan"));
                   (js "wordType", JStr (js "Verb"))])
  /\ words (apply_setters
              (handleSaveWord (H := BasicLatin.engine) true r 1700000000123
                 (Resolved (Some Sample.translate_response))) r)
     = JArr (newWord :: old)
  /\ NoDup (List.map id_of (newWord :: old)).
Proof.
  intros r old newWord.
  assert (Hin : truthy (trim (newMyanmarWord r)) = true) by reflexivity.
  assert (Hw : words r = JArr old) by reflexivity.
  assert (Hp : JSON_parse Sample.translate_response
               = Some (JObj [(js "indonesianTranslation", JStr (js "makan"));
                             (js "wordType", JStr (js "Verb"))]))
    by (vm_compute; reflexivity).
  split; [exact Hin|]. split; [exact Hw|]. split; [exact Hp|].
  destruct (translate_success_prepends (H := BasicLatin.engine) r r 1700000000123
              Sample.translate_response _ (js "makan") (js "Verb") old
              Hin Hw Hp eq_refl eq_refl) as (Hwords & _ & _ & _ & Hnd).
  split; [exact Hwords|]. apply Hnd.
  - repeat constructor.
    + exists 1700000000555%Z. split; [lia | reflexivity].
    + exists 1700000000000%Z. split; [lia | reflexivity].
  - vm_compute. constructor; [|constructor; [|constructor]].
    + intros Hm. apply list_elem_of_In in Hm. destruct Hm as [E|[]]. discriminate E.
    + intros Hm. apply list_elem_of_In in Hm. destruct Hm.
Defined.

(** A save at the clock reading at which [Sample.makan] was made: the new
    record gets the id that record has, so the id is not a fresh one and the
    claim of C1 as written fails here. *)
Lemma same_reading_takes_a_used_id :
  let r := Sample.stocked in
  let old := List.map Word.value [Sample.minum; Sample.makan] in
  let calls :=
    handleSaveWord (H := BasicLatin.engine) true r 1700000000000
      (Resolved (Some Sample.translate_response)) in
  truthy (trim (newMyanmarWord r)) = true
  /\ JSON_parse Sample.translate_response
     = Some (JObj [(js "indonesianTranslation", JStr (js "makan"));
                   (js "wordType", JStr (js "Verb"))])
  /\ words r = JArr old
  /\ words (apply_setters calls r)
     = JArr (Word.literal (js "1700000000000") Sample.sa (JStr (js "makan"))
               (JStr (js "Verb")) :: old)
  /\ In (Some (JStr (js "1700000000000"))) (List.map id_of old)
  /\ ~ NoDup (List.map id_of (elements (words (apply_setters calls r)))).
Proof.
  intros r old calls.
  split; [reflexivity|]. split; [vm_compute; reflexivity|].
  split; [reflexivity|]. split; [vm_compute; reflexivity|].
  split; [right; left; reflexivity|].
  intros Hnd. vm_compute in Hnd.
  inversion Hnd as [|x l Hnot _]; subst. apply Hnot.
  apply list_elem_of_In. right. left. reflexivity.
Qed.

(** C10.  [handleSaveWord] on an input that is empty or all white space
    does nothing: it returns before any request to the AI, calls no setter
    (so no error message, no busy flag, no change to the collections or to
    the input field), and nothing is written to [localStorage]. *)
Theorem blank_input_is_ignored `{Engine} (ai : bool) (r : AppState) (now : Z)
    (result : ai_result) :
  blank (newMyanmarWord r) ->
  handleSaveWord_begin ai r = {| calls := []; awaits := None |}
  /\ handleSaveWord ai r now result = []
  /\ (forall s, apply_setters [] s = s)
  /\ (forall w, commit [] w = w).
Proof.
  intros Hblank. unfold handleSaveWord, handleSaveWord_begin.
  rewrite (trim_blank _ Hblank). simpl.
  repeat split; auto using commit_nothing.
Qed.

Lemma blank_input_is_ignored_witness :
  blank (js "   ")
  /\ handleSaveWord (H := BasicLatin.engine) true
       (apply_setter Sample.stocked (setNewMyanmarWord (js "   "))) 5
       (Resolved (Some Sample.translate_response)) = [].
Proof.
  assert (Hb : blank (js "   ")) by (repeat constructor).
  split; [exact Hb|].
  apply (blank_input_is_ignored (H := BasicLatin.engine) true
           (apply_setter Sample.stocked (setNewMyanmarWord (js "   "))) 5
           (Resolved (Some Sample.translate_response)) Hb).
Defined.

(** ** Generating a sentence *)

Section Lines.

Context `{Engine}.

Lemma trim_empty : trim [] = [].
Proof. reflexivity. Qed.

(** A line that is missing counts as the empty line. *)
Lemma or_empty_trimmed (lines : list jsstring) (i : nat) :
  or_empty (List.map trim lines !! i) = trim (nth i lines []).
Proof.
  revert i; induction lines as [|l lines IH]; intros [|i]; try reflexivity.
  - apply or_empty_Some.
  - apply IH.
Qed.

(** The record [handleGenerateSentence_resume] builds from a response. *)
Lemma generated_sentence (r : AppState) (now : Z) (text : jsstring) (ss : list json) :
  spread (generatedSentences r) = Some ss ->
  handleGenerateSentence_resume r now (Resolved (Some text))
  = [setGeneratedSentences
       (JArr (Sentence.literal (Number_toString now)
                (trim (nth 0 (split 10 text) []))
                (trim (nth 1 (split 10 text) []))
              :: ss));
     setLoading false].
Proof.
  intros Hs. unfold handleGenerateSentence_resume. rewrite Hs, !or_empty_trimmed.
  reflexivity.
Qed.

Lemma lines_of_one (l1 : jsstring) :
  ~ In 10%N l1 ->
  nth 0 (split 10 l1) [] = l1 /\ nth 1 (split 10 l1) [] = [].
Proof. intros H1. rewrite (split_one 10 l1 H1). split; reflexivity. Qed.

Lemma lines_of_two (l1 l2 : jsstring) :
  ~ In 10%N l1 -> ~ In 10%N l2 ->
  nth 0 (split 10 (l1 ++ 10%N :: l2)) [] = l1
  /\ nth 1 (split 10 (l1 ++ 10%N :: l2)) [] = l2.
Proof.
  intros H1 H2. rewrite (split_first 10 l1 l2 H1), (split_one 10 l2 H2).
  split; reflexivity.
Qed.

Lemma lines_of_more (l1 l2 rest : jsstring) :
  ~ In 10%N l1 -> ~ In 10%N l2 ->
  nth 0 (split 10 (l1 ++ 10%N :: l2 ++ 10%N :: rest)) [] = l1
  /\ nth 1 (split 10 (l1 ++ 10%N :: l2 ++ 10%N :: rest)) [] = l2.
Proof.
  intros H1 H2. rewrite (split_first 10 l1 _ H1), (split_first 10 l2 rest H2).
  split; reflexivity.
Qed.

(** The properties read from records that hold strings there. *)
Lemma fields_of_texts (name : jsstring) (l : list json) :
  Forall (fun w => text_field w name (fun _ => True)) l ->
  mapM (fun w => field w name) l = Some (List.map (fun w => JStr (text_of name w)) l).
Proof.
  induction 1 as [|w l (text & Hf & _) _ IH]; [reflexivity|].
  cbn [mapM List.map]. unfold text_of at 1. rewrite Hf, IH. reflexivity.
Qed.

Lemma join_of_strings (texts : list jsstring) :
  mapM join_element (List.map JStr texts) = Some texts.
Proof.
  induction texts as [|t texts IH]; [reflexivity|].
  cbn [mapM List.map]. rewrite IH. reflexivity.
Qed.

Lemma joined_texts (name : jsstring) (l : list json) :
  Forall (fun w => text_field w name (fun _ => True)) l ->
  joined name l = Some (join (js ", ") (List.map (text_of name) l)).
Proof.
  intros Hall. unfold joined, join_values. rewrite (fields_of_texts name l Hall).
  rewrite <- (List.map_map (text_of name) JStr), join_of_strings. reflexivity.
Qed.

Lemma selected_searchable (shuffled : list json) :
  Forall searchable shuffled ->
  Forall (fun w => text_field w (js "myanmar") (fun _ => True)) (selectedWords shuffled)
  /\ Forall (fun w => text_field w (js "indonesian") (fun _ => True))
       (selectedWords shuffled).
Proof.
  intros Hall. unfold selectedWords.
  split; apply Forall_take; eapply Forall_impl; try exact Hall; intros w [Hm Hi]; assumption.
Qed.

(** With a key, two words or more and words that hold strings, the
    sentence request is sent. *)
Lemma generate_begin_sends (shuffled : list json) (r : AppState) (ws : list json) :
  words r = JArr ws -> (2 <= length ws)%nat -> Forall searchable shuffled ->
  handleGenerateSentence_begin true shuffled r
  = {| calls := [setLoading true; setError None];
       awaits :=
         Some {| prompt :=
                   sentence_prompt
                     (join (js ", ")
                        (List.map (text_of (js "indonesian")) (selectedWords shuffled)));
                 json_schema := false |} |}.
Proof.
  intros Hw Hlen Hall. unfold handleGenerateSentence_begin. rewrite Hw.
  cbn [negb length_below_two spread].
  destruct (Nat.ltb_spec (length ws) 2) as [Hlt|_]; [lia|].
  destruct (selected_searchable shuffled Hall) as [Hm Hi].
  rewrite (joined_texts _ _ Hm), (joined_texts _ _ Hi). reflexivity.
Qed.

Lemma generate_sent (shuffled : list json) (r : AppState) (now : Z)
    (result : ai_result) (ws : list json) :
  words r = JArr ws -> (2 <= length ws)%nat -> Forall searchable shuffled ->
  handleGenerateSentence true shuffled r now result
  = [setLoading true; setError None] ++ handleGenerateSentence_resume r now result.
Proof.
  intros Hw Hlen Hall. unfold handleGenerateSentence.
  rewrite (generate_begin_sends shuffled r ws Hw Hlen Hall). reflexivity.
Qed.

End Lines.

(** ** Adding in front *)

(** C4.  When [handleSaveWord] adds a word, which it does for every
    response text that parses to a value other than [null] (key configured,
    input not blank, word collection an array), the new record is at index 0
    of the resulting word collection and the records of the prior collection
    follow it in their order: the record holds the clock reading as [id],
    the input as [myanmar], and what the response holds under the two names,
    whatever that is.  The same holds when [handleGenerateSentence] adds a
    sentence, which it does for every response text (key configured, two
    words or more, the words chosen holding strings, sentence collection an
    array). *)
Theorem adding_puts_in_front `{Engine} (shuffled : list json) (r s : AppState)
    (now : Z) (text : jsstring) (jsonResponse : json) (ws ss : list json) :
  words r = JArr ws ->
  (truthy (trim (newMyanmarWord r)) = true ->
   JSON_parse text = Some jsonResponse -> jsonResponse <> JNull ->
   exists indonesianTranslation wordType,
     let newWord :=
       Word.literal (Number_toString now) (newMyanmarWord r)
         indonesianTranslation wordType in
     let after :=
       words (apply_setters (handleSaveWord true r now (Resolved (Some text))) s) in
     destructure jsonResponse = Some (indonesianTranslation, wordType)
     /\ after = JArr (newWord :: ws)
     /\ elements after !! 0%nat = Some newWord
     /\ forall i, elements after !! S i = ws !! i)
  /\ ((2 <= length ws)%nat -> Forall searchable shuffled ->
      generatedSentences r = JArr ss ->
      let newSentence :=
        Sentence.literal (Number_toString now)
          (trim (nth 0 (split 10 text) [])) (trim (nth 1 (split 10 text) [])) in
      let after :=
        generatedSentences
          (apply_setters
             (handleGenerateSentence true shuffled r now (Resolved (Some text))) s) in
      after = JArr (newSentence :: ss)
      /\ elements after !! 0%nat = Some newSentence
      /\ forall i, elements after !! S i = ss !! i).
Proof.
  intros Hw. split.
  - intros Hin Hparse Hnull.
    destruct (destructure_defined jsonResponse Hnull (JSON_parse_defined _ _ Hparse))
      as (a & b & Hd).
    exists a, b. cbn zeta.
    rewrite (handleSaveWord_sent r now _ Hin).
    rewrite (resume_translated r now text jsonResponse a b ws Hparse Hd)
      by (rewrite Hw; reflexivity).
    split; [exact Hd|]. repeat split.
  - intros Hlen Hall Hss. cbn zeta.
    rewrite (generate_sent shuffled r now _ ws Hw Hlen Hall).
    rewrite (generated_sentence r now text ss) by (rewrite Hss; reflexivity).
    repeat split.
Qed.

Lemma adding_puts_in_front_witness :
  let r := Sample.stocked in
  let old := List.map Word.value [Sample.minum; Sample.makan] in
  words r = JArr old
  /\ JSON_parse Sample.untyped_response
     = Some (JObj [(js "indonesianTranslation", JStr (js "makan"))])
  /\ words (apply_setters
              (handleSaveWord (H := BasicLatin.engine) true r 1700000000000
                 (Resolved (Some Sample.untyped_response))) r)
     = JArr (Sample.makan_untyped :: old)
  /\ generatedSentences
       (apply_setters
          (handleGenerateSentence (H := BasicLatin.engine) true old r 1700000000888
             (Resolved (Some Sample.padded_response))) r)
     = JArr (Sentence.literal (js "1700000000888") (js "a") (js "b")
             :: [Sentence.value Sample.greeting]).
Proof.
  intros r old.
  assert (Hw : words r = JArr old) by reflexivity.
  assert (Hp : JSON_parse Sample.untyped_response
               = Some (JObj [(js "indonesianTranslation", JStr (js "makan"))]))
    by (vm_compute; reflexivity).
  split; [exact Hw|]. split; [exact Hp|].
  split.
  - destruct (adding_puts_in_front (H := BasicLatin.engine) old r r 1700000000000
                Sample.untyped_response
                (JObj [(js "indonesianTranslation", JStr (js "makan"))]) old
                [Sentence.value Sample.greeting] Hw)
      as [Hword _].
    destruct (Hword eq_refl Hp ltac:(discriminate)) as (a & b & Hd & Hafter & _).
    injection Hd as <- <-. exact Hafter.
  - destruct (adding_puts_in_front (H := BasicLatin.engine) old r r 1700000000888
                Sample.padded_response JNull old [Sentence.value Sample.greeting] Hw)
      as [_ Hsentence].
    destruct (Hsentence ltac:(simpl; lia)
                (Word_array_searchable [Sample.minum; Sample.makan]) eq_refl)
      as (Hafter & _).
    exact Hafter.
Defined.

(** ** Searching *)

Section Searching.

Context `{Engine}.

Lemma lower_includes_spec (text : json) (term : jsstring) (b : bool) :
  lower_includes text term = Some b ->
  exists s, text = JStr s /\ (b = true <-> lowered_substring term s).
Proof.
  destruct text; try discriminate. intros [= <-]. eexists. split; [reflexivity|].
  apply includes_spec.
Qed.

(** What the test of the filter says of a word on which it does not
    throw. *)
Lemma matches_search_spec (term : jsstring) (word : json) (b : bool) :
  matches_search term word = Some b ->
  (b = true
   <-> text_field word (js "myanmar") (lowered_substring term)
       \/ text_field word (js "indonesian") (lowered_substring term)).
Proof.
  unfold matches_search, text_field.
  destruct (field word (js "myanmar")) as [m|]; [|discriminate].
  destruct (lower_includes m term) as [[|]|] eqn:Hm; [| |discriminate].
  - intros [= <-]. destruct (lower_includes_spec _ _ _ Hm) as (s & -> & Hs).
    split; [|reflexivity]. intros _. left. exists s. split; [reflexivity|].
    apply Hs. reflexivity.
  - destruct (lower_includes_spec _ _ _ Hm) as (s & -> & Hs).
    destruct (field word (js "indonesian")) as [i|]; [|discriminate].
    intros Hi. destruct (lower_includes_spec _ _ _ Hi) as (t & -> & Ht).
    rewrite Ht. split.
    + intros Hl. right. exists t. split; [reflexivity | exact Hl].
    + intros [(s' & [= <-] & Hl)|(t' & [= <-] & Hl)]; [|exact Hl].
      apply Hs in Hl. discriminate.
Qed.

(** The test does not throw on a word whose two texts are strings. *)
Lemma matches_search_total (term : jsstring) (word : json) :
  searchable word -> exists b, matches_search term word = Some b.
Proof.
  intros [(m & Hm & _) (i & Hi & _)]. unfold matches_search.
  rewrite Hm, Hi. cbn [lower_includes].
  destruct (includes (toLowerCase m) (toLowerCase term)); eauto.
Qed.

Lemma filter_from_defined {A : Type} (keep : nat -> A -> option bool) (l : list A)
    (i : nat) :
  (forall j x, In x l -> exists b, keep j x = Some b) ->
  exists out, filter_from i keep l = Some out.
Proof.
  revert i. induction l as [|x l IH]; intros i Hk; simpl; [eauto|].
  destruct (Hk i x (or_introl eq_refl)) as [b ->].
  destruct (IH (S i)) as [out ->]; [intros j y Hy; apply Hk; right; exact Hy|].
  eauto.
Qed.

(** With the empty term every word whose [myanmar] is a string matches. *)
Lemma matches_search_empty (word : json) :
  text_field word (js "myanmar") (fun _ => True) ->
  matches_search [] word = Some true.
Proof.
  intros (m & Hm & _). unfold matches_search. rewrite Hm. cbn [lower_includes].
  rewrite toLowerCase_empty, includes_empty. reflexivity.
Qed.

(** What [filteredWords] holds when the render does not throw. *)
Lemma filteredWords_spec (r : AppState) (ws rows : list json) :
  words r = JArr ws -> filteredWords r = Some rows ->
  exactly_those
    (fun word =>
       text_field word (js "myanmar") (lowered_substring (searchTerm r))
       \/ text_field word (js "indonesian") (lowered_substring (searchTerm r)))
    ws rows.
Proof.
  intros Hw. unfold filteredWords. rewrite Hw.
  apply filter_from_exactly. intros _ word b _. apply matches_search_spec.
Qed.

Lemma filteredWords_total (r : AppState) (ws : list json) :
  words r = JArr ws -> Forall searchable ws ->
  exists rows, filteredWords r = Some rows.
Proof.
  intros Hw Hall. unfold filteredWords. rewrite Hw.
  apply filter_from_defined. intros _ word Hin.
  apply matches_search_total. rewrite Forall_forall in Hall.
  apply Hall, list_elem_of_In, Hin.
Qed.

(** When the case mapping works unit by unit, the lower-cased term occurs
    in the lower-cased text exactly when some part of the text equals the
    term up to case. *)
Lemma lowered_is_ci (term text : jsstring) :
  unit_by_unit -> (lowered_substring term text <-> ci_substring term text).
Proof.
  intros [f Hf]. unfold lowered_substring, ci_substring, ci_equal.
  rewrite !Hf. split.
  - intros (pre & suf & E).
    apply List.map_eq_app in E as (pre' & rest & -> & <- & E).
    apply List.map_eq_app in E as (part & suf' & -> & E & <-).
    exists pre', part, suf'. split; [reflexivity|]. rewrite !Hf. exact E.
  - intros (pre & part & suf & -> & E). rewrite !Hf in E.
    exists (List.map f pre), (List.map f suf).
    rewrite !List.map_app, E. reflexivity.
Qed.


End Searching.


Lemma BasicLatin_unit_by_unit : unit_by_unit (H := BasicLatin.engine).
Proof. exists BasicLatin.lower_unit. reflexivity. Qed.



(** C8.  With the empty string as search term, [filteredWords] is the
    whole word collection, unchanged and in the same order, whatever the
    records hold besides a [myanmar] text. *)
Theorem search_empty_is_identity `{Engine} (r : AppState) (ws : list json) :
  words r = JArr ws ->
  Forall (fun word => text_field word (js "myanmar") (fun _ => True)) ws ->
  filteredWords (apply_setter r (setSearchTerm [])) = Some ws.
Proof.
  intros Hw Hall. unfold filteredWords. cbn [apply_setter words searchTerm].
  rewrite Hw. rewrite (filter_from_total _ (fun _ => true) ws 0).
  - rewrite filter_all; reflexivity.
  - intros _ word Hin. apply matches_search_empty.
    rewrite Forall_forall in Hall. apply Hall, list_elem_of_In, Hin.
Qed.

Lemma search_empty_is_identity_witness :
  let ws := [Sample.makan_untyped; Word.value Sample.minum] in
  Forall (fun word => text_field word (js "myanmar") (fun _ => True)) ws
  /\ filteredWords (H := BasicLatin.engine)
       (apply_setter (apply_setter Sample.stocked (setWords (JArr ws)))
          (setSearchTerm [])) = Some ws.
Proof.
  intros ws.
  assert (Hall : Forall (fun word => text_field word (js "myanmar") (fun _ => True)) ws).
  { repeat constructor; eexists; (split; [reflexivity | exact I]). }
  split; [exact Hall|].
  exact (search_empty_is_identity (H := BasicLatin.engine)
           (apply_setter Sample.stocked (setWords (JArr ws))) ws eq_refl Hall).
Defined.

(** ** Deleting *)

Section Deleting.

Context `{Engine}.

Lemma id_is_or_is_not (id : jsstring) (record : json) :
  id_of record = Some (JStr id) \/ id_of record <> Some (JStr id).
Proof.
  destruct (id_of record) as [[]|]; try (right; discriminate).
  destruct (strict_equal s id) eqn:E.
  - left. apply strict_equal_spec in E. subst. reflexivity.
  - right. apply strict_equal_false in E. congruence.
Qed.

(** [v !== id] for a string [id]. *)
Lemma strict_unequal_string (v : json) (id : jsstring) (same_place : bool) :
  strict_unequal v (JStr id) same_place = true <-> v <> JStr id.
Proof.
  destruct v; cbn [strict_unequal primitive_equal negb]; try (split; [discriminate | reflexivity]).
  rewrite negb_true_iff, strict_equal_false. split; congruence.
Qed.

(** What [collection.filter(x => x.id !== id)] keeps, for a string [id] and
    an array of values that have properties. *)
Lemma delete_by_id (id : jsstring) (from : nat) (records : list json) :
  Forall (fun record => id_of record <> None) records ->
  exists kept,
    without_id (JArr records) (JStr id) from = Some (JArr kept)
    /\ exactly_those (fun x => id_of x <> Some (JStr id)) records kept
    /\ (~ In (Some (JStr id)) (List.map id_of records) -> kept = records)
    /\ (NoDup (List.map id_of records) ->
        removes_exactly_one id_of (Some (JStr id)) records kept).
Proof.
  intros Hall. unfold without_id.
  destruct (filter_from_defined
              (fun i record =>
                 match field record (js "id") with
                 | Some record_id =>
                     Some (strict_unequal record_id (JStr id) (i =? from)%nat)
                 | None => None
                 end) records 0) as [kept Hkept].
  { intros j x Hx. rewrite Forall_forall in Hall.
    specialize (Hall x (proj2 (list_elem_of_In _ _) Hx)). unfold id_of in Hall.
    destruct (field x (js "id")); [eauto | congruence]. }
  rewrite Hkept. exists kept. split; [reflexivity|].
  assert (Hsel : exactly_those (fun x => id_of x <> Some (JStr id)) records kept).
  { revert Hkept. apply filter_from_exactly. intros j x b _. unfold id_of.
    destruct (field x (js "id")) as [v|]; [|discriminate].
    intros [= <-]. rewrite strict_unequal_string. split; congruence. }
  split; [exact Hsel|].
  assert (Habs : ~ In (Some (JStr id)) (List.map id_of records) -> kept = records).
  { intros Hnot.
    apply (exactly_those_none (fun x => id_of x <> Some (JStr id)) records);
      [|exact Hsel].
    intros x Hx Hk. apply Hnot. rewrite <- Hk. apply in_map, Hx. }
  split; [exact Habs|].
  intros Hnd. split; [|exact Habs].
  intros Hin.
  exact (exactly_those_one id_of (Some (JStr id)) records kept (id_is_or_is_not id)
           Hnd Hin Hsel).
Qed.

End Deleting.

(** C3, as the code has it.  On a collection that is an array of values
    with properties, [handleDeleteWord] keeps exactly the records whose id
    differs from the given one, in their order: every record with that id
    goes.  None goes when the id is absent, and exactly one goes when the id
    is present and the ids of the collection are pairwise distinct.
    [handleDeleteSentence] does the same on the sentences. *)
Theorem delete_removes_all_with_id `{Engine} (r s : AppState) (id : jsstring)
    (from : nat) :
  (forall ws,
     words r = JArr ws -> Forall (fun record => id_of record <> None) ws ->
     exists kept,
       words (apply_setters (handleDeleteWord r (JStr id) from) s) = JArr kept
       /\ exactly_those (fun w => id_of w <> Some (JStr id)) ws kept
       /\ (~ In (Some (JStr id)) (List.map id_of ws) -> kept = ws)
       /\ (NoDup (List.map id_of ws) ->
           removes_exactly_one id_of (Some (JStr id)) ws kept))
  /\ (forall ss,
        generatedSentences r = JArr ss ->
        Forall (fun record => id_of record <> None) ss ->
        exists kept,
          generatedSentences (apply_setters (handleDeleteSentence r (JStr id) from) s)
          = JArr kept
          /\ exactly_those (fun x => id_of x <> Some (JStr id)) ss kept
          /\ (~ In (Some (JStr id)) (List.map id_of ss) -> kept = ss)
          /\ (NoDup (List.map id_of ss) ->
              removes_exactly_one id_of (Some (JStr id)) ss kept)).
Proof.
  split.
  - intros ws Hw Hall.
    destruct (delete_by_id id from ws Hall) as (kept & Hk & Hsel & Habs & Hone).
    exists kept. unfold handleDeleteWord. rewrite Hw, Hk.
    split; [reflexivity|]. auto.
  - intros ss Hs Hall.
    destruct (delete_by_id id from ss Hall) as (kept & Hk & Hsel & Habs & Hone).
    exists kept. unfold handleDeleteSentence. rewrite Hs, Hk.
    split; [reflexivity|]. auto.
Qed.

Lemma Word_array_ids (ws : list Word.t) :
  Forall (fun record => id_of record <> None) (List.map Word.value ws).
Proof.
  apply Forall_forall. intros x Hx.
  apply list_elem_of_In, in_map_iff in Hx as (w & <- & _). discriminate.
Qed.

Lemma Sentence_array_ids (ss : list Sentence.t) :
  Forall (fun record => id_of record <> None) (List.map Sentence.value ss).
Proof.
  apply Forall_forall. intros x Hx.
  apply list_elem_of_In, in_map_iff in Hx as (w & <- & _). discriminate.
Qed.

Lemma delete_removes_all_with_id_witness :
  let ws := List.map Word.value [Sample.minum; Sample.makan] in
  words Sample.stocked = JArr ws
  /\ NoDup (List.map id_of ws)
  /\ exists kept,
       words (apply_setters
                (handleDeleteWord (H := BasicLatin.engine) Sample.stocked
                   (JStr (js "1700000000000")) 0) Sample.stocked) = JArr kept
       /\ removes_exactly_one id_of (Some (JStr (js "1700000000000"))) ws kept.
Proof.
  intros ws.
  assert (Hw : words Sample.stocked = JArr ws) by reflexivity.
  assert (Hnd : NoDup (List.map id_of ws)).
  { vm_compute. constructor; [|constructor; [|constructor]].
    - intros Hm. apply list_elem_of_In in Hm. destruct Hm as [E|[]]. discriminate E.
    - intros Hm. apply list_elem_of_In in Hm. destruct Hm. }
  split; [exact Hw|]. split; [exact Hnd|].
  destruct (delete_removes_all_with_id (H := BasicLatin.engine) Sample.stocked
              Sample.stocked (js "1700000000000") 0) as [Hwords _].
  destruct (Hwords ws Hw (Word_array_ids [Sample.minum; Sample.makan]))
    as (kept & Hk & _ & _ & Hone).
  exists kept. split; [exact Hk | exact (Hone Hnd)].
Defined.

(** Two records with one id: deleting that id removes both, so the claim
    of C3 as written fails on this collection. *)
Lemma delete_removes_both_duplicates :
  let ws := List.map Word.value [Sample.makan; Sample.minum_same_id] in
  let r := apply_setter initialState (setWords (JArr ws)) in
  let id := js "1700000000000" in
  words (apply_setters (handleDeleteWord (H := BasicLatin.engine) r (JStr id) 0) r)
  = JArr []
  /\ ~ removes_exactly_one id_of (Some (JStr id)) ws [].
Proof.
  simpl. split; [reflexivity|].
  intros [Hone _].
  destruct Hone as (l1 & x & l2 & Hbefore & _ & Hafter).
  - left. reflexivity.
  - symmetry in Hafter. apply app_eq_nil in Hafter as [-> ->].
    discriminate Hbefore.
Qed.

(** ** The fields of a sentence *)

(** C6, as the code has it.  For every response text of a sentence
    generation (key configured, two words or more, the words chosen holding
    strings, the sentence collection an array), the new sentence record's
    [myanmar] is the first newline-delimited line of the text with the white
    space at its two ends removed, and its [indonesian] is the second line
    treated the same way; a line that is missing gives the empty string and
    no failure; a third line is not used. *)
Theorem sentence_fields_are_trimmed_lines `{Engine} (shuffled : list json)
    (r s : AppState) (now : Z) (text : jsstring) (ws ss : list json) :
  words r = JArr ws -> (2 <= length ws)%nat -> Forall searchable shuffled ->
  generatedSentences r = JArr ss ->
  exists myanmar indonesian,
    generatedSentences
      (apply_setters
         (handleGenerateSentence true shuffled r now (Resolved (Some text))) s)
    = JArr (Sentence.literal (Number_toString now) myanmar indonesian :: ss)
    /\ myanmar = trim (nth 0 (split 10 text) [])
    /\ indonesian = trim (nth 1 (split 10 text) [])
    /\ (~ In 10%N text -> myanmar = trim text /\ indonesian = [])
    /\ (forall l1 l2, ~ In 10%N l1 -> ~ In 10%N l2 ->
        text = l1 ++ 10%N :: l2 ->
        myanmar = trim l1 /\ indonesian = trim l2)
    /\ (forall l1 l2 rest, ~ In 10%N l1 -> ~ In 10%N l2 ->
        text = l1 ++ 10%N :: l2 ++ 10%N :: rest ->
        myanmar = trim l1 /\ indonesian = trim l2).
Proof.
  intros Hw Hlen Hall Hss.
  rewrite (generate_sent shuffled r now _ ws Hw Hlen Hall).
  rewrite (generated_sentence r now text ss) by (rewrite Hss; reflexivity).
  eexists _, _. split; [reflexivity|].
  split; [reflexivity|]. split; [reflexivity|]. split; [|split].
  - intros H1. destruct (lines_of_one text H1) as [-> ->]. split; reflexivity.
  - intros l1 l2 H1 H2 ->. destruct (lines_of_two l1 l2 H1 H2) as [-> ->].
    split; reflexivity.
  - intros l1 l2 rest H1 H2 ->. destruct (lines_of_more l1 l2 rest H1 H2) as [-> ->].
    split; reflexivity.
Qed.

Lemma sentence_fields_are_trimmed_lines_witness :
  let ws := List.map Word.value [Sample.minum; Sample.makan] in
  words Sample.stocked = JArr ws
  /\ (2 <= length ws)%nat
  /\ Forall searchable ws
  /\ generatedSentences
       (apply_setters
          (handleGenerateSentence (H := BasicLatin.engine) true ws Sample.stocked
             1700000000999 (Resolved (Some Sample.padded_response)))
          Sample.stocked)
     = JArr [Sentence.literal (js "1700000000999") (js "a") (js "b");
             Sentence.value Sample.greeting].
Proof.
  intros ws.
  assert (Hw : words Sample.stocked = JArr ws) by reflexivity.
  assert (Hlen : (2 <= length ws)%nat) by (simpl; lia).
  assert (Hall : Forall searchable ws)
    by apply (Word_array_searchable [Sample.minum; Sample.makan]).
  split; [exact Hw|]. split; [exact Hlen|]. split; [exact Hall|].
  destruct (sentence_fields_are_trimmed_lines (H := BasicLatin.engine) ws Sample.stocked
              Sample.stocked 1700000000999 Sample.padded_response ws
              [Sentence.value Sample.greeting] Hw Hlen Hall eq_refl)
    as (myanmar & indonesian & Hs & -> & -> & _).
  exact Hs.
Defined.

(** The response [" a\nb"]: the first line is [" a"], the record holds
    ["a"], so the claim of C6 as written fails on it. *)
Lemma padded_line_is_not_kept :
  let ws := List.map Word.value [Sample.minum; Sample.makan] in
  let calls :=
    handleGenerateSentence (H := BasicLatin.engine) true ws Sample.stocked
      1700000000999 (Resolved (Some Sample.padded_response)) in
  let added := head (elements (generatedSentences (apply_setters calls Sample.stocked))) in
  nth 0 (split 10 Sample.padded_response) [] = js " a"
  /\ option_map (text_of (js "myanmar")) added = Some (js "a")
  /\ option_map (text_of (js "myanmar")) added
     <> Some (nth 0 (split 10 Sample.padded_response) []).
Proof. vm_compute. repeat split; discriminate. Qed.

(** The example of the specification: both lines are kept as they are,
    having no white space at their ends. *)
Example sentence_response_example :
  handleGenerateSentence (H := BasicLatin.engine) true
    (List.map Word.value [Sample.makan; Sample.minum])
    (apply_setter initialState (setWords (Word.array [Sample.minum; Sample.makan])))
    1700000000999 (Resolved (Some Sample.sentence_response))
  = [setLoading true; setError None;
     setGeneratedSentences (Sentence.array [Sample.greeting]);
     setLoading false].
Proof. reflexivity. Qed.

(** ** Sentence generation needs two words *)

(** C5, as the code has it.  When the word collection holds fewer than two
    records, [handleGenerateSentence] sends no request to the AI and leaves
    both collections and [localStorage] as they are; the message it sets is
    the input-validation message when an API key is configured, and the
    missing-key message when none is, that check coming first. *)
Theorem generate_needs_two_words `{Engine} (ai : bool) (shuffled : list json)
    (r s : AppState) (now : Z) (result : ai_result) (ws : list json) :
  words r = JArr ws ->
  (length ws < 2)%nat ->
  let b := handleGenerateSentence_begin ai shuffled r in
  awaits b = None
  /\ handleGenerateSentence ai shuffled r now result = calls b
  /\ error (apply_setters (calls b) s)
     = Some (if ai then two_words_message else missing_key_message)
  /\ words (apply_setters (calls b) s) = words s
  /\ generatedSentences (apply_setters (calls b) s) = generatedSentences s
  /\ forall w, localStorage (commit (calls b) w) = localStorage w.
Proof.
  intros Hw Hlen. unfold handleGenerateSentence, handleGenerateSentence_begin.
  rewrite Hw. cbn [length_below_two].
  destruct (Nat.ltb_spec (length ws) 2) as [_|Hge]; [|lia].
  destruct ai; cbn [negb calls awaits]; repeat split;
    intros w; apply commit_storage_unchanged; reflexivity.
Qed.

Lemma generate_needs_two_words_witness :
  words Sample.typed = JArr []
  /\ (length (@nil json) < 2)%nat
  /\ handleGenerateSentence (H := BasicLatin.engine) true [] Sample.typed 5
       (Resolved (Some Sample.sentence_response))
     = [setError (Some two_words_message)].
Proof.
  assert (Hw : words Sample.typed = JArr []) by reflexivity.
  assert (Hlen : (length (@nil json) < 2)%nat) by (simpl; lia).
  split; [exact Hw|]. split; [exact Hlen|].
  destruct (generate_needs_two_words (H := BasicLatin.engine) true [] Sample.typed
              Sample.typed 5 (Resolved (Some Sample.sentence_response)) [] Hw Hlen)
    as (_ & Hcalls & _).
  exact Hcalls.
Defined.

(** No API key and no words: the message set is the missing-key message,
    not the input-validation one, so the claim of C5 as written fails
    here. *)
Lemma missing_key_comes_first :
  let calls :=
    handleGenerateSentence (H := BasicLatin.engine) false [] initialState 5
      (Rejected Thrown_other) in
  (length (elements (words initialState)) < 2)%nat
  /\ error (apply_setters calls initialState) = Some missing_key_message
  /\ error (apply_setters calls initialState) <> Some two_words_message.
Proof. simpl. split; [lia|]. split; [reflexivity | discriminate]. Qed.

(** ** Failures *)

Section Failures.

Context `{Engine}.

(** The message [handleSaveWord] reports for a failed call or an unreadable
    response. *)
Lemma translate_failure_calls (r : AppState) (now : Z) (result : ai_result) :
  (exists err, result = Rejected err)
  \/ (exists text, result = Resolved text /\ JSON_parse (text_argument text) = None) ->
  handleSaveWord_resume r now result
  = [setError
       (Some match result with
             | Rejected err => saveWord_errorMessage err
             | Resolved text => SyntaxError_message (text_argument text)
             end);
     setLoading false].
Proof.
  intros [[err ->]|[text [-> Hparse]]]; unfold handleSaveWord_resume.
  - reflexivity.
  - rewrite Hparse. reflexivity.
Qed.

(** A response that is the JSON text [null] parses, and fails at the
    destructuring; it is reported like the other failures. *)
Lemma translate_null_response (r : AppState) (now : Z) (text : jsstring) :
  JSON_parse text = Some JNull ->
  handleSaveWord_resume r now (Resolved (Some text))
  = [setError (Some TypeError_message); setLoading false].
Proof. intros Hp. unfold handleSaveWord_resume. simpl. rewrite Hp. reflexivity. Qed.

(** The banner of a render that returns is made from the error cell. *)
Lemma render_banner (s : AppState) (view : View.t) :
  render s = Some view -> View.banner view = error_banner (error s).
Proof.
  unfold render.
  destruct (filteredWords s); [|discriminate].
  destruct (words s); try discriminate.
  destruct (sentence_rows (generatedSentences s)); [|discriminate].
  destruct (forallb word_row_renders l); [|discriminate].
  intros [= <-]. reflexivity.
Qed.

End Failures.

(** C9, as the code has it.  When the AI call of a translate invocation
    fails, or its response text cannot be parsed, the error state is set to
    a message (the thrown error's own message, the message the API sent, the
    engine's message for the parse error, or the default text) and neither
    collection is set: words, sentences, input field and [localStorage] stay
    as they were before the call, and the screen stays up.  The banner shows
    the message unless it is the empty string; the default text is not
    empty.  When the AI call of a sentence generation fails, or its response
    has no text to split, whatever words were chosen, the error state is set
    to the fixed failure text, which the banner shows, and likewise nothing
    else changes. *)
Theorem failure_sets_error_only `{Engine} (shuffled : list json) (r s : AppState)
    (now : Z) (result : ai_result) (ws : list json) :
  (truthy (trim (newMyanmarWord r)) = true ->
   (exists err, result = Rejected err)
   \/ (exists text, result = Resolved text /\ JSON_parse (text_argument text) = None) ->
   let calls := handleSaveWord true r now result in
   let message :=
     match result with
     | Rejected err => saveWord_errorMessage err
     | Resolved text => SyntaxError_message (text_argument text)
     end in
   error (apply_setters calls s) = Some message
   /\ (forall m,
         result = Rejected (Thrown_Error m) \/ result = Rejected (Thrown_response m) ->
         message = m)
   /\ (forall view, render (apply_setters calls s) = Some view ->
       View.banner view = if truthy message then Some message else None)
   /\ (result = Rejected Thrown_other ->
       forall view, render (apply_setters calls s) = Some view ->
       View.banner view = Some save_failed_message)
   /\ words (apply_setters calls s) = words s
   /\ generatedSentences (apply_setters calls s) = generatedSentences s
   /\ newMyanmarWord (apply_setters calls s) = newMyanmarWord s
   /\ renders (apply_setters calls s) = renders s
   /\ forall w, localStorage (commit calls w) = localStorage w)
  /\ (words r = JArr ws -> (2 <= length ws)%nat ->
      (exists err, result = Rejected err) \/ result = Resolved None ->
      let calls := handleGenerateSentence true shuffled r now result in
      error (apply_setters calls s) = Some generate_failed_message
      /\ (forall view, render (apply_setters calls s) = Some view ->
          View.banner view = Some generate_failed_message)
      /\ words (apply_setters calls s) = words s
      /\ generatedSentences (apply_setters calls s) = generatedSentences s
      /\ renders (apply_setters calls s) = renders s
      /\ forall w, localStorage (commit calls w) = localStorage w).
Proof.
  split.
  - intros Hin Hfail. cbn zeta. rewrite (handleSaveWord_sent r now result Hin).
    rewrite (translate_failure_calls r now result Hfail).
    split; [reflexivity|]. split.
    { intros m [-> | ->]; reflexivity. }
    split.
    { intros view Hv. rewrite (render_banner _ _ Hv). reflexivity. }
    split.
    { intros -> view Hv. rewrite (render_banner _ _ Hv). reflexivity. }
    split; [reflexivity|]. split; [reflexivity|]. split; [reflexivity|].
    split; [apply renders_cells; reflexivity|].
    intros w. apply commit_storage_unchanged; reflexivity.
  - intros Hw Hlen Hfail. cbn zeta.
    assert (E : handleGenerateSentence true shuffled r now result
                = [setLoading true; setError None] ++ generateSentence_catch).
    { unfold handleGenerateSentence, handleGenerateSentence_begin. rewrite Hw.
      cbn [negb length_below_two spread].
      destruct (Nat.ltb_spec (length ws) 2) as [|_]; [lia|].
      destruct (joined (js "myanmar") (selectedWords shuffled));
        [destruct (joined (js "indonesian") (selectedWords shuffled))|];
        cbn [awaits calls]; destruct Hfail as [[err ->] | ->]; reflexivity. }
    rewrite E. split; [reflexivity|]. split.
    { intros view Hv. rewrite (render_banner _ _ Hv). reflexivity. }
    split; [reflexivity|]. split; [reflexivity|].
    split; [apply renders_cells; reflexivity|].
    intros w. apply commit_storage_unchanged; reflexivity.
Qed.

Lemma failure_sets_error_only_witness :
  let r := Sample.stocked in
  let ws := List.map Word.value [Sample.minum; Sample.makan] in
  let failed :=
    handleSaveWord (H := BasicLatin.engine) true r 5
      (Resolved (Some (js "Maaf, saya tidak tahu."))) in
  let refused :=
    handleGenerateSentence (H := BasicLatin.engine) true ws r 5
      (Rejected (Thrown_Error (js "fetch failed"))) in
  truthy (trim (newMyanmarWord r)) = true
  /\ JSON_parse (text_argument (Some (js "Maaf, saya tidak tahu."))) = None
  /\ words r = JArr ws
  /\ option_map View.banner (render (H := BasicLatin.engine) (apply_setters failed r))
     = Some (Some (js "Unexpected token in JSON: Maaf, saya tidak tahu."))
  /\ words (apply_setters failed r) = words r
  /\ option_map View.banner (render (H := BasicLatin.engine) (apply_setters refused r))
     = Some (Some generate_failed_message).
Proof.
  intros r ws failed refused.
  assert (Hin : truthy (trim (newMyanmarWord r)) = true) by reflexivity.
  assert (Hparse : JSON_parse (text_argument (Some (js "Maaf, saya tidak tahu."))) = None)
    by (vm_compute; reflexivity).
  assert (Hw : words r = JArr ws) by reflexivity.
  split; [exact Hin|]. split; [exact Hparse|]. split; [exact Hw|].
  destruct (failure_sets_error_only (H := BasicLatin.engine) ws r r 5
              (Resolved (Some (js "Maaf, saya tidak tahu."))) ws) as [Ht _].
  destruct (failure_sets_error_only (H := BasicLatin.engine) ws r r 5
              (Rejected (Thrown_Error (js "fetch failed"))) ws) as [_ Hg].
  destruct (Ht Hin (or_intror (ex_intro _ _ (conj eq_refl Hparse))))
    as (_ & _ & Hbanner & _ & Hwords & _).
  destruct (Hg Hw ltac:(simpl; lia) (or_introl (ex_intro _ _ eq_refl)))
    as (_ & Hshown & _).
  split; [|split; [exact Hwords|]].
  - destruct (render (H := BasicLatin.engine) (apply_setters failed r)) as [view|] eqn:Hv;
      [|vm_compute in Hv; discriminate Hv].
    cbn [option_map]. rewrite (Hbanner view Hv). reflexivity.
  - destruct (render (H := BasicLatin.engine) (apply_setters refused r)) as [view|] eqn:Hv;
      [|vm_compute in Hv; discriminate Hv].
    cbn [option_map]. rewrite (Hshown view Hv). reflexivity.
Defined.

(** A call rejected with an Error whose message is empty: the error state
    holds the empty string and the render shows no banner, so no message is
    visible and the claim of C9 as written fails here. *)
Lemma empty_message_shows_nothing :
  let r := Sample.stocked in
  let calls :=
    handleSaveWord (H := BasicLatin.engine) true r 5 (Rejected (Thrown_Error [])) in
  truthy (trim (newMyanmarWord r)) = true
  /\ error (apply_setters calls r) = Some []
  /\ option_map View.banner (render (H := BasicLatin.engine) (apply_setters calls r))
     = Some None.
Proof. vm_compute. repeat split. Qed.

(** ** Persistence *)

Section Persistence.

Context `{Engine}.

(** The text of a collection that is as the interfaces say. *)
Lemma stringify_words (ws : list Word.t) :
  JSON_stringify (Word.array ws)
  = SerializeJSONArray (List.map (fun w => SerializeJSONObject (Word.members w)) ws).
Proof.
  unfold JSON_stringify, Word.array. cbn [SerializeJSONProperty text_argument].
  f_equal. induction ws as [|w ws IH]; [reflexivity|].
  cbn [List.map]. rewrite IH. reflexivity.
Qed.

Lemma stringify_sentences (ss : list Sentence.t) :
  JSON_stringify (Sentence.array ss)
  = SerializeJSONArray (List.map (fun s => SerializeJSONObject (Sentence.members s)) ss).
Proof.
  unfold JSON_stringify, Sentence.array. cbn [SerializeJSONProperty text_argument].
  f_equal. induction ss as [|s ss IH]; [reflexivity|].
  cbn [List.map]. rewrite IH. reflexivity.
Qed.

Lemma JSON_parse_words (ws : list Word.t) :
  JSON_parse (JSON_stringify (Word.array ws)) = Some (Word.array ws).
Proof.
  rewrite stringify_words.
  rewrite <- (List.map_map Word.members SerializeJSONObject).
  rewrite (JSON_parse_array (List.map Word.members ws) 4).
  - rewrite List.map_map. reflexivity.
  - apply Forall_forall. intros o Ho. apply list_elem_of_In, in_map_iff in Ho.
    destruct Ho as (w & <- & _). simpl. lia.
Qed.

Lemma JSON_parse_sentences (ss : list Sentence.t) :
  JSON_parse (JSON_stringify (Sentence.array ss)) = Some (Sentence.array ss).
Proof.
  rewrite stringify_sentences.
  rewrite <- (List.map_map Sentence.members SerializeJSONObject).
  rewrite (JSON_parse_array (List.map Sentence.members ss) 3).
  - rewrite List.map_map. reflexivity.
  - apply Forall_forall. intros o Ho. apply list_elem_of_In, in_map_iff in Ho.
    destruct Ho as (s & <- & _). simpl. lia.
Qed.

(** Reading back what the save effect wrote gives the collection. *)
Lemma read_words_written (ws : list Word.t) :
  read_entry (Some (JSON_stringify (Word.array ws))) = Stored (Word.array ws).
Proof.
  unfold read_entry. rewrite JSON_parse_words. rewrite stringify_words. reflexivity.
Qed.

Lemma read_sentences_written (ss : list Sentence.t) :
  read_entry (Some (JSON_stringify (Sentence.array ss))) = Stored (Sentence.array ss).
Proof.
  unfold read_entry. rewrite JSON_parse_sentences. rewrite stringify_sentences.
  reflexivity.
Qed.

Lemma keys_differ : words_key <> sentences_key.
Proof. discriminate. Qed.

Lemma words_not_set (calls : list setter) (s : AppState) :
  mutates_words calls = false -> words (apply_setters calls s) = words s.
Proof.
  revert s; induction calls as [|c calls IH]; intros s; [reflexivity|].
  simpl. destruct c; simpl; try discriminate; intros Hm; rewrite (IH _ Hm); reflexivity.
Qed.

Lemma sentences_not_set (calls : list setter) (s : AppState) :
  mutates_sentences calls = false ->
  generatedSentences (apply_setters calls s) = generatedSentences s.
Proof.
  revert s; induction calls as [|c calls IH]; intros s; [reflexivity|].
  simpl. destruct c; simpl; try discriminate; intros Hm; rewrite (IH _ Hm); reflexivity.
Qed.

(** A component that is mounted after a batch was mounted before it, and
    the batch has been applied. *)
Lemma commit_mounted (calls : list setter) (w : World) :
  renders (state (commit calls w)) = true ->
  renders (state w) = true
  /\ renders (apply_setters calls (state w)) = true
  /\ state (commit calls w) = apply_setters calls (state w).
Proof.
  unfold commit. destruct (renders (state w)) eqn:Hr; [|intros Hc; congruence].
  destruct (renders (apply_setters calls (state w))) eqn:Hr'; cbn [state]; auto.
  intros Hc. congruence.
Qed.

(** A batch that sets the words, and after which the component is mounted,
    is followed by a write of the words as they are after the batch;
    likewise for the sentences. *)
Lemma commit_writes_words (calls : list setter) (w : World) :
  renders (state (commit calls w)) = true ->
  mutates_words calls = true ->
  localStorage (commit calls w) !! words_key
  = Some (JSON_stringify (words (state (commit calls w)))).
Proof.
  intros Hr Hm. destruct (commit_mounted calls w Hr) as (Hr0 & Hr1 & _).
  unfold commit. rewrite Hr0, Hr1, Hm. cbn [state localStorage].
  unfold saveWordsEffect, saveSentencesEffect.
  destruct (mutates_sentences calls).
  - rewrite lookup_insert_ne by (intros E; symmetry in E; exact (keys_differ E)).
    apply lookup_insert_eq.
  - apply lookup_insert_eq.
Qed.

Lemma commit_writes_sentences (calls : list setter) (w : World) :
  renders (state (commit calls w)) = true ->
  mutates_sentences calls = true ->
  localStorage (commit calls w) !! sentences_key
  = Some (JSON_stringify (generatedSentences (state (commit calls w)))).
Proof.
  intros Hr Hm. destruct (commit_mounted calls w Hr) as (Hr0 & Hr1 & _).
  unfold commit. rewrite Hr0, Hr1, Hm. cbn [state localStorage].
  unfold saveSentencesEffect. apply lookup_insert_eq.
Qed.

Lemma commit_in_sync (calls : list setter) (w : World) :
  in_sync w -> renders (state (commit calls w)) = true -> in_sync (commit calls w).
Proof.
  intros [Hw Hs] Hr. destruct (commit_mounted calls w Hr) as (Hr0 & Hr1 & _). split.
  - destruct (mutates_words calls) eqn:Hm; [apply commit_writes_words; assumption|].
    unfold commit. rewrite Hr0, Hr1, Hm. cbn [state localStorage].
    rewrite (words_not_set calls _ Hm).
    destruct (mutates_sentences calls); [|exact Hw].
    unfold saveSentencesEffect.
    rewrite lookup_insert_ne by (intros E; symmetry in E; exact (keys_differ E)).
    exact Hw.
  - destruct (mutates_sentences calls) eqn:Hm;
      [apply commit_writes_sentences; assumption|].
    unfold commit. rewrite Hr0, Hr1, Hm. cbn [state localStorage].
    rewrite (sentences_not_set calls _ Hm).
    destruct (mutates_words calls); [|exact Hs].
    unfold saveWordsEffect. rewrite lookup_insert_ne by exact keys_differ.
    exact Hs.
Qed.

Lemma mount_in_sync (storage : gmap jsstring jsstring) (w : World) :
  mount storage = Some w -> renders (state w) = true -> in_sync w.
Proof.
  unfold mount. destruct (loadEffect storage) as [calls|]; [|discriminate].
  intros [= <-]. apply commit_in_sync. split; cbn [state localStorage].
  - unfold saveSentencesEffect, saveWordsEffect.
    rewrite lookup_insert_ne by (intros E; symmetry in E; exact (keys_differ E)).
    apply lookup_insert_eq.
  - unfold saveSentencesEffect. apply lookup_insert_eq.
Qed.

(** While the component is mounted, [localStorage] mirrors both
    collections. *)
Lemma reachable_in_sync (w : World) :
  reachable w -> renders (state w) = true -> in_sync w.
Proof.
  induction 1 as [storage w Hm|calls w _ IH]; intros Hr.
  - exact (mount_in_sync storage w Hm Hr).
  - apply commit_in_sync; [|exact Hr].
    apply IH. exact (proj1 (commit_mounted calls w Hr)).
Qed.

(** A state whose collections are as the interfaces say renders. *)
Lemma word_rows_render (ws : list Word.t) (rows : list json) :
  (forall x, In x rows -> In x (List.map Word.value ws)) ->
  forallb word_row_renders rows = true.
Proof.
  intros Hsub. apply forallb_forall. intros x Hx.
  apply Hsub, in_map_iff in Hx as (w & <- & _). reflexivity.
Qed.

Lemma sentence_rows_typed (ss : list Sentence.t) :
  sentence_rows (Sentence.array ss) = Some (List.map Sentence.value ss).
Proof.
  unfold sentence_rows, Sentence.array. cbn [length_is_zero].
  destruct ss as [|s ss]; [reflexivity|]. cbn [length Nat.eqb].
  assert (E : forallb sentence_row_renders (List.map Sentence.value (s :: ss)) = true).
  { apply forallb_forall. intros x Hx. apply in_map_iff in Hx as (y & <- & _).
    reflexivity. }
  rewrite E. reflexivity.
Qed.

Lemma typed_state_renders (s : AppState) (ws : list Word.t) (ss : list Sentence.t) :
  words s = Word.array ws -> generatedSentences s = Sentence.array ss ->
  renders s = true.
Proof.
  intros Hw Hs. unfold renders, render.
  destruct (filteredWords_total s (List.map Word.value ws) Hw (Word_array_searchable ws))
    as [rows Hrows].
  rewrite Hrows, Hw, Hs, sentence_rows_typed. unfold Word.array.
  rewrite (word_rows_render ws rows); [reflexivity|].
  unfold filteredWords in Hrows. rewrite Hw in Hrows.
  exact (filter_from_In _ _ _ _ Hrows).
Qed.


End Persistence.


Lemma first_visit_mounted `{Engine} : mount ∅ = Some Sample.first_visit.
Proof. reflexivity. Qed.



(** ** Batches *)

Section Batches.

Lemma apply_setters_app (a b : list setter) (s : AppState) :
  apply_setters (a ++ b) s = apply_setters b (apply_setters a s).
Proof. apply fold_left_app. Qed.

End Batches.

(** ** Two runs of the component *)

Section Runs.

(** Ids are not checked for collisions: two words saved at one reading of
    the clock carry one id, and deleting it removes both. *)
Remark same_reading_same_id :
  let now := 1700000000000%Z in
  let w1 := commit (H := BasicLatin.engine) [setNewMyanmarWord Sample.sa] Sample.first_visit in
  let calls1 :=
    handleSaveWord (H := BasicLatin.engine) true (state w1) now
      (Resolved (Some Sample.translate_response)) in
  let w2 :=
    commit (H := BasicLatin.engine) [setNewMyanmarWord Sample.thauk]
      (commit (H := BasicLatin.engine) calls1 w1) in
  let calls2 :=
    handleSaveWord (H := BasicLatin.engine) true (state w2) now
      (Resolved (Some Sample.minum_response)) in
  let w3 := commit (H := BasicLatin.engine) calls2 w2 in
  reachable (H := BasicLatin.engine) w3
  /\ words (state w3) = Word.array [Sample.minum_same_id; Sample.makan]
  /\ words (state (commit (H := BasicLatin.engine)
                     (handleDeleteWord (H := BasicLatin.engine) (state w3)
                        (JStr (js "1700000000000")) 0) w3))
     = JArr [].
Proof.
  intros now w1 calls1 w2 calls2 w3.
  split; [|split; reflexivity].
  do 4 apply reach_commit. exact (reach_mount ∅ _ first_visit_mounted).
Qed.

(** The handler works on the collection of the render it was invoked in: a
    word deleted while the translation is awaited is back once the response
    is in. *)
Remark deletion_while_waiting_is_undone :
  let typed := Sample.second_word_typed (H := BasicLatin.engine) in
  let r := state typed in
  let waiting :=
    commit (H := BasicLatin.engine) (calls (handleSaveWord_begin true r)) typed in
  let deleted :=
    commit (H := BasicLatin.engine)
      (handleDeleteWord (H := BasicLatin.engine) (state waiting)
         (JStr (js "1700000000000")) 0) waiting in
  let after :=
    handleSaveWord_resume (H := BasicLatin.engine) r 1700000000555
      (Resolved (Some Sample.minum_response)) in
  words (state deleted) = JArr []
  /\ words (state (commit (H := BasicLatin.engine) after deleted))
     = Word.array [Sample.minum; Sample.makan].
Proof. split; reflexivity. Qed.

End Runs.

(** ** Examples *)

Example trim_example : trim (js "  Selamat pagi  ") = js "Selamat pagi".
Proof. reflexivity. Qed.

Example trim_line_ends_example : trim ([13; 10; 9; 160] ++ js "a b" ++ [8232; 65279])%N = js "a b".
Proof. reflexivity. Qed.

Example split_example : split 10 (js "a" ++ [10%N] ++ js "b" ++ [10%N]) = [js "a"; js "b"; []].
Proof. reflexivity. Qed.

Example split_empty_example : split 10 [] = [[]].
Proof. reflexivity. Qed.

Example includes_example : includes (js "makan") (js "aka") = true.
Proof. reflexivity. Qed.

Example includes_not_example : includes (js "makan") (js "kam") = false.
Proof. reflexivity. Qed.

Example toString_example : Number_toString 1700000000000 = js "1700000000000".
Proof. reflexivity. Qed.

Example toString_negative_example : Number_toString (-42) = js "-42".
Proof. reflexivity. Qed.

Example quote_example :
  QuoteJSONString ([34; 10; 1; 55357; 56832; 56832] ++ Sample.sa)%N
  = ([34; 92; 34; 92; 110] ++ js "\u0001" ++ [55357; 56832] ++ js "\ude00"
       ++ Sample.sa ++ [34])%N.
Proof. reflexivity. Qed.

Example parse_example :
  JSON_parse (js " [1, -2.5e+3, true, null, {} ] ")
  = Some (JArr [JNum (js "1"); JNum (js "-2.5e+3"); JBool true; JNull; JObj []]).
Proof. vm_compute. reflexivity. Qed.

Example parse_undefined_example : JSON_parse (text_argument None) = None.
Proof. vm_compute. reflexivity. Qed.

Example parse_trailing_comma_example : JSON_parse (js "[1,]") = None.
Proof. vm_compute. reflexivity. Qed.

Example parse_leading_zero_example : JSON_parse (js "01") = None.
Proof. vm_compute. reflexivity. Qed.

Example search_example :
  filteredWords (H := BasicLatin.engine)
    (apply_setter Sample.stocked (setSearchTerm (js "MAK")))
  = Some [Word.value Sample.makan].
Proof. reflexivity. Qed.

(** A record whose [indonesian] holds [undefined]: the empty term finds
    it, any other term that its [myanmar] does not hold makes the render
    throw. *)
Example search_undefined_example :
  let broken := Word.literal (js "1") Sample.sa JUndefined (JStr (js "Verb")) in
  let s := apply_setter initialState (setWords (JArr [broken])) in
  filteredWords (H := BasicLatin.engine) s = Some [broken]
  /\ filteredWords (H := BasicLatin.engine) (apply_setter s (setSearchTerm (js "a")))
     = None
  /\ renders (H := BasicLatin.engine) (apply_setter s (setSearchTerm (js "a"))) = false.
Proof. repeat split. Qed.

Example stringify_example :
  JSON_stringify (H := BasicLatin.engine) (Sentence.array [Sample.greeting])
  = js "[{" ++ QuoteJSONString (js "id") ++ js ":" ++ QuoteJSONString (js "1700000000999")
    ++ js "," ++ QuoteJSONString (js "myanmar") ++ js ":"
    ++ QuoteJSONString Sample.mingalaba
    ++ js "," ++ QuoteJSONString (js "indonesian") ++ js ":"
    ++ QuoteJSONString (js "Selamat pagi") ++ js "}]".
Proof. reflexivity. Qed.

(** The keys of an object are written with the array indices first, in
    ascending order; a property that holds [undefined] is left out, an
    element that is [undefined] is written [null]. *)
Example stringify_order_example :
  JSON_stringify (H := BasicLatin.engine)
    (JObj [(js "b", JNum (js "1")); (js "1", JUndefined);
           (js "b", JArr [JUndefined; JNull]); (js "0", JStr (js "x"))])
  = js "{" ++ QuoteJSONString (js "0") ++ js ":" ++ QuoteJSONString (js "x") ++ js ","
    ++ QuoteJSONString (js "b") ++ js ":[null,null]}".
Proof. vm_compute. reflexivity. Qed.

Example ToString_example :
  ToString (H := BasicLatin.engine)
    (JArr [JNull; JStr (js "a"); JArr [JBool true; JUndefined]; JObj []])
  = Some (js ",a,true,,[object Object]").
Proof. reflexivity. Qed.

Example spread_example :
  spread (JStr [97; 55357; 56832; 56832]%N)
  = Some [JStr [97%N]; JStr [55357; 56832]%N; JStr [56832%N]].
Proof. reflexivity. Qed.

(** * Further properties of the component *)

(** ** Without an API key *)

Lemma ai_configured_false (key : option jsstring) :
  ai_configured key = false <-> key = None \/ key = Some [].
Proof.
  destruct key as [[|c k]|]; simpl; split; auto; try discriminate.
  intros [E|E]; discriminate E.
Qed.

(** X1.  When [GEMINI_API_KEY] is missing or empty, neither
    [handleSaveWord] nor [handleGenerateSentence] sends a request, however
    many words there are and whatever the collections hold.
    [handleSaveWord] on an input that is not blank, and
    [handleGenerateSentence] always, set the missing-key message and end
    with the busy flag off; collections, input field and [localStorage] stay
    as they are. *)
Theorem without_key_nothing_is_sent `{Engine} (key : option jsstring)
    (shuffled : list json) (r s : AppState) (now : Z) (result : ai_result) :
  key = None \/ key = Some [] ->
  let ai := ai_configured key in
  awaits (handleSaveWord_begin ai r) = None
  /\ awaits (handleGenerateSentence_begin ai shuffled r) = None
  /\ (truthy (trim (newMyanmarWord r)) = true ->
      let batch := handleSaveWord ai r now result in
      batch = calls (handleSaveWord_begin ai r)
      /\ error (apply_setters batch s) = Some missing_key_message
      /\ loading (apply_setters batch s) = false
      /\ words (apply_setters batch s) = words s
      /\ generatedSentences (apply_setters batch s) = generatedSentences s
      /\ newMyanmarWord (apply_setters batch s) = newMyanmarWord s
      /\ forall w, localStorage (commit batch w) = localStorage w)
  /\ (let batch := handleGenerateSentence ai shuffled r now result in
      batch = calls (handleGenerateSentence_begin ai shuffled r)
      /\ error (apply_setters batch s) = Some missing_key_message
      /\ loading (apply_setters batch s) = false
      /\ words (apply_setters batch s) = words s
      /\ generatedSentences (apply_setters batch s) = generatedSentences s
      /\ newMyanmarWord (apply_setters batch s) = newMyanmarWord s
      /\ forall w, localStorage (commit batch w) = localStorage w).
Proof.
  intros Hkey ai. assert (Hai : ai = false) by (apply ai_configured_false, Hkey).
  rewrite Hai. clear ai Hai Hkey.
  split; [unfold handleSaveWord_begin; destruct (truthy _); reflexivity|].
  split; [reflexivity|]. split.
  - intros Hin. unfold handleSaveWord, handleSaveWord_begin. rewrite Hin. simpl.
    repeat split. intros w. apply commit_storage_unchanged; reflexivity.
  - unfold handleGenerateSentence, handleGenerateSentence_begin. simpl. repeat split.
    intros w. apply commit_storage_unchanged; reflexivity.
Qed.

Lemma without_key_nothing_is_sent_witness :
  (Some ([] : jsstring) = None \/ Some ([] : jsstring) = Some [])
  /\ awaits (handleSaveWord_begin (ai_configured (Some [])) Sample.stocked) = None
  /\ handleGenerateSentence (H := BasicLatin.engine) (ai_configured (Some []))
       (elements (words Sample.stocked)) Sample.stocked 5
       (Resolved (Some Sample.sentence_response))
     = [setError (Some missing_key_message); setLoading false].
Proof.
  assert (Hkey : Some ([] : jsstring) = None \/ Some ([] : jsstring) = Some [])
    by (right; reflexivity).
  split; [exact Hkey|].
  destruct (without_key_nothing_is_sent (H := BasicLatin.engine) (Some [])
              (elements (words Sample.stocked)) Sample.stocked Sample.stocked 5
              (Resolved (Some Sample.sentence_response)) Hkey)
    as (Hs & _ & _ & Hg & _).
  split; [exact Hs | exact Hg].
Defined.

(** ** What a success leaves behind *)

(** X2.  A successful [handleSaveWord] (on a word collection that is an
    array) empties the input field, leaves no error message (an earlier one
    is gone) and ends with the busy flag off; the search term and the
    sentences are untouched.  When the component is mounted after the batch,
    the words entry of [localStorage] holds the new collection and the
    sentences entry is as it was; and it is mounted after the batch when the
    collections are as the interfaces say. *)
Theorem save_success_resets_the_form `{Engine} (r s : AppState) (w : World) (now : Z)
    (text : jsstring) (members : list (jsstring * json)) (t c : jsstring)
    (ws : list json) :
  truthy (trim (newMyanmarWord r)) = true ->
  words r = JArr ws ->
  JSON_parse text = Some (JObj members) ->
  property members (js "indonesianTranslation") = Some (JStr t) ->
  property members (js "wordType") = Some (JStr c) ->
  let batch := handleSaveWord true r now (Resolved (Some text)) in
  let newWord :=
    Word.literal (Number_toString now) (newMyanmarWord r) (JStr t) (JStr c) in
  newMyanmarWord (apply_setters batch s) = []
  /\ error (apply_setters batch s) = None
  /\ loading (apply_setters batch s) = false
  /\ searchTerm (apply_setters batch s) = searchTerm s
  /\ generatedSentences (apply_setters batch s) = generatedSentences s
  /\ (renders (state (commit batch w)) = true ->
      localStorage (commit batch w) !! words_key
      = Some (JSON_stringify (JArr (newWord :: ws)))
      /\ localStorage (commit batch w) !! sentences_key
         = localStorage w !! sentences_key)
  /\ (forall typed ss,
        ws = List.map Word.value typed ->
        generatedSentences (state w) = Sentence.array ss ->
        renders (state w) = true ->
        renders (state (commit batch w)) = true).
Proof.
  intros Hin Hw Hparse Ht Hc batch newWord. subst batch.
  rewrite (handleSaveWord_sent r now _ Hin).
  rewrite (resume_translated r now text (JObj members) (JStr t) (JStr c) ws Hparse
             (destructure_object members _ _ Ht Hc))
    by (rewrite Hw; reflexivity).
  do 5 (split; [reflexivity|]). split.
  - intros Hr. split.
    + rewrite commit_writes_words by (exact Hr || reflexivity).
      rewrite (proj2 (proj2 (commit_mounted _ _ Hr))). reflexivity.
    + destruct (commit_mounted _ _ Hr) as (Hr0 & Hr1 & _).
      unfold commit. rewrite Hr0, Hr1.
      cbn [mutates_words mutates_sentences existsb orb app state localStorage].
      unfold saveWordsEffect. apply lookup_insert_ne, keys_differ.
  - intros typed ss -> Hss Hr. rewrite commit_state by exact Hr.
    apply (typed_state_renders _
             ({| Word.id := Number_toString now; Word.myanmar := newMyanmarWord r;
                 Word.indonesian := t; Word.type := c |} :: typed) ss);
      [reflexivity | exact Hss].
Qed.

Lemma save_success_resets_the_form_witness :
  let batch :=
    handleSaveWord (H := BasicLatin.engine) true Sample.typed 1700000000000
      (Resolved (Some Sample.translate_response)) in
  truthy (trim (newMyanmarWord Sample.typed)) = true
  /\ newMyanmarWord (apply_setters batch Sample.typed) = []
  /\ error (apply_setters batch Sample.typed) = None
  /\ loading (apply_setters batch Sample.typed) = false
  /\ localStorage (commit (H := BasicLatin.engine) batch Sample.first_visit) !! words_key
     = Some (JSON_stringify (H := BasicLatin.engine) (Word.array [Sample.makan])).
Proof.
  intros batch.
  assert (Hin : truthy (trim (newMyanmarWord Sample.typed)) = true) by reflexivity.
  split; [exact Hin|].
  destruct (save_success_resets_the_form (H := BasicLatin.engine)
              Sample.typed Sample.typed Sample.first_visit 1700000000000
              Sample.translate_response
              [(js "indonesianTranslation", JStr (js "makan"));
               (js "wordType", JStr (js "Verb"))] (js "makan") (js "Verb") [] Hin
              eq_refl)
    as (Hn & He & Hl & _ & _ & Hstore & Hmounted); try (vm_compute; reflexivity).
  split; [exact Hn|]. split; [exact He|]. split; [exact Hl|].
  exact (proj1 (Hstore (Hmounted [] [] eq_refl eq_refl eq_refl))).
Defined.

(** X3.  A [handleGenerateSentence] that gets a response text (key
    configured, two words or more, the words chosen holding strings, the
    sentence collection an array) adds one sentence whose id is made from
    [Date.now()], leaves no error message and ends with the busy flag off;
    words, input field and search term are untouched.  When the component is
    mounted after the batch, the sentences entry of [localStorage] holds the
    new collection and the words entry is as it was. *)
Theorem generate_success_touches_only_sentences `{Engine} (shuffled : list json)
    (r s : AppState) (w : World) (now : Z) (text : jsstring) (ws ss : list json) :
  words r = JArr ws -> (2 <= length ws)%nat -> Forall searchable shuffled ->
  generatedSentences r = JArr ss ->
  let batch := handleGenerateSentence true shuffled r now (Resolved (Some text)) in
  (exists sentence,
      generatedSentences (apply_setters batch s) = JArr (sentence :: ss)
      /\ id_of sentence = Some (JStr (Number_toString now))
      /\ (renders (state (commit batch w)) = true ->
          localStorage (commit batch w) !! sentences_key
          = Some (JSON_stringify (JArr (sentence :: ss)))))
  /\ error (apply_setters batch s) = None
  /\ loading (apply_setters batch s) = false
  /\ words (apply_setters batch s) = words s
  /\ newMyanmarWord (apply_setters batch s) = newMyanmarWord s
  /\ searchTerm (apply_setters batch s) = searchTerm s
  /\ localStorage (commit batch w) !! words_key = localStorage w !! words_key.
Proof.
  intros Hw Hlen Hall Hss batch. unfold batch.
  rewrite (generate_sent shuffled r now _ ws Hw Hlen Hall).
  rewrite (generated_sentence r now text ss) by (rewrite Hss; reflexivity).
  split.
  - eexists. split; [reflexivity|]. split; [reflexivity|].
    intros Hr. rewrite commit_writes_sentences by (exact Hr || reflexivity).
    rewrite (proj2 (proj2 (commit_mounted _ _ Hr))). reflexivity.
  - do 5 (split; [reflexivity|]).
    unfold commit. destruct (renders (state w)); [|reflexivity].
    destruct (renders _); [|reflexivity].
    cbn [mutates_words mutates_sentences existsb orb app state localStorage].
    unfold saveSentencesEffect. apply lookup_insert_ne.
    intros E. symmetry in E. exact (keys_differ E).
Qed.

Lemma generate_success_touches_only_sentences_witness :
  let ws := List.map Word.value [Sample.minum; Sample.makan] in
  let batch :=
    handleGenerateSentence (H := BasicLatin.engine) true ws Sample.stocked
      1700000000999 (Resolved (Some Sample.sentence_response)) in
  words Sample.stocked = JArr ws
  /\ (2 <= length ws)%nat
  /\ words (apply_setters batch Sample.stocked) = words Sample.stocked
  /\ generatedSentences (apply_setters batch Sample.stocked)
     = Sentence.array [Sample.greeting; Sample.greeting].
Proof.
  intros ws batch.
  assert (Hw : words Sample.stocked = JArr ws) by reflexivity.
  assert (Hlen : (2 <= length ws)%nat) by (simpl; lia).
  split; [exact Hw|]. split; [exact Hlen|].
  destruct (generate_success_touches_only_sentences (H := BasicLatin.engine) ws
              Sample.stocked Sample.stocked Sample.first_visit 1700000000999
              Sample.sentence_response ws [Sentence.value Sample.greeting] Hw Hlen
              (Word_array_searchable [Sample.minum; Sample.makan]) eq_refl)
    as ((sentence & Hs & _) & _ & _ & Hwords & _).
  split; [exact Hwords|]. reflexivity.
Defined.

(** ** The lines of a sentence response *)

Section TrimAndSplit.

Context `{Engine}.

Implicit Types s t : jsstring.

Lemma blank_app s t : blank s -> blank t -> blank (s ++ t).
Proof. unfold blank. intros Hs Ht. apply Forall_app. split; assumption. Qed.

Lemma blank_rev s : blank s -> blank (rev s).
Proof.
  unfold blank. rewrite !Forall_forall. intros Hs c Hc. apply Hs.
  apply list_elem_of_In. apply list_elem_of_In in Hc. apply in_rev. exact Hc.
Qed.

(** [trimStart] drops a blank prefix and stops at a character that is not
    white space. *)
Lemma trimStart_spec s :
  (exists w, s = w ++ trimStart s /\ blank w)
  /\ forall c, head (trimStart s) = Some c -> isWhiteSpace c = false.
Proof.
  induction s as [|c s [(w & Hw & Hb) Hhead]]; simpl.
  - split; [exists []; split; [reflexivity | constructor] | discriminate].
  - destruct (isWhiteSpace c) eqn:Hc.
    + split; [|exact Hhead]. exists (c :: w). split; [simpl; congruence|].
      constructor; assumption.
    + split; [exists []; split; [reflexivity | constructor]|].
      simpl. intros c' [= <-]. exact Hc.
Qed.

Lemma trimEnd_spec t :
  (exists w, t = trimEnd t ++ w /\ blank w)
  /\ forall c, last (trimEnd t) = Some c -> isWhiteSpace c = false.
Proof.
  unfold trimEnd. destruct (trimStart_spec (rev t)) as [(w & Hw & Hb) Hhead]. split.
  - exists (rev w). split; [|apply blank_rev, Hb].
    rewrite <- rev_app_distr, <- Hw, rev_involutive. reflexivity.
  - intros c Hc. apply Hhead. rewrite <- Hc.
    destruct (trimStart (rev t)) as [|x l]; [reflexivity|].
    simpl. rewrite last_snoc. reflexivity.
Qed.

(** [trim] takes a blank prefix and a blank suffix away and leaves a text
    that neither starts nor ends with white space. *)
Lemma trim_spec s :
  (exists w1 w2, s = w1 ++ trim s ++ w2 /\ blank w1 /\ blank w2)
  /\ (forall c, head (trim s) = Some c -> isWhiteSpace c = false)
  /\ (forall c, last (trim s) = Some c -> isWhiteSpace c = false).
Proof.
  unfold trim.
  destruct (trimStart_spec s) as [(w1 & Hw1 & Hb1) Hhead].
  destruct (trimEnd_spec (trimStart s)) as [(w2 & Hw2 & Hb2) Hlast].
  split; [|split].
  - exists w1, w2. split; [|split; assumption]. rewrite <- Hw2. exact Hw1.
  - intros c Hc. apply Hhead. rewrite Hw2.
    destruct (trimEnd (trimStart s)); [discriminate | exact Hc].
  - exact Hlast.
Qed.

Lemma trim_not_blank s : trim s = [] -> blank s.
Proof.
  intros Ht. destruct (trim_spec s) as [(w1 & w2 & Hs & Hb1 & Hb2) _].
  rewrite Ht in Hs. rewrite Hs. apply blank_app; assumption.
Qed.

Lemma truthy_trim s : truthy (trim s) = true <-> ~ blank s.
Proof.
  split.
  - intros Ht Hb. rewrite (trim_blank s Hb) in Ht. discriminate.
  - intros Hnb. destruct (trim s) eqn:Ht; [|reflexivity].
    exfalso. apply Hnb, trim_not_blank, Ht.
Qed.

Lemma trim_substring s : exists pre suf, s = pre ++ trim s ++ suf.
Proof. destruct (trim_spec s) as [(w1 & w2 & Hs & _) _]. eauto. Qed.

Lemma trim_In s c : In c (trim s) -> In c s.
Proof.
  destruct (trim_substring s) as (pre & suf & Hs). intros Hc. rewrite Hs.
  apply in_or_app. right. apply in_or_app. left. exact Hc.
Qed.

(** The pieces of [split] hold no separator, and joining them with the
    separator gives the text back. *)
Lemma split_pieces (sep : N) s :
  Forall (fun piece => ~ In sep piece) (split sep s)
  /\ join [sep] (split sep s) = s
  /\ split sep s <> [].
Proof.
  induction s as [|c s (Hall & Hjoin & Hne)]; simpl.
  - split; [repeat constructor; intros []|]. split; [reflexivity | discriminate].
  - destruct (N.eqb_spec c sep) as [->|Hc].
    + split; [constructor; [intros []|exact Hall]|]. split; [|discriminate].
      destruct (split sep s) as [|p ps] eqn:E; [congruence|].
      cbn [join]. simpl. rewrite <- Hjoin.
      destruct ps; reflexivity.
    + destruct (split sep s) as [|p ps] eqn:E; [congruence|].
      apply Forall_cons in Hall as [Hp Hps].
      split; [constructor; [|exact Hps]|].
      * intros [E'|Hin]; [congruence | exact (Hp Hin)].
      * split; [|discriminate]. rewrite <- Hjoin. destruct ps; reflexivity.
Qed.

Lemma nth_split_no_sep (sep : N) s (i : nat) : ~ In sep (nth i (split sep s) []).
Proof.
  destruct (split_pieces sep s) as (Hall & _ & _).
  rewrite Forall_forall in Hall.
  destruct (nth_in_or_default i (split sep s) []) as [Hin | ->]; [|intros []].
  apply Hall, list_elem_of_In, Hin.
Qed.

Lemma join_piece_substring (sep : jsstring) (pieces : list jsstring) (i : nat) :
  exists pre suf, join sep pieces = pre ++ nth i pieces [] ++ suf.
Proof.
  revert i. induction pieces as [|p ps IH]; intros i.
  - exists [], []. destruct i; reflexivity.
  - destruct i as [|i].
    + destruct ps as [|q ps]; [exists [], []; simpl; rewrite app_nil_r; reflexivity|].
      exists [], (sep ++ join sep (q :: ps)). reflexivity.
    + destruct ps as [|q ps].
      * exists p, []. destruct i; simpl; rewrite app_nil_r; reflexivity.
      * destruct (IH i) as (pre & suf & Hj).
        exists (p ++ sep ++ pre), suf.
        change (join sep (p :: q :: ps)) with (p ++ sep ++ join sep (q :: ps)).
        rewrite Hj. simpl nth. rewrite <- !app_assoc. reflexivity.
Qed.

Lemma nth_split_substring (sep : N) s (i : nat) :
  exists pre suf, s = pre ++ nth i (split sep s) [] ++ suf.
Proof.
  destruct (split_pieces sep s) as (_ & Hjoin & _).
  destruct (join_piece_substring [sep] (split sep s) i) as (pre & suf & Hj).
  rewrite Hjoin in Hj. eauto.
Qed.

(** A trimmed line of a text: part of the text, without line feed, without
    white space at its ends. *)
Lemma trimmed_line (text : jsstring) (i : nat) :
  let line := trim (nth i (split 10 text) []) in
  (exists pre suf, text = pre ++ line ++ suf)
  /\ ~ In 10%N line
  /\ (forall c, head line = Some c -> isWhiteSpace c = false)
  /\ (forall c, last line = Some c -> isWhiteSpace c = false).
Proof.
  intros line. unfold line.
  destruct (trim_spec (nth i (split 10 text) [])) as [_ [Hhead Hlast]].
  split; [|split; [|split; assumption]].
  - destruct (nth_split_substring 10 text i) as (pre & suf & Ht).
    destruct (trim_substring (nth i (split 10 text) [])) as (pre' & suf' & Hl).
    exists (pre ++ pre'), (suf' ++ suf).
    rewrite Ht at 1. rewrite Hl at 1. rewrite <- !app_assoc. reflexivity.
  - intros Hin. apply trim_In in Hin. exact (nth_split_no_sep 10 text i Hin).
Qed.

End TrimAndSplit.

(** X4.  Both texts of a generated sentence are contiguous parts of the
    response text, contain no line feed, and neither start nor end with
    white space (either may be empty). *)
Theorem sentence_fields_are_clean `{Engine} (shuffled : list json) (r s : AppState)
    (now : Z) (text : jsstring) (ws ss : list json) :
  words r = JArr ws -> (2 <= length ws)%nat -> Forall searchable shuffled ->
  generatedSentences r = JArr ss ->
  exists myanmar indonesian,
    generatedSentences
      (apply_setters
         (handleGenerateSentence true shuffled r now (Resolved (Some text))) s)
    = JArr (Sentence.literal (Number_toString now) myanmar indonesian :: ss)
    /\ Forall
         (fun line =>
            (exists pre suf, text = pre ++ line ++ suf)
            /\ ~ In 10%N line
            /\ (forall c, head line = Some c -> isWhiteSpace c = false)
            /\ (forall c, last line = Some c -> isWhiteSpace c = false))
         [myanmar; indonesian].
Proof.
  intros Hw Hlen Hall Hss.
  rewrite (generate_sent shuffled r now _ ws Hw Hlen Hall).
  rewrite (generated_sentence r now text ss) by (rewrite Hss; reflexivity).
  eexists _, _. split; [reflexivity|].
  repeat constructor; apply trimmed_line.
Qed.

Lemma sentence_fields_are_clean_witness :
  let ws := List.map Word.value [Sample.minum; Sample.makan] in
  words Sample.stocked = JArr ws
  /\ (2 <= length ws)%nat
  /\ exists myanmar indonesian,
       generatedSentences
         (apply_setters
            (handleGenerateSentence (H := BasicLatin.engine) true ws Sample.stocked
               1700000000999 (Resolved (Some Sample.padded_response)))
            Sample.stocked)
       = JArr (Sentence.literal (js "1700000000999") myanmar indonesian
               :: [Sentence.value Sample.greeting])
       /\ ~ In 10%N myanmar.
Proof.
  intros ws.
  assert (Hw : words Sample.stocked = JArr ws) by reflexivity.
  assert (Hlen : (2 <= length ws)%nat) by (simpl; lia).
  split; [exact Hw|]. split; [exact Hlen|].
  destruct (sentence_fields_are_clean (H := BasicLatin.engine) ws Sample.stocked
              Sample.stocked 1700000000999 Sample.padded_response ws
              [Sentence.value Sample.greeting] Hw Hlen
              (Word_array_searchable [Sample.minum; Sample.makan]) eq_refl)
    as (myanmar & indonesian & Hs & Hall).
  exists myanmar, indonesian. split; [exact Hs|].
  apply Forall_cons in Hall as [(_ & Hno & _) _]. exact Hno.
Defined.

(** ** The words named in a sentence request *)

(** X5.  With a key and at least two words that hold strings, whatever
    order the shuffle leaves the words in, the request names the Indonesian
    texts of the first [min(n, 4)] of them: between two and four words, each
    one from the word collection and none more often than it occurs
    there. *)
Theorem sentence_request_names_two_to_four_words `{Engine} (shuffled : list json)
    (r : AppState) (ws : list json) :
  words r = JArr ws ->
  shuffled ≡ₚ ws ->
  (2 <= length ws)%nat ->
  Forall searchable ws ->
  awaits (handleGenerateSentence_begin true shuffled r)
  = Some {| prompt :=
              sentence_prompt
                (join (js ", ")
                   (List.map (text_of (js "indonesian")) (selectedWords shuffled)));
            json_schema := false |}
  /\ length (selectedWords shuffled) = Nat.min (length ws) 4
  /\ (2 <= length (selectedWords shuffled) <= 4)%nat
  /\ selectedWords shuffled ⊆+ ws.
Proof.
  intros Hw Hperm Hlen Hall.
  assert (Hl : length shuffled = length ws) by (apply Permutation_length, Hperm).
  assert (Hsel : length (selectedWords shuffled) = Nat.min (length ws) 4).
  { unfold selectedWords. rewrite length_take, Hl. lia. }
  split.
  - rewrite (generate_begin_sends shuffled r ws Hw Hlen); [reflexivity|].
    rewrite Hperm. exact Hall.
  - split; [exact Hsel|]. split; [lia|].
    rewrite <- Hperm. apply sublist_submseteq. unfold selectedWords. apply sublist_take.
Qed.

Lemma sentence_request_names_two_to_four_words_witness :
  let ws := List.map Word.value [Sample.minum; Sample.makan] in
  let shuffled := List.map Word.value [Sample.makan; Sample.minum] in
  words Sample.stocked = JArr ws
  /\ shuffled ≡ₚ ws
  /\ (2 <= length ws)%nat
  /\ awaits (handleGenerateSentence_begin (H := BasicLatin.engine) true shuffled
               Sample.stocked)
     = Some {| prompt := sentence_prompt (js "makan, minum"); json_schema := false |}.
Proof.
  intros ws shuffled.
  assert (Hw : words Sample.stocked = JArr ws) by reflexivity.
  assert (Hperm : shuffled ≡ₚ ws) by apply perm_swap.
  assert (Hlen : (2 <= length ws)%nat) by (simpl; lia).
  split; [exact Hw|]. split; [exact Hperm|]. split; [exact Hlen|].
  destruct (sentence_request_names_two_to_four_words (H := BasicLatin.engine)
              shuffled Sample.stocked ws Hw Hperm Hlen
              (Word_array_searchable [Sample.minum; Sample.makan])) as (Hreq & _).
  exact Hreq.
Defined.

(** ** Deleting, again *)

Section Filters.

Context {A : Type}.
Implicit Types (f g : A -> bool) (l : list A).

Lemma filter_filter f g l :
  List.filter f (List.filter g l) = List.filter (fun x => g x && f x) l.
Proof.
  induction l as [|x l IH]; simpl; [reflexivity|].
  destruct (g x); simpl; [destruct (f x)|]; rewrite IH; reflexivity.
Qed.

Lemma filter_ext_bool f g l :
  (forall x, f x = g x) -> List.filter f l = List.filter g l.
Proof.
  intros Hfg. induction l as [|x l IH]; simpl; [reflexivity|].
  rewrite Hfg, IH. reflexivity.
Qed.

Lemma filter_twice f l : List.filter f (List.filter f l) = List.filter f l.
Proof.
  rewrite filter_filter. apply filter_ext_bool. intros x. destruct (f x); reflexivity.
Qed.

Lemma filter_swap f g l :
  List.filter f (List.filter g l) = List.filter g (List.filter f l).
Proof.
  rewrite !filter_filter. apply filter_ext_bool. intros x. apply andb_comm.
Qed.

Lemma filter_implied f g l :
  (forall x, f x = true -> g x = true) ->
  List.filter f l = List.filter f (List.filter g l).
Proof.
  intros Hfg. rewrite filter_filter. apply filter_ext_bool. intros x.
  destruct (f x) eqn:Hf; [rewrite (Hfg x Hf)|destruct (g x)]; reflexivity.
Qed.

Lemma forallb_filter f g l : forallb f l = true -> forallb f (List.filter g l) = true.
Proof.
  induction l as [|x l IH]; simpl; [reflexivity|].
  intros Hx. apply andb_true_iff in Hx as [Hx Hl].
  destruct (g x); simpl; [rewrite Hx|]; auto.
Qed.

Lemma filter_all_in f l : (forall x, In x l -> f x = true) -> List.filter f l = l.
Proof.
  induction l as [|x l IH]; simpl; [reflexivity|]. intros Hf.
  rewrite (Hf x (or_introl eq_refl)), IH; [reflexivity|].
  intros y Hy. apply Hf. right. exact Hy.
Qed.

(** A filter that did not throw, applied to a part of the list. *)
Lemma filter_from_filter (keep : A -> option bool) g l (rows : list A) (i j : nat) :
  filter_from i (fun _ => keep) l = Some rows ->
  filter_from j (fun _ => keep) (List.filter g l) = Some (List.filter g rows).
Proof.
  revert rows i j. induction l as [|x l IH]; intros rows i j; simpl.
  - intros [= <-]. reflexivity.
  - destruct (keep x) as [b|] eqn:Hk; [|discriminate].
    destruct (filter_from (S i) (fun _ => keep) l) as [kept|] eqn:Hrest; [|discriminate].
    intros [= <-]. destruct (g x) eqn:Hg; simpl.
    + rewrite Hk, (IH kept (S i) (S j) Hrest). destruct b; simpl; rewrite ?Hg; reflexivity.
    + rewrite (IH kept (S i) j Hrest). destruct b; simpl; rewrite ?Hg; reflexivity.
Qed.

End Filters.

Section DeletingAgain.

Context `{Engine}.

Lemma differs_from_spec (id : jsstring) (record : json) :
  differs_from id record = true <-> id_of record <> Some (JStr id).
Proof.
  unfold differs_from, id_of.
  destruct (field record (js "id")) as [[]|]; try (split; [discriminate | reflexivity]).
  rewrite negb_true_iff, strict_equal_false. split; congruence.
Qed.

Lemma differs_from_own_id (id myanmar : jsstring) (indonesian type : json) :
  differs_from id (Word.literal id myanmar indonesian type) = false.
Proof.
  unfold differs_from.
  change (field (Word.literal id myanmar indonesian type) (js "id")) with (Some (JStr id)).
  cbv beta iota. rewrite strict_equal_refl. reflexivity.
Qed.

Lemma has_properties_spec (v : json) (name : jsstring) :
  has_properties v = true <-> field v name <> None.
Proof. destruct v; simpl; split; congruence. Qed.

(** What [collection.filter(x => x.id !== id)] comes to for a string
    [id]: it throws when an element has no properties. *)
Lemma filter_by_string_id (id : jsstring) (from : nat) (records : list json) (i : nat) :
  filter_from i
    (fun i record =>
       match field record (js "id") with
       | Some record_id => Some (strict_unequal record_id (JStr id) (i =? from)%nat)
       | None => None
       end) records
  = if forallb has_properties records
    then Some (List.filter (differs_from id) records) else None.
Proof.
  revert i. induction records as [|x records IH]; intros i; [reflexivity|].
  cbn [filter_from forallb List.filter]. rewrite IH. unfold differs_from.
  destruct x; cbn [field has_properties andb]; try reflexivity;
    destruct (forallb has_properties records); try reflexivity.
  - destruct (property members (js "id")) as [[]|]; reflexivity.
Qed.

Lemma without_id_string (id : jsstring) (from : nat) (records : list json) :
  without_id (JArr records) (JStr id) from
  = if forallb has_properties records
    then Some (JArr (List.filter (differs_from id) records)) else None.
Proof.
  unfold without_id. rewrite filter_by_string_id.
  destruct (forallb has_properties records); reflexivity.
Qed.

(** The state after a deletion by a string id. *)
Lemma delete_word_state (s : AppState) (id : jsstring) (from : nat) :
  apply_setters (handleDeleteWord s (JStr id) from) s
  = match words s with
    | JArr ws =>
        if forallb has_properties ws
        then apply_setter s (setWords (JArr (List.filter (differs_from id) ws)))
        else s
    | _ => s
    end.
Proof.
  unfold handleDeleteWord. destruct (words s) eqn:Hw; try reflexivity.
  rewrite without_id_string. destruct (forallb has_properties items); reflexivity.
Qed.

Lemma delete_sentence_state (s : AppState) (id : jsstring) (from : nat) :
  apply_setters (handleDeleteSentence s (JStr id) from) s
  = match generatedSentences s with
    | JArr ss =>
        if forallb has_properties ss
        then apply_setter s
               (setGeneratedSentences (JArr (List.filter (differs_from id) ss)))
        else s
    | _ => s
    end.
Proof.
  unfold handleDeleteSentence. destruct (generatedSentences s) eqn:Hw; try reflexivity.
  rewrite without_id_string. destruct (forallb has_properties items); reflexivity.
Qed.

End DeletingAgain.

(** X6.  Deleting the same id twice is the same as deleting it once, and
    two deletions give the same collection in either order; this holds for
    words and for sentences, whatever the collections hold. *)
Theorem deletions_are_idempotent_and_commute `{Engine} (s : AppState) (a b : jsstring)
    (i j : nat) :
  let delete_word id from s := apply_setters (handleDeleteWord s (JStr id) from) s in
  let delete_sentence id from s :=
    apply_setters (handleDeleteSentence s (JStr id) from) s in
  delete_word a i (delete_word a j s) = delete_word a j s
  /\ delete_word a i (delete_word b j s) = delete_word b j (delete_word a i s)
  /\ delete_sentence a i (delete_sentence a j s) = delete_sentence a j s
  /\ delete_sentence a i (delete_sentence b j s)
     = delete_sentence b j (delete_sentence a i s).
Proof.
  cbn zeta. split; [|split; [|split]].
  - rewrite (delete_word_state s a j).
    destruct (words s) eqn:Hw; try (rewrite delete_word_state, Hw; reflexivity).
    destruct (forallb has_properties items) eqn:Hp;
      [|rewrite delete_word_state, Hw, Hp; reflexivity].
    rewrite delete_word_state. cbn [apply_setter words].
    rewrite (forallb_filter _ _ _ Hp), filter_twice. reflexivity.
  - rewrite (delete_word_state s b j), (delete_word_state s a i).
    destruct (words s) eqn:Hw; try (rewrite !delete_word_state, Hw; reflexivity).
    destruct (forallb has_properties items) eqn:Hp;
      [|rewrite !delete_word_state, Hw, Hp; reflexivity].
    rewrite !delete_word_state. cbn [apply_setter words].
    rewrite !(forallb_filter _ _ _ Hp), filter_swap. reflexivity.
  - rewrite (delete_sentence_state s a j).
    destruct (generatedSentences s) eqn:Hw;
      try (rewrite delete_sentence_state, Hw; reflexivity).
    destruct (forallb has_properties items) eqn:Hp;
      [|rewrite delete_sentence_state, Hw, Hp; reflexivity].
    rewrite delete_sentence_state. cbn [apply_setter generatedSentences].
    rewrite (forallb_filter _ _ _ Hp), filter_twice. reflexivity.
  - rewrite (delete_sentence_state s b j), (delete_sentence_state s a i).
    destruct (generatedSentences s) eqn:Hw;
      try (rewrite !delete_sentence_state, Hw; reflexivity).
    destruct (forallb has_properties items) eqn:Hp;
      [|rewrite !delete_sentence_state, Hw, Hp; reflexivity].
    rewrite !delete_sentence_state. cbn [apply_setter generatedSentences].
    rewrite !(forallb_filter _ _ _ Hp), filter_swap. reflexivity.
Qed.

(** X7.  Saving a word and then deleting the id it was given brings the
    word collection back to what it was, provided no earlier record carries
    that id (and every element of the collection has properties). *)
Theorem save_then_delete_restores `{Engine} (r : AppState) (now : Z)
    (text : jsstring) (members : list (jsstring * json)) (t c : jsstring)
    (ws : list json) (from : nat) :
  truthy (trim (newMyanmarWord r)) = true ->
  words r = JArr ws ->
  Forall (fun record => id_of record <> None) ws ->
  JSON_parse text = Some (JObj members) ->
  property members (js "indonesianTranslation") = Some (JStr t) ->
  property members (js "wordType") = Some (JStr c) ->
  ~ In (Some (JStr (Number_toString now))) (List.map id_of ws) ->
  let saved := apply_setters (handleSaveWord true r now (Resolved (Some text))) r in
  words saved
  = JArr (Word.literal (Number_toString now) (newMyanmarWord r) (JStr t) (JStr c) :: ws)
  /\ words (apply_setters (handleDeleteWord saved (JStr (Number_toString now)) from)
              saved)
     = words r.
Proof.
  intros Hin Hw Hall Hparse Ht Hc Hfresh. cbn zeta.
  rewrite (handleSaveWord_sent r now _ Hin).
  rewrite (resume_translated r now text (JObj members) (JStr t) (JStr c) ws Hparse
             (destructure_object members _ _ Ht Hc))
    by (rewrite Hw; reflexivity).
  split; [reflexivity|].
  rewrite delete_word_state. cbn [apply_setters fold_left app apply_setter words].
  assert (Hp : forallb has_properties
                 (Word.literal (Number_toString now) (newMyanmarWord r) (JStr t) (JStr c)
                  :: ws) = true).
  { cbn [forallb Word.literal has_properties andb]. apply forallb_forall.
    intros x Hx. apply (has_properties_spec x (js "id")).
    rewrite Forall_forall in Hall. apply Hall, list_elem_of_In, Hx. }
  rewrite Hp. cbn [apply_setter words List.filter].
  rewrite differs_from_own_id, Hw. f_equal.
  apply filter_all_in. intros x Hx. apply differs_from_spec. intros Hid.
  apply Hfresh. rewrite <- Hid. apply in_map, Hx.
Qed.

Lemma save_then_delete_restores_witness :
  let ws := List.map Word.value [Sample.minum; Sample.makan] in
  let saved :=
    apply_setters
      (handleSaveWord (H := BasicLatin.engine) true Sample.stocked 1700000000777
         (Resolved (Some Sample.translate_response))) Sample.stocked in
  truthy (trim (newMyanmarWord Sample.stocked)) = true
  /\ ~ In (Some (JStr (Number_toString 1700000000777))) (List.map id_of ws)
  /\ words (apply_setters
              (handleDeleteWord (H := BasicLatin.engine) saved
                 (JStr (Number_toString 1700000000777)) 0) saved)
     = words Sample.stocked.
Proof.
  intros ws saved.
  assert (Hin : truthy (trim (newMyanmarWord Sample.stocked)) = true) by reflexivity.
  assert (Hfresh : ~ In (Some (JStr (Number_toString 1700000000777)))
                       (List.map id_of ws)).
  { vm_compute. intros [E|[E|[]]]; discriminate E. }
  split; [exact Hin|]. split; [exact Hfresh|].
  apply (save_then_delete_restores (H := BasicLatin.engine) Sample.stocked
           1700000000777 Sample.translate_response
           [(js "indonesianTranslation", JStr (js "makan"));
            (js "wordType", JStr (js "Verb"))] (js "makan") (js "Verb") ws 0 Hin
           eq_refl (Word_array_ids [Sample.minum; Sample.makan]));
    try (vm_compute; reflexivity).
  exact Hfresh.
Defined.

(** ** Searching, again *)

Section SearchingAgain.

Context `{Engine}.

(** A filter that does not throw has met only values with properties. *)
Lemma filteredWords_properties (s : AppState) (ws rows : list json) :
  words s = JArr ws -> filteredWords s = Some rows ->
  forallb has_properties ws = true.
Proof.
  intros Hw. unfold filteredWords. rewrite Hw. clear Hw.
  generalize 0%nat. revert rows.
  induction ws as [|x ws IH]; intros rows i; [reflexivity|]. simpl.
  destruct (matches_search (searchTerm s) x) as [b|] eqn:Hm; [|discriminate].
  destruct (filter_from (S i) _ ws) as [kept|] eqn:Hrest; [|discriminate].
  intros _. rewrite (IH kept (S i) Hrest), andb_true_r.
  unfold matches_search in Hm. destruct x; try discriminate; reflexivity.
Qed.

(** On words that hold strings the filter is an ordinary one. *)
Lemma filteredWords_searchable (s : AppState) (ws : list json) :
  words s = JArr ws -> Forall searchable ws ->
  filteredWords s = Some (List.filter (finds (searchTerm s)) ws).
Proof.
  intros Hw Hall. unfold filteredWords. rewrite Hw. apply filter_from_total.
  intros _ x Hx. rewrite Forall_forall in Hall.
  destruct (matches_search_total (searchTerm s) x (Hall x (proj2 (list_elem_of_In _ _) Hx)))
    as [b Hb].
  unfold finds. rewrite Hb. destruct b; reflexivity.
Qed.

Lemma includes_trans (s t u : jsstring) :
  includes s t = true -> includes t u = true -> includes s u = true.
Proof.
  rewrite !includes_spec. intros (p1 & s1 & ->) (p2 & s2 & ->).
  exists (p1 ++ p2), (s2 ++ s1). rewrite <- !app_assoc. reflexivity.
Qed.

(** A word that a term finds is found by every term whose lower-cased form
    occurs in the lower-cased form of that term. *)
Lemma finds_shorter (shorter longer : jsstring) (word : json) :
  lowered_substring shorter longer ->
  finds longer word = true -> finds shorter word = true.
Proof.
  intros Hsub. apply includes_spec in Hsub.
  unfold finds, matches_search.
  destruct (field word (js "myanmar")) as [[]|]; cbn [lower_includes]; try discriminate.
  destruct (includes (toLowerCase s) (toLowerCase longer)) eqn:Hm.
  - rewrite (includes_trans _ _ _ Hm Hsub). reflexivity.
  - destruct (field word (js "indonesian")) as [[]|]; cbn [lower_includes];
      try discriminate.
    destruct (includes (toLowerCase s0) (toLowerCase longer)) eqn:Hi; [|discriminate].
    intros _. destruct (includes (toLowerCase s) (toLowerCase shorter)); [reflexivity|].
    rewrite (includes_trans _ _ _ Hi Hsub). reflexivity.
Qed.

End SearchingAgain.

(** X8.  Deleting a word takes exactly the records with that id out of the
    search results and leaves the other results in place: the results after
    the deletion are the results before it without those records. *)
Theorem delete_acts_on_the_results `{Engine} (s : AppState) (id : jsstring)
    (from : nat) (ws rows : list json) :
  words s = JArr ws ->
  filteredWords s = Some rows ->
  let after := apply_setters (handleDeleteWord s (JStr id) from) s in
  let left := List.filter (differs_from id) rows in
  filteredWords after = Some left
  /\ exactly_those (fun word => id_of word <> Some (JStr id)) rows left
  /\ forall word, In word left -> id_of word <> Some (JStr id).
Proof.
  intros Hw Hrows after left.
  assert (Heq : filteredWords after = Some left).
  { unfold after. rewrite delete_word_state, Hw.
    rewrite (filteredWords_properties s ws rows Hw Hrows).
    unfold filteredWords in *. cbn [apply_setter words searchTerm].
    rewrite Hw in Hrows. exact (filter_from_filter _ _ _ _ _ _ Hrows). }
  assert (Hsel : exactly_those (fun word => id_of word <> Some (JStr id)) rows left).
  { apply filter_exactly_those. intros word. apply differs_from_spec. }
  split; [exact Heq|]. split; [exact Hsel|].
  intros word Hin. apply (exactly_those_In _ _ _ Hsel word). exact Hin.
Qed.

Lemma delete_acts_on_the_results_witness :
  let s := apply_setter Sample.stocked (setSearchTerm (js "m")) in
  let after :=
    apply_setters
      (handleDeleteWord (H := BasicLatin.engine) s (JStr (js "1700000000555")) 0) s in
  filteredWords (H := BasicLatin.engine) s
  = Some (List.map Word.value [Sample.minum; Sample.makan])
  /\ filteredWords (H := BasicLatin.engine) after = Some [Word.value Sample.makan].
Proof.
  intros s after.
  assert (Hrows : filteredWords (H := BasicLatin.engine) s
                  = Some (List.map Word.value [Sample.minum; Sample.makan]))
    by reflexivity.
  split; [exact Hrows|].
  destruct (delete_acts_on_the_results (H := BasicLatin.engine) s (js "1700000000555") 0
              _ _ eq_refl Hrows) as (Hafter & _).
  exact Hafter.
Defined.

(** X9.  When the lower-cased form of one search term occurs in the
    lower-cased form of another, the longer term finds no more than the
    shorter: on words that hold strings its results are the shorter term's
    results searched again, in the same order.  With a case mapping that
    works unit by unit this is so whenever the shorter term is a
    case-insensitive substring of the longer. *)
Theorem longer_term_narrows_the_results `{Engine} (s : AppState)
    (shorter longer : jsstring) (ws : list json) :
  words s = JArr ws -> Forall searchable ws ->
  lowered_substring shorter longer
  \/ (unit_by_unit /\ ci_substring shorter longer) ->
  exists wide narrow,
    filteredWords (apply_setter s (setSearchTerm shorter)) = Some wide
    /\ filteredWords (apply_setter s (setSearchTerm longer)) = Some narrow
    /\ narrow = List.filter (finds longer) wide
    /\ sublist narrow wide.
Proof.
  intros Hw Hall Hsub.
  assert (Hlow : lowered_substring shorter longer).
  { destruct Hsub as [Hl|[Hu Hci]]; [exact Hl|]. apply (lowered_is_ci _ _ Hu), Hci. }
  exists (List.filter (finds shorter) ws), (List.filter (finds longer) ws).
  split; [exact (filteredWords_searchable (apply_setter s (setSearchTerm shorter)) ws Hw Hall)|].
  split; [exact (filteredWords_searchable (apply_setter s (setSearchTerm longer)) ws Hw Hall)|].
  assert (Heq : List.filter (finds longer) ws
                = List.filter (finds longer) (List.filter (finds shorter) ws)).
  { apply filter_implied. intros word. apply finds_shorter, Hlow. }
  split; [exact Heq|]. rewrite Heq at 1.
  apply (exactly_those_sublist (fun word => finds longer word = true)).
  apply filter_exactly_those. intros word. reflexivity.
Qed.

Lemma longer_term_narrows_the_results_witness :
  let ws := List.map Word.value [Sample.minum; Sample.makan] in
  ci_substring (H := BasicLatin.engine) (js "m") (js "MAK")
  /\ filteredWords (H := BasicLatin.engine)
       (apply_setter Sample.stocked (setSearchTerm (js "m"))) = Some ws
  /\ filteredWords (H := BasicLatin.engine)
       (apply_setter Sample.stocked (setSearchTerm (js "MAK")))
     = Some [Word.value Sample.makan]
  /\ sublist [Word.value Sample.makan] ws.
Proof.
  intros ws.
  assert (Hsub : ci_substring (H := BasicLatin.engine) (js "m") (js "MAK"))
    by (exists [], (js "M"), (js "AK"); split; reflexivity).
  split; [exact Hsub|].
  destruct (longer_term_narrows_the_results (H := BasicLatin.engine) Sample.stocked
              (js "m") (js "MAK") ws eq_refl
              (Word_array_searchable [Sample.minum; Sample.makan])
              (or_intror (conj BasicLatin_unit_by_unit Hsub)))
    as (wide & narrow & Hwide & Hnarrow & _ & Hsl).
  assert (Ew : wide = ws) by (vm_compute in Hwide; injection Hwide as <-; reflexivity).
  assert (En : narrow = [Word.value Sample.makan])
    by (vm_compute in Hnarrow; injection Hnarrow as <-; reflexivity).
  subst wide narrow. split; [exact Hwide|]. split; [exact Hnarrow | exact Hsl].
Defined.

(** ** Persistence, again *)

Section Storage.

Context `{Engine}.

Implicit Types (storage : gmap jsstring jsstring) (w : World).

Lemma commit_other_key (batch : list setter) w (k : jsstring) :
  k <> words_key -> k <> sentences_key ->
  localStorage (commit batch w) !! k = localStorage w !! k.
Proof.
  intros Hw Hs. unfold commit, saveWordsEffect, saveSentencesEffect.
  destruct (renders (state w)); [|reflexivity].
  destruct (renders (apply_setters batch (state w))); [|reflexivity].
  cbn [localStorage].
  destruct (mutates_words batch), (mutates_sentences batch);
    rewrite ?lookup_insert_ne by congruence; reflexivity.
Qed.

Lemma commit_words_entry_kept (batch : list setter) w :
  mutates_words batch = false ->
  localStorage (commit batch w) !! words_key = localStorage w !! words_key.
Proof.
  intros Hm. unfold commit, saveSentencesEffect. rewrite Hm.
  destruct (renders (state w)); [|reflexivity].
  destruct (renders (apply_setters batch (state w))); [|reflexivity].
  cbn [localStorage].
  destruct (mutates_sentences batch); [|reflexivity].
  apply lookup_insert_ne. intros E. symmetry in E. exact (keys_differ E).
Qed.

Lemma commit_sentences_entry_kept (batch : list setter) w :
  mutates_sentences batch = false ->
  localStorage (commit batch w) !! sentences_key = localStorage w !! sentences_key.
Proof.
  intros Hm. unfold commit. rewrite Hm.
  destruct (renders (state w)); [|reflexivity].
  destruct (renders (apply_setters batch (state w))); [|reflexivity].
  cbn [localStorage].
  destruct (mutates_words batch); [|reflexivity].
  unfold saveWordsEffect. apply lookup_insert_ne, keys_differ.
Qed.

Lemma commit_keeps_entries (batch : list setter) w (k : jsstring) :
  is_Some (localStorage w !! k) -> is_Some (localStorage (commit batch w) !! k).
Proof.
  intros Hk. unfold commit, saveWordsEffect, saveSentencesEffect.
  destruct (renders (state w)); [|exact Hk].
  destruct (renders (apply_setters batch (state w))); [|exact Hk].
  cbn [localStorage].
  destruct (mutates_words batch), (mutates_sentences batch);
    rewrite ?lookup_insert; repeat case_decide; eauto.
Qed.

(** The calls of the load effect set collections only. *)
Lemma loadEffect_calls storage (batch : list setter) :
  loadEffect storage = Some batch ->
  forall s,
    newMyanmarWord (apply_setters batch s) = newMyanmarWord s
    /\ searchTerm (apply_setters batch s) = searchTerm s
    /\ loading (apply_setters batch s) = loading s
    /\ error (apply_setters batch s) = error s.
Proof.
  unfold loadEffect.
  destruct (read_entry (storage !! words_key));
    destruct (read_entry (storage !! sentences_key));
    try discriminate; intros [= <-] s; repeat split.
Qed.

Lemma mount_other_key storage w (k : jsstring) :
  mount storage = Some w ->
  k <> words_key -> k <> sentences_key ->
  localStorage w !! k = storage !! k.
Proof.
  unfold mount. destruct (loadEffect storage) as [batch|]; [|discriminate].
  intros [= <-] Hw Hs. rewrite commit_other_key by assumption.
  cbn [localStorage]. unfold saveSentencesEffect, saveWordsEffect.
  rewrite !lookup_insert_ne by congruence. reflexivity.
Qed.

Lemma read_entry_absent (item : option jsstring) :
  item = None \/ item = Some [] -> read_entry item = Absent.
Proof. intros [->| ->]; reflexivity. Qed.

Lemma read_entry_malformed (text : jsstring) :
  truthy text = true -> JSON_parse text = None ->
  read_entry (Some text) = Malformed.
Proof. intros Ht Hp. unfold read_entry. rewrite Ht, Hp. reflexivity. Qed.

(** An entry that parses is handed to the setter as it is. *)
Lemma read_entry_stored (text : jsstring) (v : json) :
  truthy text = true -> JSON_parse text = Some v ->
  read_entry (Some text) = Stored v.
Proof. intros Ht Hp. unfold read_entry. rewrite Ht, Hp. reflexivity. Qed.

End Storage.

(** X10.  The component writes no entry of [localStorage] other than
    ["words"] and ["sentences"], neither in a batch nor at the mount; a
    batch writes the words entry only when it sets the words and the
    sentences entry only when it sets the sentences; and no entry is ever
    removed. *)
Theorem only_two_entries_are_written `{Engine} (batch : list setter) (w : World)
    (storage : gmap jsstring jsstring) :
  (forall k, k <> words_key -> k <> sentences_key ->
     localStorage (commit batch w) !! k = localStorage w !! k)
  /\ (mutates_words batch = false ->
      localStorage (commit batch w) !! words_key = localStorage w !! words_key)
  /\ (mutates_sentences batch = false ->
      localStorage (commit batch w) !! sentences_key = localStorage w !! sentences_key)
  /\ (forall k, is_Some (localStorage w !! k) ->
      is_Some (localStorage (commit batch w) !! k))
  /\ (forall w', mount storage = Some w' ->
      forall k, k <> words_key -> k <> sentences_key ->
        localStorage w' !! k = storage !! k).
Proof.
  split; [intros k; apply commit_other_key|].
  split; [apply commit_words_entry_kept|].
  split; [apply commit_sentences_entry_kept|].
  split; [intros k; apply commit_keeps_entries|].
  intros w' Hm k. apply mount_other_key, Hm.
Qed.

(** X11.  An entry that is missing, or holds the empty string, is not
    parsed: when that is so for both entries, the component mounts with
    both collections empty, the other cells in their initial state, and
    writes ["[]"] under both keys. *)
Theorem absent_entries_start_empty `{Engine} (storage : gmap jsstring jsstring) :
  storage !! words_key = None \/ storage !! words_key = Some [] ->
  storage !! sentences_key = None \/ storage !! sentences_key = Some [] ->
  exists w,
    mount storage = Some w
    /\ state w = initialState
    /\ localStorage w !! words_key = Some (js "[]")
    /\ localStorage w !! sentences_key = Some (js "[]").
Proof.
  intros Hw Hs. unfold mount, loadEffect.
  rewrite (read_entry_absent _ Hw), (read_entry_absent _ Hs).
  eexists. split; [reflexivity|]. split; [reflexivity|].
  rewrite commit_nothing. cbn [localStorage].
  unfold saveSentencesEffect, saveWordsEffect. split.
  - rewrite lookup_insert_ne by (intros E; symmetry in E; exact (keys_differ E)).
    apply lookup_insert_eq.
  - apply lookup_insert_eq.
Qed.

Lemma absent_entries_start_empty_witness :
  let storage : gmap jsstring jsstring := <[words_key := []]> ∅ in
  (storage !! words_key = None \/ storage !! words_key = Some [])
  /\ (storage !! sentences_key = None \/ storage !! sentences_key = Some [])
  /\ exists w, mount (H := BasicLatin.engine) storage = Some w /\ state w = initialState.
Proof.
  intros storage.
  assert (Hw : storage !! words_key = None \/ storage !! words_key = Some [])
    by (right; reflexivity).
  assert (Hs : storage !! sentences_key = None \/ storage !! sentences_key = Some [])
    by (left; reflexivity).
  split; [exact Hw|]. split; [exact Hs|].
  destruct (absent_entries_start_empty (H := BasicLatin.engine) storage Hw Hs)
    as (w & Hm & Hst & _).
  exists w. split; [exact Hm | exact Hst].
Defined.

(** X12.  An entry that is not empty and is not JSON makes the load effect
    throw: [JSON.parse] is called outside any [try], so the component does
    not come up, whatever the other entry holds. *)
Theorem malformed_entry_stops_the_mount `{Engine} (storage : gmap jsstring jsstring)
    (text : jsstring) :
  truthy text = true ->
  JSON_parse text = None ->
  storage !! words_key = Some text \/ storage !! sentences_key = Some text ->
  loadEffect storage = None /\ mount storage = None.
Proof.
  intros Ht Hp Hentry.
  assert (Hload : loadEffect storage = None).
  { unfold loadEffect. destruct Hentry as [Hw|Hs].
    - rewrite Hw, (read_entry_malformed text Ht Hp). reflexivity.
    - rewrite Hs, (read_entry_malformed text Ht Hp).
      destruct (read_entry (storage !! words_key)); reflexivity. }
  split; [exact Hload|]. unfold mount. rewrite Hload. reflexivity.
Qed.

Lemma malformed_entry_stops_the_mount_witness :
  let storage : gmap jsstring jsstring :=
    <[sentences_key := js "[{]"]>
      (<[words_key := JSON_stringify (H := BasicLatin.engine) (Word.array [Sample.makan])]> ∅) in
  truthy (js "[{]") = true
  /\ JSON_parse (js "[{]") = None
  /\ mount (H := BasicLatin.engine) storage = None.
Proof.
  intros storage.
  assert (Ht : truthy (js "[{]") = true) by reflexivity.
  assert (Hp : JSON_parse (js "[{]") = None) by (vm_compute; reflexivity).
  split; [exact Ht|]. split; [exact Hp|].
  apply (malformed_entry_stops_the_mount (H := BasicLatin.engine) storage (js "[{]") Ht Hp).
  right. reflexivity.
Defined.

(** ** A visit of the page *)

Section Visit.

Context `{Engine} (ai speechSynthesis : bool).

(** What a render that returns shows. *)
Lemma render_view (s : AppState) (view : View.t) :
  render s = Some view ->
  exists ws,
    words s = JArr ws
    /\ filteredWords s = Some (View.word_rows view)
    /\ sentence_rows (generatedSentences s) = Some (View.sentence_rows view)
    /\ View.word_input_disabled view = loading s
    /\ View.save_disabled view = loading s
    /\ View.processing view = loading s
    /\ View.create_disabled view = loading s || (length ws <? 2)%nat
    /\ View.banner view = error_banner (error s)
    /\ View.no_words view = (length (View.word_rows view) =? 0)%nat
    /\ View.no_sentences view = (length (View.sentence_rows view) =? 0)%nat
    /\ forallb word_row_renders (View.word_rows view) = true.
Proof.
  unfold render.
  destruct (filteredWords s) as [rows|]; [|discriminate].
  destruct (words s) as [| | | | |ws|]; try discriminate.
  destruct (sentence_rows (generatedSentences s)) as [sentences|]; [|discriminate].
  destruct (forallb word_row_renders rows) eqn:Hrows; [|discriminate].
  intros [= <-]. exists ws. cbn. repeat split; auto.
Qed.

Lemma renders_render (s : AppState) :
  renders s = true <-> exists view, render s = Some view.
Proof.
  unfold renders. destruct (render s) as [view|]; split; eauto; try discriminate.
  intros [view Hv]. discriminate Hv.
Qed.

Lemma mount_state (storage : gmap jsstring jsstring) (w : World) :
  mount storage = Some w ->
  newMyanmarWord (state w) = [] /\ searchTerm (state w) = []
  /\ loading (state w) = false /\ error (state w) = None.
Proof.
  unfold mount. destruct (loadEffect storage) as [batch|] eqn:Hload; [|discriminate].
  intros [= <-]. rewrite commit_state by reflexivity. cbn [state].
  exact (loadEffect_calls storage batch Hload initialState).
Qed.

(** Every continuation ends the request: the busy flag is off
    afterwards. *)
Lemma resume_ends_busy (h : handler) (r : AppState) (now : Z) (result : ai_result)
    (s : AppState) :
  loading (apply_setters (resume h r now result) s) = false.
Proof.
  destruct h; cbn [resume].
  - destruct (resume_sets_words r now result)
      as [[m ->]|(text & j & a & b & ws & _ & _ & _ & _ & ->)]; reflexivity.
  - unfold handleGenerateSentence_resume.
    destruct result as [err|[text|]]; try reflexivity.
    destruct (spread (generatedSentences r)); reflexivity.
Qed.

Lemma singleton_lookup {A : Type} (l : list A) (q : A) (i : nat) :
  (length l <= 1)%nat -> l !! i = Some q -> l = [q] /\ i = 0%nat.
Proof.
  destruct l as [|p [|p' l]]; simpl; intros Hlen; try lia; [discriminate|].
  destruct i as [|i]; simpl; [intros [= ->]; auto | discriminate].
Qed.

Lemma opened_invariant (storage : gmap jsstring jsstring) (w : World) :
  mount storage = Some w -> session_invariant speechSynthesis (opened w).
Proof.
  intros Hm. destruct (mount_state storage w Hm) as (_ & _ & Hl & _).
  split; cbn [opened inflight world heard].
  - simpl. lia.
  - intros _. rewrite Hl. split; [discriminate | congruence].
  - intros r [].
  - intros r [].
  - constructor.
  - exact (reach_mount storage w Hm).
Qed.

(** A batch that touches neither the busy flag nor the input field. *)
Lemma edited_invariant (batch : list setter) (x : Session) :
  (forall s, loading (apply_setters batch s) = loading s) ->
  inflight x = []
  \/ (forall s, newMyanmarWord (apply_setters batch s) = newMyanmarWord s) ->
  session_invariant speechSynthesis x ->
  session_invariant speechSynthesis (committed batch x).
Proof.
  intros Hq Hkeep [Hone Hbusy Hinput Htwo Hheard Hreach].
  split; cbn [committed inflight world heard]; try assumption.
  - intros Hr. destruct (commit_mounted _ _ Hr) as (Hr0 & _ & ->).
    rewrite Hq. exact (Hbusy Hr0).
  - intros r Hin. destruct (Hinput r Hin) as [Hnb Hsame]. split; [exact Hnb|].
    intros Hr. destruct (commit_mounted _ _ Hr) as (Hr0 & _ & ->).
    destruct Hkeep as [Hnone|Hkeep]; [rewrite Hnone in Hin; destruct Hin|].
    rewrite Hkeep. exact (Hsame Hr0).
  - apply reach_commit, Hreach.
Qed.

Lemma committed_invariant (batch : list setter) (x : Session) :
  (forall s, loading (apply_setters batch s) = loading s
             /\ newMyanmarWord (apply_setters batch s) = newMyanmarWord s) ->
  session_invariant speechSynthesis x ->
  session_invariant speechSynthesis (committed batch x).
Proof.
  intros Hq. apply edited_invariant; [|right]; intros s; apply Hq.
Qed.

Lemma spoken_invariant (text : json) (x : Session) :
  session_invariant speechSynthesis x ->
  session_invariant speechSynthesis (spoken speechSynthesis text x).
Proof.
  intros Hinv. unfold spoken, speakText.
  destruct speechSynthesis eqn:Hsp; [destruct (utterance_text text)|];
    try exact Hinv;
    destruct Hinv as [Hone Hbusy Hinput Htwo Hheard Hreach];
    split; cbn [inflight world heard]; try assumption;
    constructor; auto.
Qed.

(** A handler started by a click on an enabled button. *)
Lemma begun_invariant (h : handler) (b : started) (x : Session) :
  let s := state (world x) in
  renders s = true -> loading s = false ->
  (forall s', newMyanmarWord (apply_setters (calls b) s') = newMyanmarWord s') ->
  loading (apply_setters (calls b) s) = match awaits b with Some _ => true | None => false end ->
  (awaits b <> None -> h = SaveWord -> truthy (trim (newMyanmarWord s)) = true) ->
  (awaits b <> None -> h = GenerateSentence ->
   exists ws, words s = JArr ws /\ (2 <= length ws)%nat) ->
  session_invariant speechSynthesis x ->
  session_invariant speechSynthesis (begun h b x).
Proof.
  intros s Hr Hl Hinput' Hload Hsave Hgen [Hone Hbusy Hinput Htwo Hheard Hreach].
  assert (Hnone : inflight x = []).
  { destruct (inflight x) eqn:E; [reflexivity|].
    assert (loading s = true) by (apply (Hbusy Hr); congruence).
    congruence. }
  split; cbn [begun inflight world heard]; rewrite ?Hnone.
  - destruct (awaits b); simpl; lia.
  - intros Hr'. destruct (commit_mounted _ _ Hr') as (_ & _ & ->).
    fold s. rewrite Hload. destruct (awaits b); simpl; split; congruence.
  - intros r Hin. destruct (awaits b) eqn:Ha; [|destruct Hin].
    destruct Hin as [[= -> <-]|[]].
    split; [apply Hsave; congruence|].
    intros Hr'. destruct (commit_mounted _ _ Hr') as (_ & _ & ->). apply Hinput'.
  - intros r Hin. destruct (awaits b) eqn:Ha; [|destruct Hin].
    destruct Hin as [[= -> <-]|[]]. apply Hgen; congruence.
  - exact Hheard.
  - apply reach_commit, Hreach.
Qed.

Lemma save_begin_facts (s : AppState) :
  loading s = false ->
  let b := handleSaveWord_begin ai s in
  (forall s', newMyanmarWord (apply_setters (calls b) s') = newMyanmarWord s')
  /\ loading (apply_setters (calls b) s) = match awaits b with Some _ => true | None => false end
  /\ (awaits b <> None -> truthy (trim (newMyanmarWord s)) = true).
Proof.
  intros Hl. unfold handleSaveWord_begin.
  destruct (truthy (trim (newMyanmarWord s))) eqn:Hnb; [destruct ai|];
    cbn [negb calls awaits]; repeat split; auto; congruence.
Qed.

Lemma generate_begin_facts (shuffled : list json) (s : AppState) (ws : list json) :
  loading s = false -> words s = JArr ws ->
  let b := handleGenerateSentence_begin ai shuffled s in
  (forall s', newMyanmarWord (apply_setters (calls b) s') = newMyanmarWord s')
  /\ loading (apply_setters (calls b) s) = match awaits b with Some _ => true | None => false end.
Proof.
  intros Hl Hw. unfold handleGenerateSentence_begin. rewrite Hw.
  cbn [length_below_two spread].
  destruct ai; cbn [negb]; [|repeat split].
  destruct (length ws <? 2)%nat; [repeat split; exact Hl|].
  destruct (joined (js "myanmar") (selectedWords shuffled));
    [destruct (joined (js "indonesian") (selectedWords shuffled))|];
    repeat split.
Qed.

Lemma delete_batch_quiet (batch : list setter) :
  (batch = [] \/ (exists v, batch = [setWords v])
   \/ exists v, batch = [setGeneratedSentences v]) ->
  forall s, loading (apply_setters batch s) = loading s
            /\ newMyanmarWord (apply_setters batch s) = newMyanmarWord s.
Proof. intros [->|[[v ->]|[v ->]]] s; split; reflexivity. Qed.

Lemma handleDeleteWord_shape (s : AppState) (id : json) (from : nat) :
  handleDeleteWord s id from = []
  \/ (exists v, handleDeleteWord s id from = [setWords v])
  \/ exists v, handleDeleteWord s id from = [setGeneratedSentences v].
Proof.
  unfold handleDeleteWord. destruct (without_id (words s) id from); eauto.
Qed.

Lemma handleDeleteSentence_shape (s : AppState) (id : json) (from : nat) :
  handleDeleteSentence s id from = []
  \/ (exists v, handleDeleteSentence s id from = [setWords v])
  \/ exists v, handleDeleteSentence s id from = [setGeneratedSentences v].
Proof.
  unfold handleDeleteSentence. destruct (without_id (generatedSentences s) id from);
    eauto.
Qed.

Lemma act_invariant (a : action) (x x' : Session) :
  session_invariant speechSynthesis x ->
  act ai speechSynthesis a x = Some x' ->
  session_invariant speechSynthesis x'.
Proof.
  intros Hinv Hact. unfold act in Hact.
  destruct a as [value|value| |shuffled|row|row|row|row|request now result].
  9: {
    destruct (inflight x !! request) as [[h r]|] eqn:Hlook; [|discriminate].
    injection Hact as <-.
    destruct Hinv as [Hone Hbusy Hinput Htwo Hheard Hreach].
    destruct (singleton_lookup _ _ _ Hone Hlook) as [Hin ->].
    split; cbn [inflight world heard]; rewrite ?Hin; cbn [delete list_delete].
    - simpl. lia.
    - intros Hr. destruct (commit_mounted _ _ Hr) as (_ & _ & ->).
      rewrite resume_ends_busy. split; [discriminate | congruence].
    - intros r0 [].
    - intros r0 [].
    - exact Hheard.
    - apply reach_commit, Hreach. }
  all: destruct (render (state (world x))) as [view|] eqn:Hv; [|discriminate].
  all: assert (Hr : renders (state (world x)) = true)
         by (apply renders_render; eauto).
  all: destruct (render_view _ _ Hv)
         as (ws & Hw & Hrows & Hsent & Hinp & Hsav & _ & Hcre & _).
  - rewrite Hinp in Hact.
    destruct (loading (state (world x))) eqn:Hl; [discriminate|].
    injection Hact as <-.
    (* the input field can be edited only while no request is pending *)
    apply edited_invariant; [reflexivity| |exact Hinv]. left.
    destruct (inflight x) eqn:E; [reflexivity|].
    assert (loading (state (world x)) = true)
      by (apply (inv_busy _ _ Hinv Hr); congruence).
    congruence.
  - injection Hact as <-. apply committed_invariant; [|exact Hinv].
    intros s. split; reflexivity.
  - rewrite Hsav in Hact.
    destruct (loading (state (world x))) eqn:Hl; [discriminate|].
    injection Hact as <-.
    destruct (save_begin_facts (state (world x)) Hl) as (Hi & Hload & Hnb).
    apply begun_invariant; auto; intros _ [=].
  - rewrite Hcre in Hact.
    destruct (loading (state (world x))) eqn:Hl; [discriminate|].
    destruct (Nat.ltb_spec (length ws) 2) as [|Hlen]; [discriminate|].
    injection Hact as <-.
    destruct (generate_begin_facts shuffled (state (world x)) ws Hl Hw) as (Hi & Hload).
    apply begun_invariant; auto; [intros _ [=]|]. intros _ _. eauto.
  - destruct (View.word_rows view !! row) as [word|]; [|discriminate].
    destruct (word_places (state (world x)) !! row) as [place|]; [|discriminate].
    destruct (field word (js "id")) as [id|]; injection Hact as <-; [|exact Hinv].
    apply committed_invariant; [|exact Hinv].
    apply delete_batch_quiet, handleDeleteWord_shape.
  - destruct (View.word_rows view !! row) as [word|]; [|discriminate].
    destruct (field word (js "indonesian")) as [text|]; injection Hact as <-;
      [|exact Hinv].
    apply spoken_invariant, Hinv.
  - destruct (View.sentence_rows view !! row) as [sentence|]; [|discriminate].
    destruct (field sentence (js "id")) as [id|]; injection Hact as <-; [|exact Hinv].
    apply committed_invariant; [|exact Hinv].
    apply delete_batch_quiet, handleDeleteSentence_shape.
  - destruct (View.sentence_rows view !! row) as [sentence|]; [|discriminate].
    destruct (field sentence (js "indonesian")) as [text|]; injection Hact as <-;
      [|exact Hinv].
    apply spoken_invariant, Hinv.
Qed.

Lemma visited_invariant (x : Session) :
  visited ai speechSynthesis x -> session_invariant speechSynthesis x.
Proof.
  induction 1 as [storage w Hm|a x x' _ IH Hact].
  - exact (opened_invariant storage w Hm).
  - exact (act_invariant a x x' IH Hact).
Qed.

End Visit.

Section VisitFacts.

Lemma start_visited `{Engine} (ai speechSynthesis : bool) :
  visited ai speechSynthesis Scenario.start.
Proof.
  exact (visited_mount ai speechSynthesis ∅ Sample.first_visit first_visit_mounted).
Qed.

Lemma waiting_visited (speechSynthesis : bool) :
  visited (H := BasicLatin.engine) true speechSynthesis Scenario.waiting.
Proof.
  apply (visited_act (H := BasicLatin.engine) true speechSynthesis ClickSave
           Scenario.typed_in); [|reflexivity].
  apply (visited_act (H := BasicLatin.engine) true speechSynthesis
           (TypeWord Sample.sa) Scenario.start); [|reflexivity].
  apply start_visited.
Qed.

Lemma stored_mounted :
  mount (H := BasicLatin.engine) Scenario.stored = Some (world Scenario.returned).
Proof. vm_compute. reflexivity. Qed.

Lemma returned_visited (ai speechSynthesis : bool) :
  visited (H := BasicLatin.engine) ai speechSynthesis Scenario.returned.
Proof.
  exact (visited_mount (H := BasicLatin.engine) ai speechSynthesis Scenario.stored _
           stored_mounted).
Qed.

Lemma asking_visited (speechSynthesis : bool) :
  visited (H := BasicLatin.engine) true speechSynthesis Scenario.asking.
Proof.
  apply (visited_act (H := BasicLatin.engine) true speechSynthesis ClickSave
           Scenario.retyped); [|reflexivity].
  apply (visited_act (H := BasicLatin.engine) true speechSynthesis
           (TypeWord Sample.sa) Scenario.returned); [|reflexivity].
  apply returned_visited.
Qed.

Lemma spoke_visited (ai : bool) :
  visited (H := BasicLatin.engine) ai true Scenario.spoke.
Proof.
  apply (visited_act (H := BasicLatin.engine) ai true (ClickSpeakWord 0)
           Scenario.returned); [apply returned_visited | reflexivity].
Qed.

(** Mounting on a [localStorage] that is in sync with collections whose
    records hold strings leaves it as it is. *)
Lemma mount_in_sync_fixed `{Engine} (w : World) (ws : list Word.t)
    (ss : list Sentence.t) :
  in_sync w ->
  words (state w) = Word.array ws -> generatedSentences (state w) = Sentence.array ss ->
  exists w',
    mount (localStorage w) = Some w'
    /\ localStorage w' = localStorage w
    /\ state w'
       = apply_setters
           [setWords (Word.array ws); setGeneratedSentences (Sentence.array ss)]
           initialState.
Proof.
  intros [Hw Hs] Ews Ess. unfold mount, loadEffect.
  rewrite Hw, Hs, Ews, Ess, read_words_written, read_sentences_written.
  eexists. split; [reflexivity|].
  assert (Hr : renders
                 (apply_setters
                    ([setWords (Word.array ws)] ++ [setGeneratedSentences (Sentence.array ss)])
                    initialState) = true)
    by (apply (typed_state_renders _ ws ss); reflexivity).
  split.
  - unfold commit. cbn [state]. rewrite renders_initialState, Hr.
    cbn [mutates_words mutates_sentences existsb app orb localStorage].
    unfold saveSentencesEffect, saveWordsEffect.
    cbn [apply_setters fold_left apply_setter words generatedSentences app].
    rewrite Ews in Hw. rewrite Ess in Hs.
    apply map_eq. intros k. rewrite !lookup_insert.
    repeat case_decide; subst; try reflexivity; symmetry; assumption.
  - rewrite commit_state by apply renders_initialState. reflexivity.
Qed.

End VisitFacts.

(** X13.  At every moment of a visit at which the component is mounted,
    also while a request is in flight, [localStorage] holds the serialized
    form of both collections as they are.  When their records are as the
    interfaces say, every property holding a string, reloading the page
    brings back both collections as they are, resets the input field, the
    search term, the busy flag and the error message, and leaves
    [localStorage] exactly as it is. *)
Theorem reload_keeps_the_collections `{Engine} (ai speechSynthesis : bool)
    (x : Session) :
  visited ai speechSynthesis x ->
  renders (state (world x)) = true ->
  in_sync (world x)
  /\ forall ws ss,
       words (state (world x)) = Word.array ws ->
       generatedSentences (state (world x)) = Sentence.array ss ->
       exists w',
         mount (localStorage (world x)) = Some w'
         /\ localStorage w' = localStorage (world x)
         /\ words (state w') = words (state (world x))
         /\ generatedSentences (state w') = generatedSentences (state (world x))
         /\ newMyanmarWord (state w') = []
         /\ searchTerm (state w') = []
         /\ loading (state w') = false
         /\ error (state w') = None.
Proof.
  intros Hv Hr.
  destruct (visited_invariant ai speechSynthesis x Hv) as [_ _ _ _ _ Hreach].
  assert (Hsync : in_sync (world x)) by exact (reachable_in_sync _ Hreach Hr).
  split; [exact Hsync|]. intros ws ss Ews Ess.
  destruct (mount_in_sync_fixed (world x) ws ss Hsync Ews Ess) as (w' & Hm & Hst & Hs).
  exists w'. split; [exact Hm|]. split; [exact Hst|].
  rewrite Hs, Ews, Ess. repeat split.
Qed.

Lemma reload_keeps_the_collections_witness :
  visited (H := BasicLatin.engine) true true Scenario.asking
  /\ words (state (world Scenario.asking)) = Word.array [Sample.minum; Sample.makan]
  /\ exists w',
       mount (H := BasicLatin.engine) (localStorage (world Scenario.asking)) = Some w'
       /\ words (state w') = Word.array [Sample.minum; Sample.makan]
       /\ newMyanmarWord (state (world Scenario.asking)) = Sample.sa
       /\ newMyanmarWord (state w') = []
       /\ loading (state (world Scenario.asking)) = true
       /\ loading (state w') = false.
Proof.
  assert (Hv : visited (H := BasicLatin.engine) true true Scenario.asking)
    by apply asking_visited.
  split; [exact Hv|]. split; [reflexivity|].
  destruct (reload_keeps_the_collections (H := BasicLatin.engine) true true
              Scenario.asking Hv eq_refl) as [_ Hreload].
  destruct (Hreload [Sample.minum; Sample.makan] [] eq_refl eq_refl)
    as (w' & Hm & _ & Hw & _ & Hi & _ & Hl & _).
  exists w'. split; [exact Hm|]. split; [exact Hw|].
  split; [reflexivity|]. split; [exact Hi|]. split; [reflexivity | exact Hl].
Defined.



(** X15.  While a translation is awaited the input field cannot be edited,
    so while the component is mounted the field still shows the non-blank
    text that was sent; when the continuation sets the word collection,
    that text is the [myanmar] of the record it puts in front.  A sentence
    request always comes from a render whose words are an array of at
    least two. *)
Theorem awaited_input_is_frozen `{Engine} (ai speechSynthesis : bool) (x : Session) :
  visited ai speechSynthesis x ->
  (forall r, In (SaveWord, r) (inflight x) ->
     truthy (trim (newMyanmarWord r)) = true
     /\ (renders (state (world x)) = true ->
         newMyanmarWord (state (world x)) = newMyanmarWord r)
     /\ (forall value, act ai speechSynthesis (TypeWord value) x = None)
     /\ forall now result v,
          In (setWords v) (resume SaveWord r now result) ->
          exists newWord ws,
            v = JArr (newWord :: ws)
            /\ spread (words r) = Some ws
            /\ field newWord (js "myanmar") = Some (JStr (newMyanmarWord r)))
  /\ (forall r, In (GenerateSentence, r) (inflight x) ->
        exists ws, words r = JArr ws /\ (2 <= length ws)%nat).
Proof.
  intros Hv.
  destruct (visited_invariant ai speechSynthesis x Hv) as [_ Hbusy Hinput Htwo _ _].
  split; [|exact Htwo].
  intros r Hin. destruct (Hinput r Hin) as [Hnb Hsame].
  split; [exact Hnb|]. split; [exact Hsame|]. split.
  - intros value. unfold act.
    destruct (render (state (world x))) as [view|] eqn:Hview; [|reflexivity].
    assert (Hr : renders (state (world x)) = true) by (apply renders_render; eauto).
    destruct (render_view _ _ Hview) as (ws & _ & _ & _ & Hinp & _).
    assert (Hl : loading (state (world x)) = true).
    { apply (Hbusy Hr). intros E. rewrite E in Hin. destruct Hin. }
    rewrite Hinp, Hl. reflexivity.
  - intros now result v Hset. cbn [resume] in Hset.
    destruct (resume_sets_words r now result)
      as [[m E]|(text & j & a & b & ws & _ & _ & _ & Hs & E)]; rewrite E in Hset.
    + destruct Hset as [[=]|[[=]|[]]].
    + destruct Hset as [[= <-]|[[=]|[[=]|[]]]].
      eexists _, ws. split; [reflexivity|]. split; [exact Hs | reflexivity].
Qed.

Lemma awaited_input_is_frozen_witness :
  visited (H := BasicLatin.engine) true true Scenario.asking
  /\ In (SaveWord, state (world Scenario.retyped)) (inflight Scenario.asking)
  /\ newMyanmarWord (state (world Scenario.asking)) = Sample.sa
  /\ act (H := BasicLatin.engine) true true (TypeWord Sample.thauk) Scenario.asking
     = None.
Proof.
  assert (Hv : visited (H := BasicLatin.engine) true true Scenario.asking)
    by apply asking_visited.
  assert (Hin : In (SaveWord, state (world Scenario.retyped))
                  (inflight Scenario.asking)) by (left; reflexivity).
  split; [exact Hv|]. split; [exact Hin|].
  destruct (awaited_input_is_frozen (H := BasicLatin.engine) true true
              Scenario.asking Hv) as [Hsave _].
  destruct (Hsave _ Hin) as (_ & Hsame & Hfrozen & _).
  split; [exact (Hsame eq_refl) | exact (Hfrozen Sample.thauk)].
Defined.

(** X16.  Whatever is handed to the speech engine during a visit is marked
    [id-ID], whichever text it is; an alert is raised instead only when
    the browser has no speech synthesis.  A click on a speak button changes
    neither state nor [localStorage] nor the requests in flight, and adds
    at most one utterance or alert. *)
Theorem speech_is_always_indonesian `{Engine} (ai speechSynthesis : bool)
    (x : Session) :
  visited ai speechSynthesis x ->
  Forall (fun said =>
            match said with
            | Utterance _ lang => lang = js "id-ID" /\ speechSynthesis = true
            | Alert _ => speechSynthesis = false
            end) (heard x)
  /\ forall row x',
       act ai speechSynthesis (ClickSpeakWord row) x = Some x'
       \/ act ai speechSynthesis (ClickSpeakSentence row) x = Some x' ->
       world x' = world x /\ inflight x' = inflight x
       /\ (heard x' = heard x \/ exists said, heard x' = said :: heard x).
Proof.
  intros Hv.
  destruct (visited_invariant ai speechSynthesis x Hv) as [_ _ _ _ Hheard _].
  split; [exact Hheard|].
  assert (Hspoken : forall text,
             world (spoken speechSynthesis text x) = world x
             /\ inflight (spoken speechSynthesis text x) = inflight x
             /\ (heard (spoken speechSynthesis text x) = heard x
                 \/ exists said, heard (spoken speechSynthesis text x) = said :: heard x)).
  { intros text. unfold spoken.
    destruct (speakText speechSynthesis text); cbn; eauto. }
  intros row x' [Hact|Hact]; unfold act in Hact;
    (destruct (render (state (world x))) as [view|]; [|discriminate]).
  - destruct (View.word_rows view !! row) as [word|]; [|discriminate].
    destruct (field word (js "indonesian")); injection Hact as <-; auto.
  - destruct (View.sentence_rows view !! row) as [sentence|]; [|discriminate].
    destruct (field sentence (js "indonesian")); injection Hact as <-; auto.
Qed.

Lemma speech_is_always_indonesian_witness :
  visited (H := BasicLatin.engine) true true Scenario.spoke
  /\ heard Scenario.spoke = [Utterance (js "minum") (js "id-ID")]
  /\ Forall (fun said =>
               match said with
               | Utterance _ lang => lang = js "id-ID" /\ true = true
               | Alert _ => true = false
               end) (heard Scenario.spoke).
Proof.
  assert (Hv : visited (H := BasicLatin.engine) true true Scenario.spoke)
    by apply spoke_visited.
  split; [exact Hv|]. split; [reflexivity|].
  destruct (speech_is_always_indonesian (H := BasicLatin.engine) true true
              Scenario.spoke Hv) as [Hheard _].
  exact Hheard.
Defined.

(** ** The controls *)

Section Mounted.

Context `{Engine}.

Lemma filter_from_kept {A : Type} (keep : nat -> A -> option bool) (l out : list A)
    (i : nat) :
  filter_from i keep l = Some out ->
  forall x, In x l -> exists j b, keep j x = Some b /\ (b = true -> In x out).
Proof.
  revert i out. induction l as [|a l IH]; simpl; intros i out Hf x; [intros []|].
  destruct (keep i a) as [b|] eqn:Hk; [|discriminate].
  destruct (filter_from (S i) keep l) as [kept|] eqn:Hrest; [|discriminate].
  injection Hf as <-. intros [<-|Hin].
  - exists i, b. split; [exact Hk|]. intros ->. left. reflexivity.
  - destruct (IH _ _ Hrest x Hin) as (j & b' & Hj & Hout).
    exists j, b'. split; [exact Hj|]. intros Hb. specialize (Hout Hb).
    destruct b; [right|]; exact Hout.
Qed.

(** What React accepts as a child can be converted to a string. *)
Lemma valid_child_text (v : json) :
  valid_child v = true -> exists t, ToString v = Some t.
Proof.
  revert v. fix IH 1.
  intros [| |b|literal|s|items|members]; simpl; intros Hv; eauto; [|discriminate].
  assert (Htexts :
    exists ts,
      (fix texts (l : list json) : option (list jsstring) :=
         match l with
         | [] => Some []
         | x :: rest =>
             match
               match x with
               | JUndefined | JNull => Some []
               | _ => ToString x
               end, texts rest
             with
             | Some t, Some ts => Some (t :: ts)
             | _, _ => None
             end
         end) items = Some ts).
  { induction items as [|x rest IHrest]; [eauto|].
    apply andb_prop in Hv as [Hx Hrest].
    destruct (IHrest Hrest) as [ts ->].
    destruct (IH x Hx) as [t Ht]. rewrite Ht.
    destruct x; eauto. }
  destruct Htexts as [ts ->]. eauto.
Qed.

Lemma valid_child_joins (values : list json) :
  Forall (fun v => valid_child v = true) values ->
  exists texts, mapM join_element values = Some texts.
Proof.
  induction 1 as [|v values Hv _ [texts IH]]; [exists []; reflexivity|].
  destruct (valid_child_text v Hv) as [t Ht].
  assert (Hj : exists t', join_element v = Some t')
    by (unfold join_element; destruct v; eauto).
  destruct Hj as [t' Hj].
  exists (t' :: texts). cbn [mapM]. rewrite Hj. cbn. rewrite IH. reflexivity.
Qed.

Lemma joined_children (name : jsstring) (l : list json) :
  Forall (fun w => exists v, field w name = Some v /\ valid_child v = true) l ->
  exists t, joined name l = Some t.
Proof.
  intros Hall. unfold joined, join_values.
  assert (Hvalues : exists values,
             mapM (fun w => field w name) l = Some values
             /\ Forall (fun v => valid_child v = true) values).
  { induction Hall as [|w l (v & Hf & Hv) _ (values & IH & Hvalid)].
    - exists []. split; [reflexivity | constructor].
    - exists (v :: values). split; [|constructor; assumption].
      cbn [mapM]. rewrite Hf. cbn. rewrite IH. reflexivity. }
  destruct Hvalues as (values & -> & Hvalid).
  destruct (valid_child_joins values Hvalid) as [texts ->]. eauto.
Qed.

(** In a render that returns, every word, shown or not, has a string as
    its [myanmar] and something React can show as its [indonesian]. *)
Lemma rendered_word (s : AppState) (view : View.t) (ws : list json) (w : json) :
  render s = Some view -> words s = JArr ws -> In w ws ->
  (exists m, field w (js "myanmar") = Some (JStr m))
  /\ exists v, field w (js "indonesian") = Some v /\ valid_child v = true.
Proof.
  intros Hview Hw Hin. unfold render in Hview.
  destruct (filteredWords s) as [rows|] eqn:Hrows; [|discriminate].
  rewrite Hw in Hview.
  destruct (sentence_rows (generatedSentences s)); [|discriminate].
  destruct (forallb word_row_renders rows) eqn:Hall; [|discriminate].
  unfold filteredWords in Hrows. rewrite Hw in Hrows.
  destruct (filter_from_kept _ _ _ _ Hrows w Hin) as (_ & b & Hm & Hshown).
  unfold matches_search in Hm.
  destruct (field w (js "myanmar")) as [myanmar|] eqn:Hmy; [|discriminate].
  destruct myanmar as [| | | |m| |]; try discriminate Hm.
  split; [eauto|]. cbn [lower_includes] in Hm.
  destruct (includes (toLowerCase m) (toLowerCase (searchTerm s))).
  - injection Hm as <-. specialize (Hshown eq_refl).
    rewrite forallb_forall in Hall. specialize (Hall w Hshown).
    unfold word_row_renders in Hall. rewrite Hmy in Hall.
    destruct (field w (js "id")); [|discriminate].
    destruct (field w (js "indonesian")) as [v|]; [|discriminate].
    destruct (field w (js "type")); [|discriminate].
    exists v. split; [reflexivity|].
    apply andb_prop in Hall as [Hall _]. apply andb_prop in Hall as [_ Hv]. exact Hv.
  - destruct (field w (js "indonesian")) as [v|]; [|discriminate].
    destruct v; try discriminate Hm. eexists. split; reflexivity.
Qed.

(** With a key, on a page that shows at least two words, a click on
    Create Sentence reaches the AI whatever order the shuffle leaves the
    words in. *)
Lemma generate_begin_rendered (shuffled : list json) (s : AppState) (view : View.t)
    (ws : list json) :
  render s = Some view -> words s = JArr ws -> (2 <= length ws)%nat ->
  (forall w, In w shuffled -> In w ws) ->
  exists indonesianSelectedWords,
    joined (js "indonesian") (selectedWords shuffled) = Some indonesianSelectedWords
    /\ handleGenerateSentence_begin true shuffled s
       = {| calls := [setLoading true; setError None];
            awaits := Some {| prompt := sentence_prompt indonesianSelectedWords;
                              json_schema := false |} |}.
Proof.
  intros Hview Hw Hlen Hsub.
  assert (Hsel : forall w, In w (selectedWords shuffled) -> In w ws).
  { intros w Hin. apply Hsub. unfold selectedWords in Hin.
    apply list_elem_of_In, elem_of_take in Hin as (k & Hk & _).
    apply list_elem_of_In. exact (list_elem_of_lookup_2 _ _ _ Hk). }
  destruct (joined_children (js "myanmar") (selectedWords shuffled)) as [m Hm].
  { apply List.Forall_forall. intros w Hin.
    destruct (rendered_word s view ws w Hview Hw (Hsel w Hin)) as [[t Ht] _].
    exists (JStr t). split; [exact Ht | reflexivity]. }
  destruct (joined_children (js "indonesian") (selectedWords shuffled)) as [i Hi].
  { apply List.Forall_forall. intros w Hin.
    exact (proj2 (rendered_word s view ws w Hview Hw (Hsel w Hin))). }
  exists i. split; [exact Hi|].
  unfold handleGenerateSentence_begin. rewrite Hw, Hm, Hi.
  cbn [negb length_below_two spread].
  destruct (Nat.ltb_spec (length ws) 2) as [|_]; [lia | reflexivity].
Qed.

End Mounted.

(** X17.  A click on an enabled Create Sentence button never ends in the
    two-words validation message: the button is enabled only when the words
    are an array of two or more and no request is pending.  With a key the
    click sends a request, turns the busy flag on and clears the error
    message, whatever order the shuffle leaves the words in; without one it
    sets the missing-key message and sends nothing. *)
Theorem create_click_passes_the_gate `{Engine} (ai speechSynthesis : bool)
    (shuffled : list json) (x x' : Session) :
  act ai speechSynthesis (ClickCreateSentence shuffled) x = Some x' ->
  let s := state (world x) in
  exists ws,
    words s = JArr ws
    /\ (2 <= length ws)%nat
    /\ loading s = false
    /\ calls (handleGenerateSentence_begin ai shuffled s)
       <> [setError (Some two_words_message)]
    /\ (ai = true -> (forall w, In w shuffled -> In w ws) ->
        inflight x' = inflight x ++ [(GenerateSentence, s)]
        /\ loading (state (world x')) = true
        /\ error (state (world x')) = None)
    /\ (ai = false ->
        inflight x' = inflight x
        /\ loading (state (world x')) = false
        /\ error (state (world x')) = Some missing_key_message).
Proof.
  intros Hact s. unfold act in Hact. fold s in Hact.
  destruct (render s) as [view|] eqn:Hview; [|discriminate].
  assert (Hr : renders s = true) by (apply renders_render; eauto).
  destruct (render_view _ _ Hview) as (ws & Hw & _ & _ & _ & _ & _ & Hcre & _).
  rewrite Hcre in Hact.
  destruct (loading s) eqn:Hl; [discriminate|].
  destruct (Nat.ltb_spec (length ws) 2) as [|Hlen]; [discriminate|].
  injection Hact as <-.
  exists ws. split; [exact Hw|]. split; [exact Hlen|]. split; [reflexivity|].
  assert (Hstate : forall batch,
             (forall s0, words (apply_setters batch s0) = words s0
                         /\ searchTerm (apply_setters batch s0) = searchTerm s0
                         /\ generatedSentences (apply_setters batch s0)
                            = generatedSentences s0) ->
             state (commit batch (world x)) = apply_setters batch s).
  { intros batch Hkeep. apply commit_state. exact Hr. }
  split; [|split].
  - unfold handleGenerateSentence_begin. rewrite Hw.
    cbn [length_below_two spread].
    destruct (Nat.ltb_spec (length ws) 2) as [|_]; [lia|].
    destruct ai; cbn [negb]; [|discriminate].
    destruct (joined (js "myanmar") (selectedWords shuffled));
      [destruct (joined (js "indonesian") (selectedWords shuffled))|];
      discriminate.
  - intros -> Hsub.
    destruct (generate_begin_rendered shuffled s view ws Hview Hw Hlen Hsub)
      as (i & _ & Hb).
    unfold begun. fold s. rewrite Hb. cbn [calls awaits inflight world].
    rewrite commit_state by exact Hr. repeat split.
  - intros ->. unfold begun, handleGenerateSentence_begin.
    cbn [negb calls awaits inflight world].
    rewrite commit_state by exact Hr. repeat split.
Qed.

Lemma create_click_passes_the_gate_witness :
  let shuffled := List.map Word.value [Sample.makan; Sample.minum] in
  exists x',
    act (H := BasicLatin.engine) true true (ClickCreateSentence shuffled)
      Scenario.returned = Some x'
    /\ inflight x' = [(GenerateSentence, state (world Scenario.returned))]
    /\ loading (state (world x')) = true.
Proof.
  intros shuffled. eexists. split; [reflexivity|].
  destruct (create_click_passes_the_gate (H := BasicLatin.engine) true true
              shuffled Scenario.returned _ eq_refl)
    as (ws & Hw & _ & _ & _ & Hkey & _).
  injection Hw as <-.
  assert (Hsub : forall w, In w shuffled ->
                   In w (List.map Word.value [Sample.minum; Sample.makan])).
  { intros w [<-|[<-|[]]]; [right; left | left]; reflexivity. }
  destruct (Hkey eq_refl Hsub) as (Hin & Hl & _). split; [exact Hin | exact Hl].
Defined.

Section RowDelete.

Context `{Engine}.

Lemma filter_drops_one {A : Type} (f : A -> bool) (l : list A) (a : A) :
  In a l -> f a = false -> (length (List.filter f l) < length l)%nat.
Proof.
  induction l as [|x l IH]; simpl; [intros []|].
  intros [->|Hin] Hfa.
  - rewrite Hfa. pose proof (List.filter_length_le f l). lia.
  - specialize (IH Hin Hfa). destruct (f x); simpl; lia.
Qed.

Lemma differs_from_false (id : jsstring) (record : json) :
  id_of record = Some (JStr id) -> differs_from id record = false.
Proof.
  unfold id_of, differs_from. intros ->. rewrite strict_equal_refl. reflexivity.
Qed.

(** The sentences shown are the sentence collection when there are any. *)
Lemma sentence_rows_shown (v : json) (rows : list json) :
  sentence_rows v = Some rows -> rows <> [] ->
  v = JArr rows /\ forallb sentence_row_renders rows = true.
Proof.
  unfold sentence_rows.
  destruct (length_is_zero v) as [[|]|]; [intros [= <-]; congruence| |discriminate].
  destruct v as [| | | | |ss|]; try discriminate.
  destruct (forallb sentence_row_renders ss) eqn:Hall; [|discriminate].
  intros [= <-] _. split; [reflexivity | exact Hall].
Qed.

Lemma sentence_rows_filter (ss : list json) (g : json -> bool) :
  sentence_rows (JArr ss) = Some ss ->
  sentence_rows (JArr (List.filter g ss)) = Some (List.filter g ss).
Proof.
  unfold sentence_rows. cbn [length_is_zero].
  destruct ss as [|a ss]; [intros _; reflexivity|].
  cbn [length Nat.eqb].
  destruct (forallb sentence_row_renders (a :: ss)) eqn:Hall; [|discriminate].
  intros _. rewrite (forallb_filter _ g _ Hall).
  destruct (List.filter g (a :: ss)); reflexivity.
Qed.

(** Taking words away from a page that renders leaves a page that
    renders, and shows the rows that are left. *)
Lemma render_without_words (s : AppState) (view : View.t) (ws : list json)
    (g : json -> bool) :
  render s = Some view -> words s = JArr ws ->
  exists view',
    render (apply_setter s (setWords (JArr (List.filter g ws)))) = Some view'
    /\ View.word_rows view' = List.filter g (View.word_rows view)
    /\ View.sentence_rows view' = View.sentence_rows view.
Proof.
  intros Hview Hw.
  destruct (render_view s view Hview)
    as (ws' & Hw' & Hrows & Hsent & _ & _ & _ & _ & _ & _ & _ & Hall).
  unfold render, filteredWords in *. cbn [apply_setter words searchTerm generatedSentences].
  rewrite Hw in Hrows.
  rewrite (filter_from_filter _ g _ _ 0 0 Hrows), Hsent.
  rewrite (forallb_filter _ g _ Hall).
  eexists. split; [reflexivity|]. split; reflexivity.
Qed.

Lemma render_without_sentences (s : AppState) (view : View.t) (ss : list json)
    (g : json -> bool) :
  render s = Some view -> generatedSentences s = JArr ss ->
  View.sentence_rows view = ss ->
  exists view',
    render (apply_setter s (setGeneratedSentences (JArr (List.filter g ss))))
    = Some view'
    /\ View.sentence_rows view' = List.filter g ss
    /\ View.word_rows view' = View.word_rows view.
Proof.
  intros Hview Hs Hshown.
  destruct (render_view s view Hview)
    as (ws & Hw & Hrows & Hsent & _ & _ & _ & _ & _ & _ & _ & Hall).
  rewrite Hs, Hshown in Hsent.
  unfold render, filteredWords in *. cbn [apply_setter words searchTerm generatedSentences].
  rewrite Hw in *. rewrite Hrows, (sentence_rows_filter ss g Hsent), Hall.
  eexists. split; [reflexivity|]. split; reflexivity.
Qed.

End RowDelete.

(** X18.  A click on the delete button of a row whose record has a string
    as its id (the code makes no other ids) removes the record of that row,
    and with it every record that carries its id, from the collection and
    from the view; the page still renders, the collection gets shorter, the
    other records keep their order, and the entry in [localStorage]
    follows.  This holds for word rows and for sentence rows. *)
Theorem row_delete_removes_the_row `{Engine} (ai speechSynthesis : bool)
    (row : nat) (x x' : Session) :
  (act ai speechSynthesis (ClickDeleteWord row) x = Some x' ->
   exists view word ws,
     render (state (world x)) = Some view
     /\ View.word_rows view !! row = Some word
     /\ words (state (world x)) = JArr ws
     /\ In word ws
     /\ forall id, id_of word = Some (JStr id) ->
        let after := List.filter (differs_from id) ws in
        words (state (world x')) = JArr after
        /\ exactly_those (fun w => id_of w <> Some (JStr id)) ws after
        /\ ~ In word after
        /\ (exists view',
              render (state (world x')) = Some view'
              /\ View.word_rows view'
                 = List.filter (differs_from id) (View.word_rows view)
              /\ ~ In word (View.word_rows view'))
        /\ (length after < length ws)%nat
        /\ localStorage (world x') !! words_key = Some (JSON_stringify (JArr after))
        /\ generatedSentences (state (world x'))
           = generatedSentences (state (world x)))
  /\ (act ai speechSynthesis (ClickDeleteSentence row) x = Some x' ->
      exists view sentence ss,
        render (state (world x)) = Some view
        /\ View.sentence_rows view !! row = Some sentence
        /\ generatedSentences (state (world x)) = JArr ss
        /\ ss !! row = Some sentence
        /\ forall id, id_of sentence = Some (JStr id) ->
           let after := List.filter (differs_from id) ss in
           generatedSentences (state (world x')) = JArr after
           /\ exactly_those (fun s => id_of s <> Some (JStr id)) ss after
           /\ ~ In sentence after
           /\ (exists view',
                 render (state (world x')) = Some view'
                 /\ View.sentence_rows view' = after)
           /\ (length after < length ss)%nat
           /\ localStorage (world x') !! sentences_key
              = Some (JSON_stringify (JArr after))
           /\ words (state (world x')) = words (state (world x))).
Proof.
  split; intros Hact; unfold act in Hact;
    (destruct (render (state (world x))) as [view|] eqn:Hview; [|discriminate]);
    assert (Hr : renders (state (world x)) = true) by (apply renders_render; eauto);
    destruct (render_view _ _ Hview) as (ws & Hw & Hrows & Hsent & _).
  - destruct (View.word_rows view !! row) as [word|] eqn:Hrow; [|discriminate].
    destruct (word_places (state (world x)) !! row) as [place|]; [|discriminate].
    assert (Hshown : In word (View.word_rows view))
      by (apply list_elem_of_In; exact (list_elem_of_lookup_2 _ _ _ Hrow)).
    assert (Hin : In word ws).
    { unfold filteredWords in Hrows. rewrite Hw in Hrows.
      exact (filter_from_In _ _ _ _ Hrows word Hshown). }
    exists view, word, ws. split; [reflexivity|]. split; [exact Hrow|].
    split; [exact Hw|]. split; [exact Hin|].
    intros id Hid after. pose proof Hid as Hid'. unfold id_of in Hid'.
    rewrite Hid' in Hact. injection Hact as <-.
    assert (Hbatch : handleDeleteWord (state (world x)) (JStr id) place
                     = [setWords (JArr after)]).
    { unfold handleDeleteWord. rewrite Hw, without_id_string.
      rewrite (filteredWords_properties _ ws _ Hw Hrows). reflexivity. }
    destruct (render_without_words _ view ws (differs_from id) Hview Hw)
      as (view' & Hview' & Hrows' & _).
    assert (Hstate : state (commit [setWords (JArr after)] (world x))
                     = apply_setter (state (world x)) (setWords (JArr after)))
      by (rewrite commit_state by exact Hr; reflexivity).
    assert (Hsel : exactly_those (fun w => id_of w <> Some (JStr id)) ws after)
      by (apply filter_exactly_those; intros w; apply differs_from_spec).
    cbn [committed world]. rewrite Hbatch, Hstate.
    split; [reflexivity|]. split; [exact Hsel|]. split.
    { intros Hgone. apply (exactly_those_In _ _ _ Hsel) in Hgone as [_ Hne].
      exact (Hne Hid). }
    split.
    { exists view'. split; [exact Hview'|]. split; [exact Hrows'|].
      rewrite Hrows'. intros Hgone. apply List.filter_In in Hgone as [_ Hd].
      rewrite (differs_from_false id word Hid) in Hd. discriminate Hd. }
    split.
    { apply (filter_drops_one _ _ word Hin). exact (differs_from_false id word Hid). }
    split; [|reflexivity].
    rewrite (commit_writes_words [setWords (JArr after)] (world x));
      [rewrite Hstate; reflexivity | | reflexivity].
    rewrite Hstate. apply renders_render. eauto.
  - destruct (View.sentence_rows view !! row) as [sentence|] eqn:Hrow; [|discriminate].
    destruct (sentence_rows_shown _ _ Hsent) as [Hs Hall].
    { intros E. rewrite E in Hrow. discriminate Hrow. }
    set (ss := View.sentence_rows view) in *.
    assert (Hin : In sentence ss)
      by (apply list_elem_of_In; exact (list_elem_of_lookup_2 _ _ _ Hrow)).
    exists view, sentence, ss. split; [reflexivity|]. split; [exact Hrow|].
    split; [exact Hs|]. split; [exact Hrow|].
    intros id Hid after. pose proof Hid as Hid'. unfold id_of in Hid'.
    rewrite Hid' in Hact. injection Hact as <-.
    assert (Hprops : forallb has_properties ss = true).
    { apply forallb_forall. intros s0 Hs0.
      rewrite forallb_forall in Hall. specialize (Hall s0 Hs0).
      unfold sentence_row_renders in Hall.
      destruct s0; try reflexivity; discriminate Hall. }
    assert (Hbatch : handleDeleteSentence (state (world x)) (JStr id) row
                     = [setGeneratedSentences (JArr after)]).
    { unfold handleDeleteSentence. rewrite Hs, without_id_string, Hprops. reflexivity. }
    destruct (render_without_sentences _ view ss (differs_from id) Hview Hs eq_refl)
      as (view' & Hview' & Hrows' & _).
    assert (Hstate : state (commit [setGeneratedSentences (JArr after)] (world x))
                     = apply_setter (state (world x))
                         (setGeneratedSentences (JArr after)))
      by (rewrite commit_state by exact Hr; reflexivity).
    assert (Hsel : exactly_those (fun s => id_of s <> Some (JStr id)) ss after)
      by (apply filter_exactly_those; intros w; apply differs_from_spec).
    cbn [committed world]. rewrite Hbatch, Hstate.
    split; [reflexivity|]. split; [exact Hsel|]. split.
    { intros Hgone. apply (exactly_those_In _ _ _ Hsel) in Hgone as [_ Hne].
      exact (Hne Hid). }
    split; [exists view'; split; [exact Hview' | exact Hrows']|].
    split.
    { apply (filter_drops_one _ _ sentence Hin).
      exact (differs_from_false id sentence Hid). }
    split; [|reflexivity].
    rewrite (commit_writes_sentences [setGeneratedSentences (JArr after)] (world x));
      [rewrite Hstate; reflexivity | | reflexivity].
    rewrite Hstate. apply renders_render. eauto.
Qed.

Lemma row_delete_removes_the_row_witness :
  let x' :=
    committed (H := BasicLatin.engine)
      (handleDeleteWord (H := BasicLatin.engine) (state (world Scenario.returned))
         (JStr (Word.id Sample.minum)) 0)
      Scenario.returned in
  act (H := BasicLatin.engine) true true (ClickDeleteWord 0) Scenario.returned = Some x'
  /\ words (state (world x')) = Word.array [Sample.makan]
  /\ ~ In (Word.value Sample.minum) [Word.value Sample.makan].
Proof.
  intros x'.
  assert (Hact : act (H := BasicLatin.engine) true true (ClickDeleteWord 0)
                   Scenario.returned = Some x') by reflexivity.
  split; [exact Hact|]. split; [reflexivity|].
  destruct (row_delete_removes_the_row (H := BasicLatin.engine) true true 0
              Scenario.returned x') as [Hw _].
  destruct (Hw Hact) as (view & word & ws & Hview & Hrow & Hws & _ & Hdel).
  injection Hview as <-. injection Hrow as <-. injection Hws as <-.
  destruct (Hdel (Word.id Sample.minum) eq_refl) as (_ & _ & Hgone & _).
  exact Hgone.
Defined.



(** ** What is on the screen *)

(** X20.  The error banner shows exactly the messages that are not empty.
    After a failed sentence generation it shows the fixed failure text;
    after a failed translation it shows the message of the thrown value,
    and nothing when that message is the empty string.  A failure does not
    change whether the page renders. *)
Theorem banner_after_a_failure `{Engine} (shuffled : list json) (r s : AppState)
    (now : Z) (result : ai_result) :
  (forall e,
     renders (apply_setter s (setError e)) = renders s
     /\ forall view, render (apply_setter s (setError e)) = Some view ->
          View.banner view
          = match e with
            | Some (c :: message) => Some (c :: message)
            | _ => None
            end)
  /\ (truthy (trim (newMyanmarWord r)) = true ->
      (exists err, result = Rejected err)
      \/ (exists text, result = Resolved text /\ JSON_parse (text_argument text) = None) ->
      let after := apply_setters (handleSaveWord true r now result) s in
      renders after = renders s
      /\ forall view, render after = Some view ->
           View.banner view
           = let message :=
               match result with
               | Rejected err => saveWord_errorMessage err
               | Resolved text => SyntaxError_message (text_argument text)
               end in
             if truthy message then Some message else None)
  /\ (forall ws, words r = JArr ws -> (2 <= length ws)%nat ->
      (exists err, result = Rejected err) \/ result = Resolved None ->
      let after :=
        apply_setters (handleGenerateSentence true shuffled r now result) s in
      renders after = renders s
      /\ forall view, render after = Some view ->
           View.banner view = Some generate_failed_message).
Proof.
  split; [|split].
  - intros e. split; [apply renders_cells; reflexivity|].
    intros view Hview. rewrite (render_banner _ _ Hview).
    destruct e as [[|c message]|]; reflexivity.
  - intros Hin Hfail after. unfold after.
    rewrite (handleSaveWord_sent r now result Hin).
    rewrite (translate_failure_calls r now result Hfail).
    split; [apply renders_cells; reflexivity|].
    intros view Hview. rewrite (render_banner _ _ Hview). reflexivity.
  - intros ws Hw Hlen Hfail after. unfold after.
    unfold handleGenerateSentence, handleGenerateSentence_begin. rewrite Hw.
    cbn [negb length_below_two spread].
    destruct (Nat.ltb_spec (length ws) 2) as [|_]; [lia|].
    destruct (joined (js "myanmar") (selectedWords shuffled));
      [destruct (joined (js "indonesian") (selectedWords shuffled))|];
      cbn [awaits calls];
      (split; [apply renders_cells; destruct Hfail as [[err ->] | ->]; reflexivity|]);
      intros view Hview; rewrite (render_banner _ _ Hview);
      destruct Hfail as [[err ->] | ->]; reflexivity.
Qed.

Lemma banner_after_a_failure_witness :
  truthy (trim (newMyanmarWord Sample.stocked)) = true
  /\ exists view,
       render (H := BasicLatin.engine)
         (apply_setters
            (handleSaveWord (H := BasicLatin.engine) true Sample.stocked 5
               (Rejected (Thrown_Error [])))
            Sample.stocked) = Some view
       /\ View.banner view = None.
Proof.
  assert (Hin : truthy (trim (newMyanmarWord Sample.stocked)) = true) by reflexivity.
  split; [exact Hin|].
  destruct (banner_after_a_failure (H := BasicLatin.engine)
              (List.map Word.value [Sample.minum; Sample.makan])
              Sample.stocked Sample.stocked 5 (Rejected (Thrown_Error [])))
    as (_ & Ht & _).
  destruct (Ht Hin (or_introl (ex_intro _ _ eq_refl))) as (_ & Hbanner).
  eexists. split; [reflexivity|]. apply Hbanner. reflexivity.
Defined.

Lemma length_zero_nil {A : Type} (l : list A) : (length l =? 0)%nat = true <-> l = [].
Proof. destruct l; simpl; split; congruence. Qed.

(** X21.  On a page that renders, the word list shows the search results;
    its placeholder is shown exactly when no word matches the search term,
    which with an empty term means that there are no words; the sentence
    placeholder is shown exactly when no sentence is shown, which for an
    array of sentences means that it is empty; and the Create Sentence
    button is enabled exactly when no request is pending and there are two
    words or more. *)
Theorem placeholders_and_create_button `{Engine} (s : AppState) (view : View.t) :
  render s = Some view ->
  exists ws,
    words s = JArr ws
    /\ filteredWords s = Some (View.word_rows view)
    /\ (View.no_words view = true
        <-> forall word, In word ws ->
              ~ (text_field word (js "myanmar") (lowered_substring (searchTerm s))
                 \/ text_field word (js "indonesian")
                      (lowered_substring (searchTerm s))))
    /\ (searchTerm s = [] -> (View.no_words view = true <-> ws = []))
    /\ (View.no_sentences view = true <-> View.sentence_rows view = [])
    /\ (forall ss, generatedSentences s = JArr ss ->
          View.sentence_rows view = ss
          /\ (View.no_sentences view = true <-> ss = []))
    /\ (View.create_disabled view = false
        <-> loading s = false /\ (2 <= length ws)%nat).
Proof.
  intros Hview.
  destruct (render_view s view Hview)
    as (ws & Hw & Hrows & Hsent & _ & _ & _ & Hcre & _ & Hnw & Hns & _).
  exists ws. split; [exact Hw|]. split; [exact Hrows|].
  pose proof (filteredWords_spec s ws _ Hw Hrows) as Hsel.
  assert (Hnone :
    View.no_words view = true
    <-> forall word, In word ws ->
          ~ (text_field word (js "myanmar") (lowered_substring (searchTerm s))
             \/ text_field word (js "indonesian") (lowered_substring (searchTerm s)))).
  { rewrite Hnw, length_zero_nil. split.
    - intros Hnil word Hin Hhit.
      assert (Hf : In word (View.word_rows view))
        by (apply (exactly_those_In _ _ _ Hsel); split; assumption).
      rewrite Hnil in Hf. exact Hf.
    - intros Hno. destruct (View.word_rows view) as [|word rows] eqn:E; [reflexivity|].
      assert (Hf : In word (word :: rows)) by (left; reflexivity).
      apply (exactly_those_In _ _ _ Hsel) in Hf as [Hin Hhit].
      exfalso. exact (Hno word Hin Hhit). }
  split; [exact Hnone|]. split; [|split; [|split]].
  - intros Hterm. rewrite Hnone. split.
    + intros Hno. destruct ws as [|word ws']; [reflexivity|]. exfalso.
      assert (Hin : In word (word :: ws')) by (left; reflexivity).
      apply (Hno word Hin).
      destruct (rendered_word s view _ word Hview Hw Hin) as [[m Hm] _].
      apply (matches_search_spec (searchTerm s) word true); [|reflexivity].
      rewrite Hterm. apply matches_search_empty. exists m. split; [exact Hm | exact I].
    + intros -> word [].
  - rewrite Hns. apply length_zero_nil.
  - intros ss Hs. rewrite Hs in Hsent.
    assert (Hshown : View.sentence_rows view = ss).
    { unfold sentence_rows in Hsent. cbn [length_is_zero] in Hsent.
      destruct ss as [|a ss]; [injection Hsent as <-; reflexivity|].
      cbn [length Nat.eqb] in Hsent.
      destruct (forallb sentence_row_renders (a :: ss)); [|discriminate].
      injection Hsent as <-. reflexivity. }
    split; [exact Hshown|]. rewrite Hns, Hshown. apply length_zero_nil.
  - rewrite Hcre, orb_false_iff, Nat.ltb_ge. reflexivity.
Qed.

Lemma placeholders_and_create_button_witness :
  exists view,
    render (H := BasicLatin.engine) Sample.stocked = Some view
    /\ View.word_rows view = List.map Word.value [Sample.minum; Sample.makan]
    /\ View.no_words view = false
    /\ (View.create_disabled view = false
        <-> loading Sample.stocked = false
            /\ (2 <= length (List.map Word.value [Sample.minum; Sample.makan]))%nat).
Proof.
  eexists. split; [reflexivity|]. split; [reflexivity|]. split; [reflexivity|].
  destruct (placeholders_and_create_button (H := BasicLatin.engine) Sample.stocked _
              eq_refl) as (ws & Hw & _ & _ & _ & _ & _ & Hcre).
  injection Hw as <-. exact Hcre.
Defined.

(** ** Words are added by a successful translation only *)

(** X22.  [handleSaveWord] sets the word collection exactly when a key is
    configured, the input is not blank, the call has resolved, the response
    text has parsed to a value that has properties (any value but [null]),
    and the word collection can be spread.  The record it then puts in
    front carries the input as typed, which is not blank, an id made from
    [Date.now()], and under [indonesian] and [type] the values found under
    the two field names, as they are: [undefined] for a name that is not
    there.  In every other case the word collection is not set.  The
    sentence collection is never set. *)
Theorem words_are_added_on_success_only `{Engine} (ai : bool) (r s : AppState)
    (now : Z) (result : ai_result) :
  let batch := handleSaveWord ai r now result in
  mutates_sentences batch = false
  /\ (mutates_words batch = false -> words (apply_setters batch s) = words s)
  /\ (mutates_words batch = true
      <-> ai = true
          /\ ~ blank (newMyanmarWord r)
          /\ exists text jsonResponse indonesianTranslation wordType ws,
               result = Resolved text
               /\ JSON_parse (text_argument text) = Some jsonResponse
               /\ jsonResponse <> JNull
               /\ field jsonResponse (js "indonesianTranslation")
                  = Some indonesianTranslation
               /\ field jsonResponse (js "wordType") = Some wordType
               /\ spread (words r) = Some ws)
  /\ (forall text jsonResponse indonesianTranslation wordType ws,
        mutates_words batch = true ->
        result = Resolved text ->
        JSON_parse (text_argument text) = Some jsonResponse ->
        field jsonResponse (js "indonesianTranslation") = Some indonesianTranslation ->
        field jsonResponse (js "wordType") = Some wordType ->
        spread (words r) = Some ws ->
        words (apply_setters batch s)
        = JArr (Word.literal (Number_toString now) (newMyanmarWord r)
                  indonesianTranslation wordType :: ws)).
Proof.
  intros batch. unfold batch.
  destruct (truthy (trim (newMyanmarWord r))) eqn:Hin.
  2: { assert (Hb : handleSaveWord ai r now result = []).
       { unfold handleSaveWord, handleSaveWord_begin. rewrite Hin. reflexivity. }
       rewrite Hb. split; [reflexivity|]. split; [reflexivity|].
       split; [|intros ? ? ? ? ? [=]].
       split; [discriminate|]. intros (_ & Hnb & _).
       apply truthy_trim in Hnb. congruence. }
  destruct ai.
  2: { assert (Hb : handleSaveWord false r now result
                    = [setLoading true; setError None;
                       setError (Some missing_key_message); setLoading false]).
       { unfold handleSaveWord, handleSaveWord_begin. rewrite Hin. reflexivity. }
       rewrite Hb. split; [reflexivity|]. split; [reflexivity|].
       split; [|intros ? ? ? ? ? [=]].
       split; [discriminate|]. intros (Hai & _). discriminate Hai. }
  rewrite (handleSaveWord_sent r now result Hin).
  assert (Hsucc : forall text j a b ws,
             result = Resolved text ->
             JSON_parse (text_argument text) = Some j ->
             field j (js "indonesianTranslation") = Some a ->
             field j (js "wordType") = Some b ->
             spread (words r) = Some ws ->
             handleSaveWord_resume r now result
             = [setWords (JArr (Word.literal (Number_toString now) (newMyanmarWord r)
                                  a b :: ws));
                setNewMyanmarWord []; setLoading false]).
  { intros text j a b ws -> Hp Ha Hb Hs. unfold handleSaveWord_resume, destructure.
    rewrite Hp, Ha, Hb, Hs. reflexivity. }
  split; [|split; [|split]].
  - destruct (resume_sets_words r now result)
      as [[m ->]|(text & j & a & b & ws & _ & _ & _ & _ & ->)]; reflexivity.
  - destruct (resume_sets_words r now result)
      as [[m ->]|(text & j & a & b & ws & _ & _ & _ & _ & ->)];
      [reflexivity | discriminate].
  - split.
    + intros Hm. split; [reflexivity|]. split; [apply truthy_trim, Hin|].
      destruct (resume_sets_words r now result)
        as [[m E]|(text & j & a & b & ws & -> & Hp & Hd & Hs & _)];
        [rewrite E in Hm; discriminate Hm|].
      unfold destructure in Hd.
      destruct (field j (js "indonesianTranslation")) as [a'|] eqn:Ha; [|discriminate].
      destruct (field j (js "wordType")) as [b'|] eqn:Hb; [|discriminate].
      exists text, j, a', b', ws. repeat split; try assumption.
      intros ->. discriminate Ha.
    + intros (_ & _ & text & j & a & b & ws & Hres & Hp & _ & Ha & Hb & Hs).
      rewrite (Hsucc text j a b ws Hres Hp Ha Hb Hs). reflexivity.
  - intros text j a b ws _ Hres Hp Ha Hb Hs.
    rewrite (Hsucc text j a b ws Hres Hp Ha Hb Hs). reflexivity.
Qed.

Lemma words_are_added_on_success_only_witness :
  let batch :=
    handleSaveWord (H := BasicLatin.engine) true Sample.typed 1700000000000
      (Resolved (Some Sample.untyped_response)) in
  mutates_words batch = true
  /\ words (apply_setters batch Sample.typed) = JArr [Sample.makan_untyped].
Proof.
  intros batch.
  assert (Hm : mutates_words batch = true) by reflexivity.
  split; [exact Hm|].
  destruct (words_are_added_on_success_only (H := BasicLatin.engine) true
              Sample.typed Sample.typed 1700000000000
              (Resolved (Some Sample.untyped_response)))
    as (_ & _ & _ & Hadd).
  exact (Hadd (Some Sample.untyped_response)
           (JObj [(js "indonesianTranslation", JStr (js "makan"))])
           (JStr (js "makan")) JUndefined [] Hm eq_refl eq_refl eq_refl eq_refl eq_refl).
Defined.
